(** * OptiNetSim: the simulation core of [app.py]

    A shallow embedding of the four functions of the simulator
    ([create_topology], [assign_wavelengths], [qos_metrics],
    [simulate_node_failure]), of the script that chains them and of the
    link colours of [plot_network], followed by the properties of the
    specification and further properties of the code.

    The functions call three libraries.  [networkx.Graph]
    ([add_nodes_from], [add_edge], [remove_node], [nodes], [edges],
    [G[u][v]]) is modelled after its implementation; the bodies are
    quoted at each definition.  [random.choice] is modelled by the index
    it returns.  Of plotly the model has the check [go.Scatter] makes of
    a line colour, the set of colours being a parameter.

    Python integers are [Z]; node identifiers are Python integers.
    Python floats are IEEE binary64, from [SpecFloat].  A Python [dict]
    is an association list in insertion order (iteration order is visible
    through [G.edges()]).  Exceptions are values of [exn], carried by the
    [result] monad. *)

From Stdlib Require Import ZArith List Bool String Lia Permutation QArith Finite.
From Stdlib Require Import SpecFloat.
Import ListNotations.
Local Open Scope Z_scope.

(** ** Exceptions *)

Inductive exn : Type :=
| ZeroDivisionError
| IndexError
| KeyError
| NetworkXError
| OverflowError
| ValueError.

Inductive result (A : Type) : Type :=
| Ok (a : A)
| Raise (e : exn).
Arguments Ok {A} a.
Arguments Raise {A} e.

Definition bind {A B : Type} (m : result A) (k : A -> result B) : result B :=
  match m with
  | Ok a => k a
  | Raise e => Raise e
  end.

Notation "x <- m ;; k" := (bind m (fun x => k))
  (at level 61, m at next level, right associativity).
Notation "' p <- m ;; k" := (bind m (fun x => let p := x in k))
  (at level 61, p pattern, m at next level, right associativity).

(** [for x in xs: s = body(x, s)], stopping at the first exception. *)
Fixpoint for_each {A S : Type} (xs : list A) (body : A -> S -> result S) (s : S)
  : result S :=
  match xs with
  | [] => Ok s
  | x :: xs' => s' <- body x s ;; for_each xs' body s'
  end.

(** ** Python built-ins *)

(** [range(lo, hi)]: empty when [hi <= lo]. *)
Definition range (lo hi : Z) : list Z :=
  map (fun k => lo + Z.of_nat k) (seq 0 (Z.to_nat (hi - lo))).

(** [a % b]: the sign of the result follows the divisor, as [Z.modulo]. *)
Definition py_mod (a b : Z) : result Z :=
  if b =? 0 then Raise ZeroDivisionError else Ok (a mod b).

(** [x in xs] on integers. *)
Definition memZ (x : Z) (xs : list Z) : bool := existsb (Z.eqb x) xs.

(** ** Dictionaries keyed by integers, in insertion order *)

Section Dict.
Context {V : Type}.

Definition dict : Type := list (Z * V).

Definition keys (d : dict) : list Z := map fst d.

Fixpoint dict_get (k : Z) (d : dict) : option V :=
  match d with
  | [] => None
  | (k', v) :: d' => if k =? k' then Some v else dict_get k d'
  end.

Definition dict_mem (k : Z) (d : dict) : bool :=
  match dict_get k d with Some _ => true | None => false end.

(** [d[k]]: [KeyError] when the key is missing. *)
Definition dict_getitem (k : Z) (d : dict) : result V :=
  match dict_get k d with Some v => Ok v | None => Raise KeyError end.

(** [d[k] = v]: an existing key keeps its position, a new one goes last. *)
Fixpoint dict_set (k : Z) (v : V) (d : dict) : dict :=
  match d with
  | [] => [(k, v)]
  | (k', v') :: d' =>
      if k =? k' then (k, v) :: d' else (k', v') :: dict_set k v d'
  end.

Fixpoint dict_remove (k : Z) (d : dict) : dict :=
  match d with
  | [] => []
  | (k', v') :: d' =>
      if k =? k' then d' else (k', v') :: dict_remove k d'
  end.

(** [del d[k]]: [KeyError] when the key is missing. *)
Definition dict_del (k : Z) (d : dict) : result dict :=
  if dict_mem k d then Ok (dict_remove k d) else Raise KeyError.
End Dict.
Arguments dict V : clear implicits.

(** ** networkx.Graph

    [Graph._node] maps each node to its attribute dict (always empty in
    this program: the model keeps the keys).  [Graph._adj] maps each node
    to the dict of its neighbours; the value stored under [_adj[u][v]] is
    the edge's data dict, and [_adj[u][v]] and [_adj[v][u]] are the SAME
    Python object.  The model keeps the data dicts in a store [g_data] and
    the adjacency holds their locations, so that a write through one
    direction is seen through the other. *)

Definition label : Type := string.

(** The data dict of an edge.  Every edge of this program is added with
    the keyword [wavelength=...], so the dict has exactly that key;
    [None] is Python's [None]. *)
Record datadict : Type := mkData { wavelength : option label }.

Definition loc : Type := nat.

Record Graph : Type := mkGraph {
  g_node : list Z;
  g_adj : dict (dict loc);
  g_data : list datadict
}.

(** [nx.Graph()] *)
Definition empty_graph : Graph := mkGraph [] [] [].

(** The body shared by [add_node], [add_nodes_from] and the endpoints of
    [add_edge]: [if n not in self._node: self._adj[n] = {}; self._node[n] = {}]. *)
Definition add_node (n : Z) (G : Graph) : Graph :=
  if memZ n (g_node G) then G
  else mkGraph (g_node G ++ [n]) (dict_set n [] (g_adj G)) (g_data G).

Definition add_nodes_from (ns : list Z) (G : Graph) : Graph :=
  fold_left (fun G n => add_node n G) ns G.

(** [adj[u][v] = l] *)
Definition adj_setitem (u v : Z) (l : loc) (adj : dict (dict loc))
  : result (dict (dict loc)) :=
  nb <- dict_getitem u adj ;;
  Ok (dict_set u (dict_set v l nb) adj).

Fixpoint store_set (l : loc) (d : datadict) (h : list datadict) : list datadict :=
  match h, l with
  | [], _ => []
  | _ :: h', O => d :: h'
  | x :: h', S l' => x :: store_set l' d h'
  end.

(** [G.add_edge(u, v, wavelength=w)]:
    [datadict = self._adj[u].get(v, {}); datadict.update(attr);
     self._adj[u][v] = datadict; self._adj[v][u] = datadict]. *)
Definition add_edge (u v : Z) (w : option label) (G : Graph) : result Graph :=
  let G1 := add_node v (add_node u G) in
  nb <- dict_getitem u (g_adj G1) ;;
  let '(l, data) :=
    match dict_get v nb with
    | Some l => (l, store_set l (mkData w) (g_data G1))
    | None => (List.length (g_data G1), g_data G1 ++ [mkData w])
    end in
  adj1 <- adj_setitem u v l (g_adj G1) ;;
  adj2 <- adj_setitem v u l adj1 ;;
  Ok (mkGraph (g_node G1) adj2 data).

(** [n in G.nodes()] *)
Definition has_node (n : Z) (G : Graph) : bool := memZ n (g_node G).

(** [list(G.nodes())] *)
Definition nodes (G : Graph) : list Z := g_node G.

(** [G.has_edge(u, v)] *)
Definition has_edge (G : Graph) (u v : Z) : bool :=
  match dict_get u (g_adj G) with
  | Some nb => dict_mem v nb
  | None => false
  end.

(** [list(G.edges())]:
    [seen = {}
     for n, nbrs in self._nodes_nbrs():
         for nbr in list(nbrs):
             if nbr not in seen: yield (n, nbr)
         seen[n] = 1]. *)
Fixpoint edges_from (seen : list Z) (adj : dict (dict loc)) : list (Z * Z) :=
  match adj with
  | [] => []
  | (n, nbrs) :: rest =>
      map (pair n) (filter (fun nbr => negb (memZ nbr seen)) (keys nbrs))
        ++ edges_from (n :: seen) rest
  end.

Definition edges (G : Graph) : list (Z * Z) := edges_from [] (g_adj G).

(** [G[u][v]] *)
Definition edge_data (G : Graph) (u v : Z) : result datadict :=
  nb <- dict_getitem u (g_adj G) ;;
  l <- dict_getitem v nb ;;
  match nth_error (g_data G) l with
  | Some d => Ok d
  | None => Raise KeyError
  end.

(** [G[u][v]['wavelength'] = w]: the data dict is mutated in place. *)
Definition set_wavelength (G : Graph) (u v : Z) (w : option label) : result Graph :=
  nb <- dict_getitem u (g_adj G) ;;
  l <- dict_getitem v nb ;;
  Ok (mkGraph (g_node G) (g_adj G) (store_set l (mkData w) (g_data G))).

(** [del self._node[n]] *)
Definition node_del (n : Z) (ns : list Z) : result (list Z) :=
  if memZ n ns then Ok (filter (fun m => negb (m =? n)) ns) else Raise KeyError.

(** [G.remove_node(n)]:
    [try: nbrs = list(adj[n]); del self._node[n]
     except KeyError: raise NetworkXError
     for u in nbrs: del adj[u][n]
     del adj[n]]. *)
Definition remove_node (n : Z) (G : Graph) : result Graph :=
  match dict_get n (g_adj G), node_del n (g_node G) with
  | Some nb, Ok ns =>
      adj1 <- for_each (keys nb)
                (fun u adj =>
                   nbu <- dict_getitem u adj ;;
                   nbu' <- dict_del n nbu ;;
                   Ok (dict_set u nbu' adj))
                (g_adj G) ;;
      adj2 <- dict_del n adj1 ;;
      Ok (mkGraph ns adj2 (g_data G))
  | _, _ => Raise NetworkXError
  end.

(** ** The simulator *)

(** [create_topology(nodes, topology_type)] *)
Definition create_topology (nodes : Z) (topology_type : string) : result Graph :=
  let G := add_nodes_from (range 1 (nodes + 1)) empty_graph in
  if (topology_type =? "Ring")%string then
    for_each (range 1 (nodes + 1))
      (fun i G => r <- py_mod i nodes ;; add_edge i (r + 1) None G) G
  else if (topology_type =? "Mesh")%string then
    for_each (range 1 (nodes + 1))
      (fun i G =>
         for_each (range (i + 1) (nodes + 1))
           (fun j G => add_edge i j None G) G) G
  else if (topology_type =? "Star")%string then
    for_each (range 2 (nodes + 1)) (fun i G => add_edge 1 i None G) G
  else if (topology_type =? "PON")%string then
    for_each (range 2 (nodes + 1)) (fun i G => add_edge 1 i None G) G
  else if (topology_type =? "WRPON")%string then
    let middle := nodes / 2 in
    G <- for_each (range 2 (middle + 2)) (fun i G => add_edge 1 i None G) G ;;
    for_each (range 2 (middle + 2))
      (fun i G =>
         for_each (range (middle + 2) (nodes + 1))
           (fun j G => add_edge i j None G) G) G
  else if (topology_type =? "Broadcast Select PON")%string then
    for_each (range 2 (nodes + 1)) (fun i G => add_edge 1 i None G) G
  else Ok G.

(** The random source, as the program sees it: the stream of the numbers
    from which the calls of [random.choice] still to come take their
    index, one number per call.  Whatever the generator does inside a
    call (CPython's [_randbelow] may reject and redraw bits), a run of the
    program is some stream: the number of a call is the index it chose. *)
Definition rand : Type := nat -> nat.

(** [random.choice(seq)]: [IndexError] on an empty sequence, otherwise
    [seq[i]] for an index [i] below [len(seq)], here the number of the
    call reduced modulo the length. *)
Definition random_choice {A : Type} (xs : list A) (r : rand) : result (A * rand) :=
  match xs with
  | [] => Raise IndexError
  | x0 :: _ => Ok (nth (Nat.modulo (r O) (List.length xs)) xs x0, fun k => r (S k))
  end.

(** [assign_wavelengths(G, wavelengths)] on the random source [r].  The
    right-hand side (the draw) is evaluated before the subscription
    [G[u][v]].  The loop writes data dicts only, never [_adj], so the view
    [G.edges()] yields during the loop what it lists before it. *)
Definition assign_wavelengths (G : Graph) (wavelengths : list label) (r : rand)
  : result (Graph * rand) :=
  for_each (edges G)
    (fun '(u, v) '(G, r) =>
       '(w, r') <- random_choice wavelengths r ;;
       G' <- set_wavelength G u v (Some w) ;;
       Ok (G', r'))
    (G, r).

(** [simulate_node_failure(G, failed_node)] *)
Definition simulate_node_failure (G : Graph) (failed_node : Z) : result Graph :=
  if has_node failed_node G then remove_node failed_node G else Ok G.

(** The script of [app.py] below the widgets: build, label, and fail a
    node unless the failed-node input is the sentinel [0]. *)
Definition run_simulation (nodes : Z) (topology_type : string)
    (wavelengths : list label) (failed_node : Z) (r : rand) : result Graph :=
  G <- create_topology nodes topology_type ;;
  '(G, _) <- assign_wavelengths G wavelengths r ;;
  if negb (failed_node =? 0) then simulate_node_failure G failed_node else Ok G.

(** ** The links as [plot_network] draws them

    Lines 77 to 90 of [plot_network]: the list [edge_colors] and the loop
    that adds one line trace per link.  A trace is modelled by the link it
    joins and the colour of its line; the coordinates, which come from
    [nx.spring_layout] (line 76), and the rest of the figure are left
    out.

    [go.Scatter] validates the colour of the line and raises [ValueError]
    when it is not one: which strings plotly takes for a colour is the
    parameter [valid_color] of the section. *)

(** A list comprehension, or a loop that appends one element per round,
    whose element expression may raise. *)
Fixpoint map_result {A B : Type} (f : A -> result B) (xs : list A) : result (list B) :=
  match xs with
  | [] => Ok []
  | x :: xs' => y <- f x ;; ys <- map_result f xs' ;; Ok (y :: ys)
  end.

(** [edge_colors = [G[u][v]['wavelength'] for u, v in G.edges()]].  Every
    link the program makes has the key ['wavelength'] ([add_edge] is
    always called with it), so the subscription is the field of the
    record; a graph with a link that lacks the key is outside the model. *)
Definition edge_colors (G : Graph) : result (list (option label)) :=
  map_result (fun e => d <- edge_data G (fst e) (snd e) ;; Ok (wavelength d)) (edges G).

(** ['blue' if color is None else color] *)
Definition line_color (color : option label) : label :=
  match color with
  | None => "blue"%string
  | Some c => c
  end.

Section Plot.

Variable valid_color : label -> bool.

(** [go.Scatter(..., line=dict(color=c, width=2), ...)] between the
    endpoints of [edge]. *)
Definition scatter_line (edge : Z * Z) (c : label) : result ((Z * Z) * label) :=
  if valid_color c then Ok (edge, c) else Raise ValueError.

(** [for edge, color in zip(G.edges(), edge_colors): fig.add_trace(...)]:
    the traces added, in order; the loop ends at the first trace that
    [go.Scatter] refuses. *)
Definition edge_traces (G : Graph) : result (list ((Z * Z) * label)) :=
  colors <- edge_colors G ;;
  map_result (fun ec => scatter_line (fst ec) (line_color (snd ec)))
    (combine (edges G) colors).

End Plot.

(** The options of the multiselect [Available Wavelengths] (line 124). *)
Definition wavelength_options : list label :=
  ["red"; "green"; "blue"; "orange"]%string.

(** ** QoS metrics

    A Python number is an [int] or a [float].  An [int] is unbounded; a
    [float] is an IEEE binary64, taken here from [SpecFloat] of the
    Standard Library (precision 53, [emax] 1024, rounding to nearest
    even). *)
Inductive number : Type :=
| PyInt (z : Z)
| PyFloat (f : spec_float).

(** [float(z)] as [PyLong_AsDouble] computes it: the integer rounded to
    nearest-even, [OverflowError] when the result is not finite. *)
Definition b64_of_int (z : Z) : result spec_float :=
  match binary_normalize 53 1024 z 0 false with
  | S754_infinity _ => Raise OverflowError
  | f => Ok f
  end.

(** The product of two floats; it raises nothing. *)
Definition b64_mul (x y : spec_float) : spec_float := SFmul 53 1024 x y.

(** The literal [0.5] is [2^52 * 2^-53]. *)
Definition b64_half : spec_float := S754_finite false 4503599627370496 (-53).

(** [a * b]: the product of two [int]s is an [int]; when one operand is a
    [float] the other is converted by [float()] first, which is where an
    [int] too large for a float raises. *)
Definition num_mul (a b : number) : result number :=
  match a, b with
  | PyInt x, PyInt y => Ok (PyInt (x * y))
  | PyInt x, PyFloat g => f <- b64_of_int x ;; Ok (PyFloat (b64_mul f g))
  | PyFloat f, PyInt y => g <- b64_of_int y ;; Ok (PyFloat (b64_mul f g))
  | PyFloat f, PyFloat g => Ok (PyFloat (b64_mul f g))
  end.

(** [qos_metrics(traffic_load, hops, wavelength_conversion)]; the traffic
    load and the hop count are the integers of the two sliders.  The
    latency is computed first: when its product raises, no throughput is
    computed. *)
Definition qos_metrics (traffic_load hops : Z) (wavelength_conversion : bool)
  : result (number * Z) :=
  latency <- num_mul (PyInt hops)
               (if wavelength_conversion then PyFloat b64_half else PyInt 1) ;;
  let throughput := Z.max 0 (100 - traffic_load * 2) in
  Ok (latency, throughput).

(** ** Specification vocabulary *)

(** The location stored under [adj[u][v]], if any. *)
Definition adj_get2 (adj : dict (dict loc)) (u v : Z) : option loc :=
  match dict_get u adj with
  | Some nb => dict_get v nb
  | None => None
  end.

Fixpoint nodupZ (xs : list Z) : bool :=
  match xs with
  | [] => true
  | x :: xs' => negb (memZ x xs') && nodupZ xs'
  end.

Fixpoint list_eqZ (xs ys : list Z) : bool :=
  match xs, ys with
  | [], [] => true
  | x :: xs', y :: ys' => (x =? y) && list_eqZ xs' ys'
  | _, _ => false
  end.

(** The representation invariant of [networkx.Graph], which every method
    of the class maintains: [_node] and [_adj] have the same keys in the
    same order, no key is repeated, and the adjacency is symmetric, both
    directions of an edge holding the same data dict. *)
Definition wf_nbrs (G : Graph) (u : Z) (nb : dict loc) : bool :=
  nodupZ (keys nb)
  && forallb
       (fun '(v, l) =>
          (l <? List.length (g_data G))%nat
          && match adj_get2 (g_adj G) v u with
             | Some l' => (l =? l')%nat
             | None => false
             end)
       nb.

Definition wf_graph (G : Graph) : bool :=
  nodupZ (g_node G)
  && list_eqZ (keys (g_adj G)) (g_node G)
  && forallb (fun '(u, nb) => wf_nbrs G u nb) (g_adj G).

(** Position of a key in a list of keys (its length when absent). *)
Fixpoint idx (k : Z) (ks : list Z) : nat :=
  match ks with
  | [] => O
  | k' :: ks' => if k =? k' then O else S (idx k ks')
  end.

(** An unordered pair, smaller endpoint first. *)
Definition norm (p : Z * Z) : Z * Z :=
  if fst p <=? snd p then p else (snd p, fst p).

(** [{a, b}] and [{u, v}] are the same unordered pair. *)
Definition same_pair (a b u v : Z) : bool :=
  ((a =? u) && (b =? v)) || ((a =? v) && (b =? u)).

(** [u] and [v] are joined by a link. *)
Definition linked (G : Graph) (u v : Z) : Prop :=
  In (u, v) (edges G) \/ In (v, u) (edges G).

(** Every link references only nodes present in the graph. *)
Definition links_in_nodes (G : Graph) : Prop :=
  forall u v, In (u, v) (edges G) -> In u (nodes G) /\ In v (nodes G).

(** No link joins the same unordered pair as another one. *)
Definition no_parallel_links (G : Graph) : Prop :=
  NoDup (map norm (edges G)).

(** The wavelength of the link is Python's [None]. *)
Definition unset (G : Graph) (u v : Z) : Prop :=
  edge_data G u v = Ok (mkData None).

(** The link carries one of the labels of [ws], read from either side. *)
Definition labelled (ws : list label) (G : Graph) (u v : Z) : Prop :=
  exists w, In w ws
    /\ edge_data G u v = Ok (mkData (Some w))
    /\ edge_data G v u = Ok (mkData (Some w)).

(** The calls [add_edge(u, v, wavelength=None)] of a list of pairs, in order. *)
Definition add_edges (ps : list (Z * Z)) (G : Graph) : result Graph :=
  for_each ps (fun p G => add_edge (fst p) (snd p) None G) G.

(** The pairs each branch of [create_topology] passes to [add_edge]. *)
Definition ring_pairs (n : Z) : list (Z * Z) :=
  map (fun i => (i, i mod n + 1)) (range 1 (n + 1)).

Definition mesh_pairs (n : Z) : list (Z * Z) :=
  flat_map (fun i => map (pair i) (range (i + 1) (n + 1))) (range 1 (n + 1)).

Definition star_pairs (n : Z) : list (Z * Z) :=
  map (pair 1) (range 2 (n + 1)).

Definition routers (n : Z) : list Z := range 2 (n / 2 + 2).
Definition terminals (n : Z) : list Z := range (n / 2 + 2) (n + 1).

Definition wrpon_pairs (n : Z) : list (Z * Z) :=
  map (pair 1) (routers n)
    ++ flat_map (fun i => map (pair i) (terminals n)) (routers n).

Definition topology_pairs (n : Z) (topology_type : string) : list (Z * Z) :=
  if (topology_type =? "Ring")%string then ring_pairs n
  else if (topology_type =? "Mesh")%string then mesh_pairs n
  else if (topology_type =? "Star")%string then star_pairs n
  else if (topology_type =? "PON")%string then star_pairs n
  else if (topology_type =? "WRPON")%string then wrpon_pairs n
  else if (topology_type =? "Broadcast Select PON")%string then star_pairs n
  else [].

(** The six kinds of the selector. *)
Definition kinds : list string :=
  ["Ring"; "Mesh"; "Star"; "PON"; "WRPON"; "Broadcast Select PON"]%string.

Definition known_kind (topology_type : string) : bool :=
  existsb (String.eqb topology_type) kinds.

(** The same invariant as a proposition. *)
Record WF (G : Graph) : Prop := mkWF {
  wf_nodup : NoDup (g_node G);
  wf_keys : keys (g_adj G) = g_node G;
  wf_inner : forall u nb, dict_get u (g_adj G) = Some nb -> NoDup (keys nb);
  wf_sym : forall u v l,
      adj_get2 (g_adj G) u v = Some l ->
      adj_get2 (g_adj G) v u = Some l /\ (l < List.length (g_data G))%nat
}.

(** A store entry that holds one of the labels of [ws]. *)
Definition holds_label (ws : list label) (o : option datadict) : Prop :=
  exists w, In w ws /\ o = Some (mkData (Some w)).

(** The body of the loop of [assign_wavelengths]. *)
Definition assign_step (wavelengths : list label) (e : Z * Z) (s : Graph * rand)
  : result (Graph * rand) :=
  let '(u, v) := e in
  let '(G, r) := s in
  '(w, r') <- random_choice wavelengths r ;;
  G' <- set_wavelength G u v (Some w) ;;
  Ok (G', r').

(** [_adj] once node [v] and every mention of it are deleted. *)
Definition adj_without (v : Z) (adj : dict (dict loc)) : dict (dict loc) :=
  dict_remove v (map (fun e => (fst e, dict_remove v (snd e))) adj).

(** [_adj] while [remove_node(v)] runs: the neighbours in [done] have
    already forgotten [v]. *)
Definition adj_strip (v : Z) (done : list Z) (adj : dict (dict loc))
  : dict (dict loc) :=
  map (fun e => (fst e, if memZ (fst e) done then dict_remove v (snd e) else snd e)) adj.

(** A link that does not touch node [v]. *)
Definition avoids (v : Z) (p : Z * Z) : bool :=
  negb (fst p =? v) && negb (snd p =? v).

(** The links along a sequence of nodes: each node with the next one. *)
Definition path_links (p : list Z) : list (Z * Z) := combine p (tl p).

(** The links around a sequence of nodes: the path, closed by the link
    from the last node back to the first. *)
Definition cycle_links (c : list Z) : list (Z * Z) :=
  combine c (tl c ++ firstn 1 c).

(** The links of [G] are those of one simple cycle through all its nodes. *)
Definition single_cycle (G : Graph) : Prop :=
  exists c,
    Permutation c (nodes G)
    /\ NoDup c
    /\ (3 <= List.length c)%nat
    /\ Permutation (map norm (cycle_links c)) (map norm (edges G)).

(** The links of [G] are those of one simple path through all its nodes. *)
Definition single_path (G : Graph) : Prop :=
  exists p,
    Permutation p (nodes G)
    /\ NoDup p
    /\ Permutation (map norm (path_links p)) (map norm (edges G)).

(** Two links share an endpoint. *)
Definition touches (p q : Z * Z) : bool :=
  (fst p =? fst q) || (fst p =? snd q) || (snd p =? fst q) || (snd p =? snd q).

(** The links fall into two non-empty groups that share no node, as the
    links of two disjoint paths would. *)
Definition two_disjoint_groups (G : Graph) : Prop :=
  exists g1 g2,
    g1 <> [] /\ g2 <> []
    /\ Permutation (g1 ++ g2) (edges G)
    /\ (forall p q, In p g1 -> In q g2 -> touches p q = false).

(** Different links have different data dicts. *)
Definition LocInj (G : Graph) : Prop :=
  forall a b c d l,
    adj_get2 (g_adj G) a b = Some l -> adj_get2 (g_adj G) c d = Some l ->
    same_pair a b c d = true.

(** The label that call number [k] of [random.choice] returns. *)
Definition drawn (ws : list label) (r : rand) (k : nat) : label :=
  nth (Nat.modulo (r k) (List.length ws)) ws ""%string.

(** The graph once [remove_node(v)] has run. *)
Definition without_node (v : Z) (G : Graph) : Graph :=
  mkGraph (filter (fun m => negb (m =? v)) (g_node G))
    (adj_without v (g_adj G)) (g_data G).

(** The neighbours of [v], the keys of [_adj[v]] in order; none when [v] is
    not a node. *)
Definition neighbors (G : Graph) (v : Z) : list Z :=
  match dict_get v (g_adj G) with
  | Some nb => keys nb
  | None => []
  end.

(** The wavelength read from a link, [None] when the link is missing. *)
Definition link_wavelength (G : Graph) (e : Z * Z) : option label :=
  match edge_data G (fst e) (snd e) with
  | Ok d => wavelength d
  | Raise _ => None
  end.

(** The rational a finite float denotes. *)
Definition b64_value (f : spec_float) : option Q :=
  match f with
  | S754_zero _ => Some 0%Q
  | S754_finite s m e =>
      let sm := if s then Z.neg m else Z.pos m in
      Some match e with
           | Z.neg k => Qmake sm (2 ^ k)
           | _ => inject_Z (sm * 2 ^ e)
           end
  | _ => None
  end.

(** The value of a number; none for an infinity or a NaN. *)
Definition num_value (a : number) : option Q :=
  match a with
  | PyInt z => Some (inject_Z z)
  | PyFloat f => b64_value f
  end.

(** The call of [qos_metrics] returned a latency of value [latency]
    (Python's [==] compares values: [4 == 4.0]) and the throughput
    [throughput]. *)
Definition qos_returns (r : result (number * Z)) (latency : Q) (throughput : Z)
  : Prop :=
  exists a q, r = Ok (a, throughput) /\ num_value a = Some q /\ (q == latency)%Q.

(** The graphs the program makes: built by [create_topology], then
    passed through [assign_wavelengths] and [simulate_node_failure]. *)
Inductive built : Graph -> Prop :=
| built_create (N : Z) (kind : string) (G : Graph) :
    create_topology N kind = Ok G -> built G
| built_assign (G G' : Graph) (ws : list label) (r r' : rand) :
    built G -> assign_wavelengths G ws r = Ok (G', r') -> built G'
| built_failure (G G' : Graph) (v : Z) :
    built G -> simulate_node_failure G v = Ok G' -> built G'.

(** A validator that takes the four options of the multiselect and
    nothing else (plotly takes these and more). *)
Definition options_only (c : label) : bool :=
  existsb (String.eqb c) wavelength_options.

(** * Properties *)

(** ** Lists of integers, ranges and loops *)

Lemma memZ_In (x : Z) (xs : list Z) : memZ x xs = true <-> In x xs.
Proof.
  unfold memZ. rewrite existsb_exists. split.
  - intros [y [Hy Heq]]. apply Z.eqb_eq in Heq. now subst.
  - intros H. exists x. split; [assumption | apply Z.eqb_refl].
Qed.

Lemma memZ_not_In (x : Z) (xs : list Z) : memZ x xs = false <-> ~ In x xs.
Proof.
  rewrite <- memZ_In. destruct (memZ x xs); split; intros; congruence.
Qed.

Lemma nodupZ_NoDup (xs : list Z) : nodupZ xs = true <-> NoDup xs.
Proof.
  induction xs as [|x xs IH]; simpl.
  - split; [constructor | reflexivity].
  - rewrite andb_true_iff, negb_true_iff, memZ_not_In, IH, NoDup_cons_iff.
    reflexivity.
Qed.

Lemma list_eqZ_eq (xs ys : list Z) : list_eqZ xs ys = true <-> xs = ys.
Proof.
  revert ys. induction xs as [|x xs IH]; intros [|y ys]; simpl;
    try (split; [discriminate | discriminate]); try tauto.
  rewrite andb_true_iff, Z.eqb_eq, IH. split.
  - intros [-> ->]. reflexivity.
  - intros H. inversion H. auto.
Qed.

Lemma range_In (lo hi x : Z) : In x (range lo hi) <-> lo <= x < hi.
Proof.
  unfold range. rewrite in_map_iff. split.
  - intros [k [<- Hk]]. apply in_seq in Hk. lia.
  - intros H. exists (Z.to_nat (x - lo)). split; [lia | apply in_seq; lia].
Qed.

Lemma range_nil (lo hi : Z) : hi <= lo -> range lo hi = [].
Proof.
  intros H. unfold range. replace (Z.to_nat (hi - lo)) with O by lia. reflexivity.
Qed.

Lemma range_cons (lo hi : Z) : lo < hi -> range lo hi = lo :: range (lo + 1) hi.
Proof.
  intros H. unfold range.
  replace (Z.to_nat (hi - lo)) with (S (Z.to_nat (hi - (lo + 1)))) by lia.
  simpl. f_equal; [lia |].
  rewrite <- seq_shift, map_map. apply map_ext. intros k. lia.
Qed.

Lemma range_length (lo hi : Z) : List.length (range lo hi) = Z.to_nat (hi - lo).
Proof. unfold range. now rewrite length_map, length_seq. Qed.

Lemma range_NoDup (lo hi : Z) : NoDup (range lo hi).
Proof.
  unfold range. apply Injective_map_NoDup.
  - intros a b H. lia.
  - apply seq_NoDup.
Qed.

Lemma range_app (lo mid hi : Z) :
  lo <= mid <= hi -> range lo hi = range lo mid ++ range mid hi.
Proof.
  intros H. remember (Z.to_nat (mid - lo)) as n eqn:Hn.
  revert lo H Hn. induction n as [|n IH]; intros lo H Hn.
  - replace mid with lo by lia. now rewrite (range_nil lo lo) by lia.
  - rewrite (range_cons lo hi), (range_cons lo mid) by lia.
    simpl. f_equal. apply IH; lia.
Qed.

Lemma for_each_app {A S : Type} (xs ys : list A) (body : A -> S -> result S) (s : S) :
  for_each (xs ++ ys) body s = (s' <- for_each xs body s ;; for_each ys body s').
Proof.
  revert s. induction xs as [|x xs IH]; intros s; simpl; [reflexivity|].
  destruct (body x s); simpl; [apply IH | reflexivity].
Qed.

Lemma for_each_map {A B S : Type} (f : A -> B) (xs : list A)
    (body : B -> S -> result S) (s : S) :
  for_each (map f xs) body s = for_each xs (fun x => body (f x)) s.
Proof.
  revert s. induction xs as [|x xs IH]; intros s; simpl; [reflexivity|].
  destruct (body (f x) s); simpl; [apply IH | reflexivity].
Qed.

Lemma for_each_ext_in {A S : Type} (xs : list A) (f g : A -> S -> result S) (s : S) :
  (forall x s, In x xs -> f x s = g x s) ->
  for_each xs f s = for_each xs g s.
Proof.
  revert s. induction xs as [|x xs IH]; intros s H; simpl; [reflexivity|].
  rewrite H by now left. destruct (g x s); simpl; [|reflexivity].
  apply IH. intros y t Hy. apply H. now right.
Qed.

Lemma for_each_flat_map {A B S : Type} (f : A -> list B) (xs : list A)
    (body : B -> S -> result S) (s : S) :
  for_each (flat_map f xs) body s
  = for_each xs (fun x s => for_each (f x) body s) s.
Proof.
  revert s. induction xs as [|x xs IH]; intros s; simpl; [reflexivity|].
  rewrite for_each_app. destruct (for_each (f x) body s); simpl;
    [apply IH | reflexivity].
Qed.

(** ** Dictionaries *)

Section DictFacts.
Context {V : Type}.
Implicit Types (d : dict V) (k : Z) (v : V).

Lemma dict_mem_In k d : dict_mem k d = true <-> In k (keys d).
Proof.
  unfold dict_mem. induction d as [|[k' v'] d IH]; simpl.
  - split; [discriminate | tauto].
  - destruct (Z.eqb_spec k k') as [->|Hne].
    + split; auto.
    + rewrite IH. split; [auto | intros [H|H]; [congruence | assumption]].
Qed.

Lemma dict_get_None k d : dict_get k d = None <-> ~ In k (keys d).
Proof.
  rewrite <- dict_mem_In. unfold dict_mem.
  destruct (dict_get k d); split; intros; congruence.
Qed.

Lemma dict_get_Some_In k v d : dict_get k d = Some v -> In (k, v) d.
Proof.
  induction d as [|[k' v'] d IH]; simpl; [discriminate|].
  destruct (Z.eqb_spec k k') as [->|Hne].
  - intros [= ->]. now left.
  - intros H. right. now apply IH.
Qed.

Lemma dict_get_Some_key k v d : dict_get k d = Some v -> In k (keys d).
Proof.
  intros H. apply dict_mem_In. unfold dict_mem. now rewrite H.
Qed.

Lemma In_dict_get k v d : NoDup (keys d) -> In (k, v) d -> dict_get k d = Some v.
Proof.
  induction d as [|[k' v'] d IH]; simpl; [tauto|].
  intros Hnd [Heq|Hin].
  - inversion Heq; subst. now rewrite Z.eqb_refl.
  - inversion Hnd as [|? ? Hk' Hd]; subst.
    destruct (Z.eqb_spec k k') as [->|Hne].
    + exfalso. apply Hk'. change k' with (fst (k', v)). now apply in_map.
    + now apply IH.
Qed.

Lemma dict_get_set k k' v d :
  dict_get k' (dict_set k v d) = if k' =? k then Some v else dict_get k' d.
Proof.
  induction d as [|[k0 v0] d IH]; simpl.
  - destruct (k' =? k); reflexivity.
  - destruct (Z.eqb_spec k k0) as [->|Hne]; simpl.
    + destruct (k' =? k0); reflexivity.
    + rewrite IH. destruct (Z.eqb_spec k' k0) as [->|Hne'].
      * destruct (Z.eqb_spec k0 k); [congruence | reflexivity].
      * reflexivity.
Qed.

Lemma keys_dict_set_present k v d :
  In k (keys d) -> keys (dict_set k v d) = keys d.
Proof.
  induction d as [|[k0 v0] d IH]; simpl; [tauto|].
  intros H. destruct (Z.eqb_spec k k0) as [->|Hne]; simpl; [reflexivity|].
  f_equal. apply IH. destruct H; [congruence | assumption].
Qed.

Lemma keys_dict_set_absent k v d :
  ~ In k (keys d) -> keys (dict_set k v d) = keys d ++ [k].
Proof.
  induction d as [|[k0 v0] d IH]; simpl; [reflexivity|].
  intros H. destruct (Z.eqb_spec k k0) as [->|Hne]; simpl.
  - exfalso. apply H. now left.
  - f_equal. apply IH. tauto.
Qed.

Lemma dict_set_absent k v d :
  ~ In k (keys d) -> dict_set k v d = d ++ [(k, v)].
Proof.
  induction d as [|[k0 v0] d IH]; simpl; [reflexivity|].
  intros H. destruct (Z.eqb_spec k k0) as [->|Hne]; simpl.
  - exfalso. apply H. now left.
  - f_equal. apply IH. tauto.
Qed.

Lemma NoDup_keys_dict_set k v d : NoDup (keys d) -> NoDup (keys (dict_set k v d)).
Proof.
  intros H. destruct (in_dec Z.eq_dec k (keys d)) as [Hin|Hout].
  - now rewrite keys_dict_set_present.
  - rewrite keys_dict_set_absent by assumption.
    apply NoDup_app; [assumption | repeat constructor; simpl; tauto |].
    intros a Ha [<-|[]]. contradiction.
Qed.

Lemma keys_dict_remove k d :
  NoDup (keys d) -> keys (dict_remove k d) = filter (fun m => negb (m =? k)) (keys d).
Proof.
  induction d as [|[k0 v0] d IH]; simpl; [reflexivity|].
  intros Hnd. inversion Hnd as [|? ? Hk0 Hd]; subst.
  destruct (Z.eqb_spec k k0) as [->|Hne].
  - rewrite Z.eqb_refl. simpl. symmetry. apply forallb_filter_id.
    apply forallb_forall. intros x Hx. apply negb_true_iff, Z.eqb_neq.
    intros ->. contradiction.
  - destruct (Z.eqb_spec k0 k); [congruence|]. simpl. f_equal. now apply IH.
Qed.

Lemma dict_get_remove k k' d :
  NoDup (keys d) ->
  dict_get k' (dict_remove k d) = if k' =? k then None else dict_get k' d.
Proof.
  induction d as [|[k0 v0] d IH]; simpl; intros Hnd.
  - destruct (k' =? k); reflexivity.
  - inversion Hnd as [|? ? Hk0 Hd]; subst.
    destruct (Z.eqb_spec k k0) as [->|Hne]; simpl.
    + destruct (Z.eqb_spec k' k0) as [->|Hne']; [|reflexivity].
      now apply dict_get_None.
    + rewrite IH by assumption.
      destruct (Z.eqb_spec k' k0) as [->|Hne'].
      * destruct (Z.eqb_spec k0 k); [congruence | reflexivity].
      * reflexivity.
Qed.

Lemma dict_remove_absent k d : ~ In k (keys d) -> dict_remove k d = d.
Proof.
  induction d as [|[k0 v0] d IH]; simpl; [reflexivity|].
  intros H. destruct (Z.eqb_spec k k0) as [->|Hne].
  - exfalso. apply H. now left.
  - f_equal. apply IH. tauto.
Qed.
End DictFacts.

(** ** The representation invariant *)

Lemma wf_graph_WF (G : Graph) : wf_graph G = true <-> WF G.
Proof.
  unfold wf_graph. rewrite !andb_true_iff, nodupZ_NoDup, list_eqZ_eq, forallb_forall.
  split.
  - intros [[Hnd Hk] Hall]. split; try assumption.
    + intros u nb Hu. apply dict_get_Some_In, Hall in Hu.
      unfold wf_nbrs in Hu. apply andb_true_iff in Hu. now apply nodupZ_NoDup.
    + intros u v l Huv. unfold adj_get2 in Huv.
      destruct (dict_get u (g_adj G)) as [nb|] eqn:Hu; [|discriminate].
      apply dict_get_Some_In, Hall in Hu. unfold wf_nbrs in Hu.
      apply andb_true_iff in Hu. destruct Hu as [_ Hu].
      rewrite forallb_forall in Hu. apply dict_get_Some_In, Hu in Huv.
      apply andb_true_iff in Huv. destruct Huv as [Hl Hvu].
      apply Nat.ltb_lt in Hl. split; [|assumption].
      destruct (adj_get2 (g_adj G) v u) as [l'|]; [|discriminate].
      apply Nat.eqb_eq in Hvu. now subst.
  - intros [Hnd Hk Hin Hsym]. repeat split; try assumption.
    intros [u nb] Hu. apply In_dict_get in Hu; [|now rewrite Hk].
    unfold wf_nbrs. apply andb_true_iff. split.
    + apply nodupZ_NoDup. eapply Hin; eassumption.
    + apply forallb_forall. intros [v l] Hv.
      apply In_dict_get in Hv; [|eapply Hin; eassumption].
      destruct (Hsym u v l) as [Hvu Hl].
      { unfold adj_get2. now rewrite Hu. }
      rewrite Hvu, Nat.eqb_refl. apply andb_true_iff. split; [|reflexivity].
      now apply Nat.ltb_lt.
Qed.

Lemma adj_get2_key_l adj u v l : adj_get2 adj u v = Some l -> In u (keys adj).
Proof.
  unfold adj_get2. destruct (dict_get u adj) eqn:H; [|discriminate].
  intros _. eapply dict_get_Some_key; eassumption.
Qed.

Lemma WF_get2_nodes (G : Graph) u v l :
  WF G -> adj_get2 (g_adj G) u v = Some l -> In u (g_node G) /\ In v (g_node G).
Proof.
  intros HW H. rewrite <- (wf_keys G HW). split.
  - eapply adj_get2_key_l; eassumption.
  - apply (wf_sym G HW) in H. destruct H as [H _].
    eapply adj_get2_key_l; eassumption.
Qed.

Lemma has_edge_get2 (G : Graph) u v :
  has_edge G u v = true <-> exists l, adj_get2 (g_adj G) u v = Some l.
Proof.
  unfold has_edge, adj_get2, dict_mem.
  destruct (dict_get u (g_adj G)) as [nb|].
  - destruct (dict_get v nb) as [l|]; split.
    + intros _. now exists l.
    + reflexivity.
    + discriminate.
    + intros [l H]. discriminate.
  - split; [discriminate | intros [l H]; discriminate].
Qed.

(** ** [G.edges()] *)

Lemma idx_inj (a b : Z) (ks : list Z) :
  In a ks -> idx a ks = idx b ks -> a = b.
Proof.
  induction ks as [|k ks IH]; simpl; [tauto|].
  intros Ha. destruct (Z.eqb_spec a k) as [->|Hna], (Z.eqb_spec b k) as [->|Hnb];
    try congruence; try discriminate.
  intros [= H]. apply IH; [|assumption]. destruct Ha; [congruence | assumption].
Qed.

Lemma idx_range (lo hi k : Z) :
  lo <= k < hi -> idx k (range lo hi) = Z.to_nat (k - lo).
Proof.
  intros H. remember (Z.to_nat (k - lo)) as n eqn:Hn.
  revert lo H Hn. induction n as [|n IH]; intros lo H Hn.
  - rewrite range_cons by lia. simpl. replace k with lo by lia.
    now rewrite Z.eqb_refl.
  - rewrite range_cons by lia. simpl.
    destruct (Z.eqb_spec k lo); [lia|]. f_equal. apply IH; lia.
Qed.

Lemma edges_from_spec (seen : list Z) (adj : dict (dict loc)) (u v : Z) :
  NoDup (keys adj) ->
  In (u, v) (edges_from seen adj)
  <-> (exists l, adj_get2 adj u v = Some l)
      /\ ~ In v seen
      /\ (idx u (keys adj) <= idx v (keys adj))%nat.
Proof.
  revert seen. induction adj as [|[n nbrs] rest IH]; intros seen Hnd; simpl.
  - split; [tauto | intros [[l H] _]; discriminate].
  - inversion Hnd as [|? ? Hn Hrest]; subst.
    rewrite in_app_iff, in_map_iff, (IH _ Hrest). unfold adj_get2. simpl.
    destruct (Z.eqb_spec u n) as [->|Hne].
    + split.
      * intros [[x [Hx Hin]]|[[l Hl] _]].
        -- inversion Hx; subst. apply filter_In in Hin. destruct Hin as [Hin Hs].
           apply negb_true_iff, memZ_not_In in Hs.
           apply dict_mem_In in Hin. unfold dict_mem in Hin.
           destruct (dict_get v nbrs) as [l|] eqn:Hv; [|discriminate].
           repeat split; [now exists l | assumption | lia].
        -- exfalso. apply Hn. destruct (dict_get n rest) eqn:Hg; [|discriminate].
           eapply dict_get_Some_key; eassumption.
      * intros [[l Hl] [Hs _]]. left. exists v. split; [reflexivity|].
        apply filter_In. split.
        -- eapply dict_get_Some_key; eassumption.
        -- now apply negb_true_iff, memZ_not_In.
    + split.
      * intros [[x [Hx _]]|[Hl [Hs Hi]]]; [congruence|].
        simpl in Hs. destruct (Z.eqb_spec v n) as [->|Hvn]; [tauto|].
        repeat split; [assumption | tauto | lia].
      * intros [Hl [Hs Hi]]. right.
        destruct (Z.eqb_spec v n) as [->|Hvn]; [lia|].
        repeat split; [assumption | simpl; intros [H|H]; [congruence | tauto] | lia].
Qed.

Lemma edges_spec (G : Graph) (u v : Z) :
  WF G ->
  In (u, v) (edges G)
  <-> has_edge G u v = true /\ (idx u (g_node G) <= idx v (g_node G))%nat.
Proof.
  intros HW. unfold edges. rewrite edges_from_spec.
  - rewrite has_edge_get2, (wf_keys G HW). simpl. tauto.
  - rewrite (wf_keys G HW). apply (wf_nodup G HW).
Qed.

Lemma has_edge_sym (G : Graph) (u v : Z) :
  WF G -> has_edge G u v = true -> has_edge G v u = true.
Proof.
  intros HW. rewrite !has_edge_get2. intros [l H].
  exists l. now apply (wf_sym G HW).
Qed.

Lemma has_edge_nodes (G : Graph) (u v : Z) :
  WF G -> has_edge G u v = true -> In u (g_node G) /\ In v (g_node G).
Proof.
  intros HW. rewrite has_edge_get2. intros [l H].
  eapply WF_get2_nodes; eassumption.
Qed.

Lemma linked_has_edge (G : Graph) (u v : Z) :
  WF G -> linked G u v <-> has_edge G u v = true.
Proof.
  intros HW. unfold linked. rewrite !(edges_spec G) by assumption. split.
  - intros [[H _]|[H _]]; [assumption | now apply has_edge_sym].
  - intros H.
    destruct (Nat.le_ge_cases (idx u (g_node G)) (idx v (g_node G))).
    + left. now split.
    + right. split; [now apply has_edge_sym | assumption].
Qed.

Lemma WF_links_in_nodes (G : Graph) : WF G -> links_in_nodes G.
Proof.
  intros HW u v H. apply (edges_spec G u v HW) in H.
  destruct H as [H _]. now apply has_edge_nodes.
Qed.

Lemma edges_from_fst (seen : list Z) (adj : dict (dict loc)) (p : Z * Z) :
  In p (edges_from seen adj) -> In (fst p) (keys adj).
Proof.
  revert seen. induction adj as [|[n nbrs] rest IH]; intros seen; simpl; [tauto|].
  rewrite in_app_iff, in_map_iff. intros [[x [<- _]]|H].
  - now left.
  - right. eapply IH; eassumption.
Qed.

Lemma edges_from_NoDup (seen : list Z) (adj : dict (dict loc)) :
  NoDup (keys adj) ->
  (forall u nb, In (u, nb) adj -> NoDup (keys nb)) ->
  NoDup (edges_from seen adj).
Proof.
  revert seen. induction adj as [|[n nbrs] rest IH]; intros seen Hnd Hin; simpl.
  - constructor.
  - inversion Hnd as [|? ? Hn Hrest]; subst. apply NoDup_app.
    + apply Injective_map_NoDup.
      * intros a b H. now inversion H.
      * apply NoDup_filter. apply (Hin n). now left.
    + apply IH; [assumption|]. intros u nb H. apply (Hin u). now right.
    + intros p Hp Hq. apply in_map_iff in Hp. destruct Hp as [x [<- _]].
      apply edges_from_fst in Hq. contradiction.
Qed.

Lemma edges_NoDup (G : Graph) : WF G -> NoDup (edges G).
Proof.
  intros HW. apply edges_from_NoDup.
  - rewrite (wf_keys G HW). apply (wf_nodup G HW).
  - intros u nb H. apply (wf_inner G HW u). apply In_dict_get; [|assumption].
    rewrite (wf_keys G HW). apply (wf_nodup G HW).
Qed.

Lemma norm_eq (a b c d : Z) :
  norm (a, b) = norm (c, d) -> (a, b) = (c, d) \/ (a, b) = (d, c).
Proof.
  unfold norm. simpl.
  destruct (a <=? b), (c <=? d); intros [= -> ->]; auto.
Qed.

Lemma norm_In (ps : list (Z * Z)) (a b : Z) :
  In (a, b) (map norm ps) <-> a <= b /\ (In (a, b) ps \/ In (b, a) ps).
Proof.
  rewrite in_map_iff. split.
  - intros [[c d] [H Hin]]. unfold norm in H. simpl in H.
    destruct (Z.leb_spec c d); inversion H; subst; split; auto; lia.
  - intros [Hle [H|H]].
    + exists (a, b). split; [|assumption]. unfold norm. simpl.
      destruct (Z.leb_spec a b); [reflexivity | lia].
    + exists (b, a). split; [|assumption]. unfold norm. simpl.
      destruct (Z.leb_spec b a); [|reflexivity].
      replace b with a by lia. reflexivity.
Qed.

Lemma WF_no_parallel_links (G : Graph) : WF G -> no_parallel_links G.
Proof.
  intros HW. unfold no_parallel_links.
  apply Injective_map_NoDup_in; [|now apply edges_NoDup].
  intros [a b] [c d] Hx Hy Heq. apply norm_eq in Heq.
  destruct Heq as [Heq|Heq]; [assumption|]. inversion Heq; subst.
  apply (edges_spec G) in Hx, Hy; try assumption.
  destruct Hx as [He Hx], Hy as [_ Hy].
  assert (d = c); [|now subst].
  apply (idx_inj d c (g_node G)); [|lia].
  now apply (has_edge_nodes G d c HW).
Qed.

(** The number of links is the number of unordered linked pairs: any
    duplicate-free list of ordered pairs that covers exactly the linked
    pairs has the length of [G.edges()]. *)
Lemma edges_length (G : Graph) (ps : list (Z * Z)) :
  WF G ->
  NoDup (map norm ps) ->
  (forall a b, has_edge G a b = true <-> In (a, b) ps \/ In (b, a) ps) ->
  List.length (edges G) = List.length ps.
Proof.
  intros HW Hnd Hps.
  rewrite <- (length_map norm (edges G)), <- (length_map norm ps).
  apply Permutation_length, NoDup_Permutation;
    [now apply WF_no_parallel_links | assumption |].
  intros [a b]. rewrite !norm_In. fold (linked G a b).
  rewrite linked_has_edge, Hps by assumption. reflexivity.
Qed.

(** ** [add_node], [add_nodes_from], [add_edge] *)

Lemma store_set_length (l : loc) (d : datadict) (h : list datadict) :
  List.length (store_set l d h) = List.length h.
Proof.
  revert l. induction h as [|x h IH]; intros [|l]; simpl; auto.
Qed.

Lemma store_set_nth (l l' : loc) (d : datadict) (h : list datadict) :
  (l < List.length h)%nat ->
  nth_error (store_set l d h) l' = if (l' =? l)%nat then Some d else nth_error h l'.
Proof.
  revert l l'. induction h as [|x h IH]; intros [|l] [|l'] H; simpl in *;
    try lia; try reflexivity.
  apply IH. lia.
Qed.

Lemma store_set_Forall (P : datadict -> Prop) (l : loc) (d : datadict)
    (h : list datadict) :
  P d -> Forall P h -> Forall P (store_set l d h).
Proof.
  intros Hd. revert l. induction h as [|x h IH]; intros [|l] H; simpl;
    inversion H; subst; constructor; auto.
Qed.

Lemma add_node_present (n : Z) (G : Graph) : In n (g_node G) -> add_node n G = G.
Proof. intros H. unfold add_node. apply memZ_In in H. now rewrite H. Qed.

Lemma add_node_data (n : Z) (G : Graph) : g_data (add_node n G) = g_data G.
Proof. unfold add_node. now destruct (memZ n (g_node G)). Qed.

Lemma add_node_get2 (n : Z) (G : Graph) (u v : Z) :
  WF G -> adj_get2 (g_adj (add_node n G)) u v = adj_get2 (g_adj G) u v.
Proof.
  intros HW. unfold add_node.
  destruct (memZ n (g_node G)) eqn:Hn; [reflexivity|]. simpl.
  apply memZ_not_In in Hn. rewrite <- (wf_keys G HW) in Hn.
  unfold adj_get2. rewrite dict_get_set.
  destruct (Z.eqb_spec u n) as [->|Hne]; [|reflexivity].
  apply dict_get_None in Hn. now rewrite Hn.
Qed.

Lemma add_node_In (n : Z) (G : Graph) (x : Z) :
  In x (g_node (add_node n G)) <-> x = n \/ In x (g_node G).
Proof.
  unfold add_node. destruct (memZ n (g_node G)) eqn:Hn; simpl.
  - apply memZ_In in Hn. split; [auto | intros [->|H]; assumption].
  - rewrite in_app_iff. simpl. intuition congruence.
Qed.

Lemma add_node_WF (n : Z) (G : Graph) : WF G -> WF (add_node n G).
Proof.
  intros HW. pose proof (add_node_get2 n G) as Hget. unfold add_node in *.
  destruct (memZ n (g_node G)) eqn:Hn; [assumption|]. simpl in *.
  apply memZ_not_In in Hn. destruct HW as [Hnd Hk Hin Hsym]. split; simpl.
  - apply NoDup_app; [assumption | repeat constructor; simpl; tauto |].
    intros a Ha [<-|[]]. contradiction.
  - rewrite <- Hk. apply keys_dict_set_absent. now rewrite Hk.
  - intros u nb. rewrite dict_get_set.
    destruct (u =? n); [intros [= <-]; constructor | apply Hin].
  - intros u v l. rewrite !Hget by (split; assumption). apply Hsym.
Qed.

Lemma add_nodes_from_fresh (ns : list Z) (G : Graph) :
  keys (g_adj G) = g_node G ->
  NoDup (g_node G ++ ns) ->
  add_nodes_from ns G
  = mkGraph (g_node G ++ ns) (g_adj G ++ map (fun n => (n, [])) ns) (g_data G).
Proof.
  revert G. induction ns as [|n ns IH]; intros G Hk Hnd; simpl.
  - rewrite !app_nil_r. now destruct G.
  - assert (Hn : ~ In n (g_node G)).
    { intros H. apply NoDup_remove_2 in Hnd. apply Hnd, in_or_app. now left. }
    assert (Hn' : ~ In n (keys (g_adj G))) by now rewrite Hk.
    unfold add_node at 1. apply memZ_not_In in Hn. rewrite Hn.
    rewrite IH; simpl.
    + rewrite (dict_set_absent n [] (g_adj G) Hn').
      now rewrite <- !app_assoc.
    + rewrite <- Hk. now apply keys_dict_set_absent.
    + now rewrite <- app_assoc.
Qed.

(** The graph [create_topology] starts from. *)
Lemma add_nodes_from_range (n : Z) :
  add_nodes_from (range 1 (n + 1)) empty_graph
  = mkGraph (range 1 (n + 1)) (map (fun i => (i, [])) (range 1 (n + 1))) [].
Proof.
  rewrite add_nodes_from_fresh; [reflexivity | reflexivity | apply range_NoDup].
Qed.

Lemma isolated_nodes_WF (ns : list Z) :
  NoDup ns -> WF (mkGraph ns (map (fun i => (i, [])) ns) []).
Proof.
  intros Hnd.
  assert (Hget : forall u nb, dict_get u (map (fun i : Z => (i, @nil (Z * loc))) ns) = Some nb
                              -> nb = []).
  { intros u nb H. apply dict_get_Some_In, in_map_iff in H.
    destruct H as [x [[= _ <-] _]]. reflexivity. }
  split; simpl.
  - assumption.
  - unfold keys. rewrite map_map. simpl. apply map_id.
  - intros u nb H. apply Hget in H. subst. constructor.
  - intros u v l H. unfold adj_get2 in H.
    destruct (dict_get u _) as [nb|] eqn:Hu; [|discriminate].
    apply Hget in Hu. subst. discriminate.
Qed.

Lemma isolated_nodes_has_edge (ns : list Z) (d : list datadict) (u v : Z) :
  has_edge (mkGraph ns (map (fun i => (i, [])) ns) d) u v = false.
Proof.
  unfold has_edge. simpl.
  destruct (dict_get u _) as [nb|] eqn:Hu; [|reflexivity].
  apply dict_get_Some_In, in_map_iff in Hu.
  destruct Hu as [x [[= _ <-] _]]. reflexivity.
Qed.

Lemma adj_setitem_spec (u v : Z) (l : loc) (adj : dict (dict loc)) :
  In u (keys adj) ->
  exists adj',
    adj_setitem u v l adj = Ok adj'
    /\ keys adj' = keys adj
    /\ (forall a b, adj_get2 adj' a b
                    = if (a =? u) && (b =? v) then Some l else adj_get2 adj a b)
    /\ ((forall a nb, dict_get a adj = Some nb -> NoDup (keys nb)) ->
        (forall a nb, dict_get a adj' = Some nb -> NoDup (keys nb))).
Proof.
  intros Hu. unfold adj_setitem, dict_getitem.
  destruct (dict_get u adj) as [nb|] eqn:Hnb.
  2:{ apply dict_get_None in Hnb. contradiction. }
  simpl. eexists. split; [reflexivity|]. split; [|split].
  - now apply keys_dict_set_present.
  - intros a b. unfold adj_get2. rewrite dict_get_set.
    destruct (Z.eqb_spec a u) as [->|Hne]; simpl; [|reflexivity].
    rewrite dict_get_set, Hnb. reflexivity.
  - intros Hin a nb'. rewrite dict_get_set.
    destruct (Z.eqb_spec a u) as [->|Hne]; [|apply Hin].
    intros [= <-]. apply NoDup_keys_dict_set. eapply Hin; eassumption.
Qed.

Lemma has_edge_get2_eq (G : Graph) (a b : Z) :
  has_edge G a b = match adj_get2 (g_adj G) a b with Some _ => true | None => false end.
Proof.
  unfold has_edge, adj_get2, dict_mem. now destruct (dict_get a (g_adj G)).
Qed.

Lemma add_edge_spec (u v : Z) (w : option label) (G : Graph) :
  WF G ->
  exists G',
    add_edge u v w G = Ok G'
    /\ WF G'
    /\ g_node G' = g_node (add_node v (add_node u G))
    /\ (forall a b, has_edge G' a b = has_edge G a b || same_pair a b u v)
    /\ (forall P : datadict -> Prop,
           P (mkData w) -> Forall P (g_data G) -> Forall P (g_data G')).
Proof.
  intros HW0. unfold add_edge.
  assert (Hget0 : forall a b, adj_get2 (g_adj (add_node v (add_node u G))) a b
                              = adj_get2 (g_adj G) a b).
  { intros a b. rewrite add_node_get2 by now apply add_node_WF.
    now apply add_node_get2. }
  assert (Hdata0 : g_data (add_node v (add_node u G)) = g_data G)
    by now rewrite !add_node_data.
  assert (HW : WF (add_node v (add_node u G))) by now do 2 apply add_node_WF.
  assert (Hu : In u (g_node (add_node v (add_node u G)))).
  { apply add_node_In. right. apply add_node_In. now left. }
  assert (Hv : In v (g_node (add_node v (add_node u G)))).
  { apply add_node_In. now left. }
  set (G1 := add_node v (add_node u G)) in *.
  rewrite <- (wf_keys G1 HW) in Hu, Hv.
  unfold dict_getitem.
  destruct (dict_get u (g_adj G1)) as [nb|] eqn:Hnb.
  2:{ apply dict_get_None in Hnb. contradiction. }
  simpl.
  assert (Hl : exists l data,
             match dict_get v nb with
             | Some l => (l, store_set l (mkData w) (g_data G1))
             | None => (List.length (g_data G1), g_data G1 ++ [mkData w])
             end = (l, data)
             /\ (l < List.length data)%nat
             /\ (List.length (g_data G1) <= List.length data)%nat
             /\ (forall P : datadict -> Prop,
                    P (mkData w) -> Forall P (g_data G1) -> Forall P data)).
  { destruct (dict_get v nb) as [l|] eqn:Hvl.
    - exists l, (store_set l (mkData w) (g_data G1)).
      rewrite store_set_length. repeat split.
      + apply (wf_sym G1 HW u v). unfold adj_get2. now rewrite Hnb.
      + lia.
      + intros P Hw HP. now apply store_set_Forall.
    - exists (List.length (g_data G1)), (g_data G1 ++ [mkData w]).
      rewrite length_app. simpl. repeat split; try lia.
      intros P Hw HP. apply Forall_app. split; [assumption | now constructor]. }
  destruct Hl as [l [data [-> [Hlt [Hlen HP]]]]].
  destruct (adj_setitem_spec u v l (g_adj G1) Hu) as [adj1 [-> [Hk1 [Hg1 Hi1]]]].
  simpl. rewrite <- Hk1 in Hv.
  destruct (adj_setitem_spec v u l adj1 Hv) as [adj2 [-> [Hk2 [Hg2 Hi2]]]].
  simpl. eexists. split; [reflexivity|].
  assert (Hget : forall a b,
             adj_get2 adj2 a b
             = if same_pair a b u v then Some l else adj_get2 (g_adj G) a b).
  { intros a b. rewrite Hg2, Hg1, Hget0. unfold same_pair.
    destruct (a =? v), (b =? u), (a =? u), (b =? v); reflexivity. }
  split; [|split; [reflexivity | split]].
  - split; simpl.
    + apply (wf_nodup G1 HW).
    + rewrite Hk2, Hk1. apply (wf_keys G1 HW).
    + apply Hi2, Hi1, (wf_inner G1 HW).
    + intros a b l0. rewrite !Hget.
      assert (Hsp : same_pair b a u v = same_pair a b u v).
      { unfold same_pair.
        destruct (a =? v), (b =? u), (a =? u), (b =? v); reflexivity. }
      rewrite Hsp. destruct (same_pair a b u v).
      * intros [= <-]. auto.
      * intros H. rewrite <- Hget0 in H |- *. apply (wf_sym G1 HW) in H.
        destruct H as [H H']. split; [assumption | lia].
  - intros a b. rewrite !has_edge_get2_eq. simpl. rewrite Hget.
    destruct (same_pair a b u v), (adj_get2 (g_adj G) a b); reflexivity.
  - simpl. intros P Hw HPd. apply HP; [assumption|]. now rewrite Hdata0.
Qed.

Lemma add_edge_spec_present (u v : Z) (w : option label) (G : Graph) :
  WF G -> In u (g_node G) -> In v (g_node G) ->
  exists G',
    add_edge u v w G = Ok G'
    /\ WF G'
    /\ g_node G' = g_node G
    /\ (forall a b, has_edge G' a b = has_edge G a b || same_pair a b u v)
    /\ (forall P : datadict -> Prop,
           P (mkData w) -> Forall P (g_data G) -> Forall P (g_data G')).
Proof.
  intros HW Hu Hv. destruct (add_edge_spec u v w G HW) as [G' [H1 [H2 [H3 H4]]]].
  destruct H4 as [H4 H5].
  exists G'. split; [assumption|]. split; [assumption|].
  split; [|split; assumption].
  rewrite H3, (add_node_present u G Hu). now rewrite add_node_present.
Qed.

(** A list of [add_edge] calls between present nodes never raises, keeps
    the node list, and links exactly the listed pairs in addition. *)
Lemma add_edges_spec (ps : list (Z * Z)) (G : Graph) :
  WF G ->
  Forall (fun p => In (fst p) (g_node G) /\ In (snd p) (g_node G)) ps ->
  exists G',
    add_edges ps G = Ok G'
    /\ WF G'
    /\ g_node G' = g_node G
    /\ (forall a b, has_edge G' a b
                    = has_edge G a b || existsb (fun p => same_pair a b (fst p) (snd p)) ps)
    /\ (forall P : datadict -> Prop,
           P (mkData None) -> Forall P (g_data G) -> Forall P (g_data G')).
Proof.
  revert G. induction ps as [|[u v] ps IH]; intros G HW Hps.
  - exists G. simpl. split; [reflexivity|]. split; [assumption|].
    split; [reflexivity|]. split; [|auto].
    intros a b. now rewrite orb_false_r.
  - inversion Hps as [|? ? [Hu Hv] Hps']; subst. simpl in Hu, Hv.
    destruct (add_edge_spec_present u v None G HW Hu Hv)
      as [G1 [E1 [HW1 [Hn1 [He1 Hd1]]]]].
    destruct (IH G1 HW1) as [G2 [E2 [HW2 [Hn2 [He2 Hd2]]]]].
    { now rewrite Hn1. }
    exists G2. unfold add_edges in *. simpl. rewrite E1. simpl.
    split; [assumption|]. split; [assumption|]. split; [congruence|]. split.
    + intros a b. rewrite He2, He1. simpl. now rewrite orb_assoc.
    + intros P HP HPd. apply Hd2; [assumption|]. now apply Hd1.
Qed.

(** ** [create_topology] as a list of [add_edge] calls *)

Lemma create_topology_pairs (n : Z) (kind : string) :
  create_topology n kind
  = add_edges (topology_pairs n kind) (add_nodes_from (range 1 (n + 1)) empty_graph).
Proof.
  unfold create_topology, topology_pairs, add_edges.
  set (G0 := add_nodes_from (range 1 (n + 1)) empty_graph).
  assert (Hstar : for_each (range 2 (n + 1)) (fun i G => add_edge 1 i None G) G0
                  = for_each (star_pairs n)
                      (fun p G => add_edge (fst p) (snd p) None G) G0).
  { unfold star_pairs. now rewrite for_each_map. }
  destruct (kind =? "Ring")%string.
  { unfold ring_pairs. rewrite for_each_map. simpl.
    apply for_each_ext_in. intros i G Hi. apply range_In in Hi.
    unfold py_mod. destruct (Z.eqb_spec n 0); [lia | reflexivity]. }
  destruct (kind =? "Mesh")%string.
  { unfold mesh_pairs. rewrite for_each_flat_map.
    apply for_each_ext_in. intros i G _. now rewrite for_each_map. }
  destruct (kind =? "Star")%string; [exact Hstar|].
  destruct (kind =? "PON")%string; [exact Hstar|].
  destruct (kind =? "WRPON")%string.
  { unfold wrpon_pairs, routers, terminals. rewrite for_each_app, for_each_map.
    simpl. destruct (for_each (range 2 (n / 2 + 2)) _ G0) as [G1|e]; simpl;
      [|reflexivity].
    rewrite for_each_flat_map.
    apply for_each_ext_in. intros i G _. now rewrite for_each_map. }
  destruct (kind =? "Broadcast Select PON")%string; [exact Hstar|].
  reflexivity.
Qed.

Lemma in_flat_map_pair (f : Z -> list Z) (xs : list Z) (a b : Z) :
  In (a, b) (flat_map (fun i => map (pair i) (f i)) xs) <-> In a xs /\ In b (f a).
Proof.
  rewrite in_flat_map. split.
  - intros [i [Hi H]]. apply in_map_iff in H. destruct H as [j [[= <- <-] Hj]].
    now split.
  - intros [Ha Hb]. exists a. split; [assumption|]. now apply in_map.
Qed.

Lemma ring_pairs_In (n a b : Z) :
  In (a, b) (ring_pairs n) <-> 1 <= a <= n /\ b = a mod n + 1.
Proof.
  unfold ring_pairs. rewrite in_map_iff. split.
  - intros [i [[= <- <-] Hi]]. apply range_In in Hi. split; [lia | reflexivity].
  - intros [Ha ->]. exists a. split; [reflexivity | apply range_In; lia].
Qed.

Lemma mesh_pairs_In (n a b : Z) :
  In (a, b) (mesh_pairs n) <-> 1 <= a /\ a < b /\ b <= n.
Proof.
  unfold mesh_pairs. rewrite in_flat_map_pair, !range_In. lia.
Qed.

Lemma star_pairs_In (n a b : Z) :
  In (a, b) (star_pairs n) <-> a = 1 /\ 2 <= b <= n.
Proof.
  unfold star_pairs. rewrite in_map_iff. split.
  - intros [i [[= <- <-] Hi]]. apply range_In in Hi. split; [reflexivity | lia].
  - intros [-> Hb]. exists b. split; [reflexivity | apply range_In; lia].
Qed.

Lemma wrpon_pairs_In (n a b : Z) :
  In (a, b) (wrpon_pairs n)
  <-> (a = 1 /\ In b (routers n)) \/ (In a (routers n) /\ In b (terminals n)).
Proof.
  unfold wrpon_pairs. rewrite in_app_iff, in_flat_map_pair, in_map_iff.
  split.
  - intros [[i [[= <- <-] Hi]]|H]; [left; now split | now right].
  - intros [[-> Hb]|H]; [left; now exists b | now right].
Qed.

Lemma routers_In (n x : Z) : In x (routers n) <-> 2 <= x <= n / 2 + 1.
Proof. unfold routers. rewrite range_In. lia. Qed.

Lemma terminals_In (n x : Z) : In x (terminals n) <-> n / 2 + 2 <= x <= n.
Proof. unfold terminals. rewrite range_In. lia. Qed.

Lemma topology_pairs_cases (n : Z) (kind : string) :
  topology_pairs n kind = ring_pairs n \/ topology_pairs n kind = mesh_pairs n
  \/ topology_pairs n kind = star_pairs n \/ topology_pairs n kind = wrpon_pairs n
  \/ topology_pairs n kind = [].
Proof.
  unfold topology_pairs.
  repeat match goal with
         | |- context [if ?c then _ else _] => destruct c; [tauto|]
         end.
  tauto.
Qed.

(** Every call of [add_edge] made by [create_topology] is between two of
    the nodes [1..n]. *)
Lemma topology_pairs_in_range (n : Z) (kind : string) (a b : Z) :
  In (a, b) (topology_pairs n kind) -> 1 <= a <= n /\ 1 <= b <= n.
Proof.
  destruct (topology_pairs_cases n kind) as [E|[E|[E|[E|E]]]]; rewrite E.
  - rewrite ring_pairs_In. intros [Ha ->].
    assert (0 <= a mod n < n) by (apply Z.mod_pos_bound; lia). lia.
  - rewrite mesh_pairs_In. lia.
  - rewrite star_pairs_In. lia.
  - rewrite wrpon_pairs_In, !routers_In, !terminals_In.
    intros H. Z.div_mod_to_equations. lia.
  - intros [].
Qed.

Lemma same_pair_existsb (ps : list (Z * Z)) (a b : Z) :
  existsb (fun p => same_pair a b (fst p) (snd p)) ps = true
  <-> In (a, b) ps \/ In (b, a) ps.
Proof.
  rewrite existsb_exists. unfold same_pair. split.
  - intros [[u v] [Hin H]]. simpl in H.
    apply orb_true_iff in H. rewrite !andb_true_iff, !Z.eqb_eq in H.
    destruct H as [[-> ->]|[-> ->]]; auto.
  - intros [H|H]; eexists; (split; [exact H|]); simpl;
      rewrite !Z.eqb_refl; simpl; auto using orb_true_r.
Qed.

Lemma edge_data_Forall (P : datadict -> Prop) (G : Graph) (u v : Z) :
  WF G -> Forall P (g_data G) -> has_edge G u v = true ->
  exists d, edge_data G u v = Ok d /\ P d.
Proof.
  intros HW HP H. apply has_edge_get2 in H. destruct H as [l Hl].
  destruct (wf_sym G HW u v l Hl) as [_ Hlt].
  unfold edge_data, dict_getitem. unfold adj_get2 in Hl.
  destruct (dict_get u (g_adj G)) as [nb|]; [|discriminate]. simpl.
  rewrite Hl. simpl.
  destruct (nth_error (g_data G) l) as [d|] eqn:Hd.
  - exists d. split; [reflexivity|].
    rewrite Forall_forall in HP. apply HP. eapply nth_error_In; eassumption.
  - apply nth_error_None in Hd. lia.
Qed.

(** What [create_topology] returns, for every node count and every string:
    it never raises, the nodes are [1..n] in order, the links are the
    pairs passed to [add_edge] (as unordered pairs, listed by [G.edges()]
    smaller endpoint first) and no wavelength is set. *)
Lemma create_topology_spec (n : Z) (kind : string) :
  exists G,
    create_topology n kind = Ok G
    /\ WF G
    /\ nodes G = range 1 (n + 1)
    /\ (forall u v, In (u, v) (edges G) <-> In (u, v) (map norm (topology_pairs n kind)))
    /\ (forall u v, In (u, v) (edges G) -> unset G u v).
Proof.
  rewrite create_topology_pairs, add_nodes_from_range.
  pose proof (isolated_nodes_WF (range 1 (n + 1)) (range_NoDup 1 (n + 1))) as HW0.
  destruct (add_edges_spec (topology_pairs n kind) _ HW0)
    as [G [E [HW [Hn [He Hd]]]]].
  { apply Forall_forall. intros [a b] Hp. simpl.
    apply topology_pairs_in_range in Hp. rewrite !range_In. lia. }
  simpl in Hn. exists G. split; [assumption|]. split; [assumption|].
  split; [assumption|].
  assert (Hedges : forall u v,
             In (u, v) (edges G) <-> In (u, v) (map norm (topology_pairs n kind))).
  { intros u v. rewrite (edges_spec G u v HW), norm_In, He.
    rewrite isolated_nodes_has_edge. simpl. rewrite same_pair_existsb, Hn.
    split.
    - intros [Hp Hi]. split; [|assumption].
      assert (1 <= u <= n /\ 1 <= v <= n) as [Hu Hv].
      { destruct Hp as [Hp|Hp]; apply topology_pairs_in_range in Hp; lia. }
      rewrite !idx_range in Hi by lia. lia.
    - intros [Hle Hp]. split; [assumption|].
      assert (1 <= u <= n /\ 1 <= v <= n) as [Hu Hv].
      { destruct Hp as [Hp|Hp]; apply topology_pairs_in_range in Hp; lia. }
      rewrite !idx_range by lia. lia. }
  split; [assumption|].
  intros u v Huv. apply (edges_spec G u v HW) in Huv. destruct Huv as [Huv _].
  destruct (edge_data_Forall (eq (mkData None)) G u v HW) as [d [Hd1 Hd2]];
    [|assumption|].
  - apply Hd; [reflexivity | constructor].
  - unfold unset. now rewrite Hd2.
Qed.

(** ** The pairs of each topology *)

Lemma map_norm_id (ps : list (Z * Z)) :
  (forall a b, In (a, b) ps -> a <= b) -> map norm ps = ps.
Proof.
  intros H. rewrite <- (map_id ps) at 2. apply map_ext_in. intros [a b] Hp.
  unfold norm. simpl. apply H in Hp. destruct (Z.leb_spec a b); [reflexivity | lia].
Qed.

Lemma NoDup_flat_map_pair (f : Z -> list Z) (xs : list Z) :
  NoDup xs -> (forall x, NoDup (f x)) ->
  NoDup (flat_map (fun i => map (pair i) (f i)) xs).
Proof.
  intros Hxs Hf. induction Hxs as [|x xs Hx Hxs IH]; simpl; [constructor|].
  apply NoDup_app; [|assumption|].
  - apply Injective_map_NoDup; [|apply Hf]. intros a b H. now inversion H.
  - intros [a b] Ha Hb. apply in_map_iff in Ha. destruct Ha as [j [[= <- <-] _]].
    apply in_flat_map_pair in Hb. tauto.
Qed.

Lemma star_pairs_norm (n : Z) : map norm (star_pairs n) = star_pairs n.
Proof. apply map_norm_id. intros a b. rewrite star_pairs_In. lia. Qed.

Lemma star_pairs_NoDup (n : Z) : NoDup (star_pairs n).
Proof.
  unfold star_pairs. apply Injective_map_NoDup; [|apply range_NoDup].
  intros a b H. now inversion H.
Qed.

Lemma star_pairs_length (n : Z) : List.length (star_pairs n) = Z.to_nat (n - 1).
Proof.
  unfold star_pairs. rewrite length_map, range_length. f_equal. lia.
Qed.

Lemma mesh_pairs_norm (n : Z) : map norm (mesh_pairs n) = mesh_pairs n.
Proof. apply map_norm_id. intros a b. rewrite mesh_pairs_In. lia. Qed.

Lemma mesh_pairs_NoDup (n : Z) : NoDup (mesh_pairs n).
Proof.
  unfold mesh_pairs. apply NoDup_flat_map_pair; [apply range_NoDup|].
  intros x. apply range_NoDup.
Qed.

Lemma mesh_rows_length (n lo : Z) :
  1 <= lo <= n + 1 ->
  2 * Z.of_nat (List.length
                  (flat_map (fun i => map (pair i) (range (i + 1) (n + 1)))
                     (range lo (n + 1))))
  = (n + 1 - lo) * (n - lo).
Proof.
  intros H. remember (Z.to_nat (n + 1 - lo)) as k eqn:Hk.
  revert lo H Hk. induction k as [|k IH]; intros lo H Hk.
  - rewrite range_nil by lia. simpl. nia.
  - rewrite range_cons by lia. cbn [flat_map].
    rewrite length_app, length_map, range_length, Nat2Z.inj_add.
    specialize (IH (lo + 1)). nia.
Qed.

Lemma mesh_pairs_length (n : Z) :
  1 <= n -> List.length (mesh_pairs n) = Z.to_nat (n * (n - 1) / 2).
Proof.
  intros H. pose proof (mesh_rows_length n 1) as Hl. unfold mesh_pairs.
  set (len := List.length _) in *.
  assert (Hz : Z.of_nat len = n * (n - 1) / 2).
  { apply Z.div_unique_exact; [lia|]. rewrite Hl by lia. ring. }
  lia.
Qed.

Lemma ring_succ (n a : Z) :
  1 <= a <= n -> a mod n + 1 = if a =? n then 1 else a + 1.
Proof.
  intros H. destruct (Z.eqb_spec a n) as [->|Hne].
  - now rewrite Z.mod_same by lia.
  - now rewrite Z.mod_small by lia.
Qed.

Lemma ring_pairs_norm_In (n a b : Z) :
  3 <= n ->
  In (a, b) (map norm (ring_pairs n))
  <-> (1 <= a /\ b = a + 1 /\ b <= n) \/ (a = 1 /\ b = n).
Proof.
  intros Hn. rewrite norm_In, !ring_pairs_In. split.
  - intros [Hle [[Ha Hb]|[Hb Ha]]].
    + rewrite ring_succ in Hb by assumption.
      destruct (Z.eqb_spec a n); lia.
    + rewrite ring_succ in Ha by assumption.
      destruct (Z.eqb_spec b n); lia.
  - intros [[Ha [-> Hb]]|[-> ->]].
    + split; [lia|]. left. split; [lia|]. rewrite ring_succ by lia.
      destruct (Z.eqb_spec a n); lia.
    + split; [lia|]. right. split; [lia|]. rewrite ring_succ by lia.
      now rewrite Z.eqb_refl.
Qed.

Lemma ring_pairs_NoDup (n : Z) : 3 <= n -> NoDup (map norm (ring_pairs n)).
Proof.
  intros Hn. unfold ring_pairs. rewrite map_map.
  apply Injective_map_NoDup_in; [|apply range_NoDup].
  intros x y Hx Hy. apply range_In in Hx, Hy.
  rewrite !ring_succ by lia. unfold norm. simpl.
  destruct (Z.eqb_spec x n), (Z.eqb_spec y n);
    repeat match goal with
           | |- context [?p <=? ?q] => destruct (Z.leb_spec p q)
           end; intros Heq; inversion Heq; lia.
Qed.

Lemma ring_pairs_length (n : Z) : List.length (ring_pairs n) = Z.to_nat n.
Proof.
  unfold ring_pairs. rewrite length_map, range_length. f_equal. lia.
Qed.

Lemma wrpon_pairs_norm (n : Z) : map norm (wrpon_pairs n) = wrpon_pairs n.
Proof.
  apply map_norm_id. intros a b.
  rewrite wrpon_pairs_In, !routers_In, !terminals_In. lia.
Qed.

Lemma wrpon_pairs_NoDup (n : Z) : NoDup (wrpon_pairs n).
Proof.
  unfold wrpon_pairs. apply NoDup_app.
  - apply Injective_map_NoDup; [|apply range_NoDup]. intros a b H. now inversion H.
  - apply NoDup_flat_map_pair; [apply range_NoDup|]. intros x. apply range_NoDup.
  - intros [a b] Ha Hb. apply in_map_iff in Ha. destruct Ha as [j [[= <- <-] _]].
    apply in_flat_map_pair in Hb. rewrite routers_In in Hb. lia.
Qed.

Lemma flat_map_pair_length (ys xs : list Z) :
  List.length (flat_map (fun i => map (pair i) ys) xs)
  = (List.length xs * List.length ys)%nat.
Proof.
  induction xs as [|x xs IH]; simpl; [reflexivity|].
  now rewrite length_app, length_map, IH.
Qed.

Lemma wrpon_pairs_length (n : Z) :
  List.length (wrpon_pairs n)
  = (List.length (routers n)
     + List.length (routers n) * List.length (terminals n))%nat.
Proof.
  unfold wrpon_pairs. now rewrite length_app, length_map, flat_map_pair_length.
Qed.

(** The number of links of a topology whose pairs are all different. *)
Lemma create_topology_length (n : Z) (kind : string) (G : Graph) :
  create_topology n kind = Ok G ->
  NoDup (map norm (topology_pairs n kind)) ->
  List.length (edges G) = List.length (topology_pairs n kind).
Proof.
  intros E Hnd. destruct (create_topology_spec n kind) as [G' [E' [HW [_ [He _]]]]].
  rewrite E in E'. inversion E'; subst G'.
  rewrite <- (length_map norm (topology_pairs n kind)).
  apply Permutation_length, NoDup_Permutation;
    [now apply edges_NoDup | assumption |].
  intros [a b]. apply He.
Qed.

(** ** [assign_wavelengths] *)

Lemma assign_wavelengths_unfold (G : Graph) (ws : list label) (r : rand) :
  assign_wavelengths G ws r = for_each (edges G) (assign_step ws) (G, r).
Proof.
  unfold assign_wavelengths. apply for_each_ext_in.
  intros [u v] [G' r'] _. reflexivity.
Qed.

Lemma random_choice_spec (ws : list label) (r : rand) :
  ws <> [] ->
  exists w, random_choice ws r = Ok (w, fun k => r (S k)) /\ In w ws.
Proof.
  intros H. destruct ws as [|w0 ws]; [congruence|]. unfold random_choice.
  eexists. split; [reflexivity|]. apply nth_In.
  apply Nat.mod_upper_bound. simpl. lia.
Qed.

Lemma WF_set_data (G : Graph) (d : list datadict) :
  WF G -> List.length d = List.length (g_data G) ->
  WF (mkGraph (g_node G) (g_adj G) d).
Proof.
  intros [Hnd Hk Hin Hsym] Hlen. split; simpl; try assumption.
  intros u v l H. rewrite Hlen. now apply Hsym.
Qed.

Lemma set_wavelength_spec (G : Graph) (u v : Z) (w : option label) :
  WF G -> has_edge G u v = true ->
  exists l,
    adj_get2 (g_adj G) u v = Some l
    /\ (l < List.length (g_data G))%nat
    /\ set_wavelength G u v w
       = Ok (mkGraph (g_node G) (g_adj G) (store_set l (mkData w) (g_data G))).
Proof.
  intros HW H. apply has_edge_get2 in H. destruct H as [l Hl]. exists l.
  split; [assumption|]. split; [now apply (wf_sym G HW u v)|].
  unfold set_wavelength, dict_getitem. unfold adj_get2 in Hl.
  destruct (dict_get u (g_adj G)) as [nb|]; [|discriminate]. simpl.
  now rewrite Hl.
Qed.

Lemma edge_data_get2 (G : Graph) (u v : Z) (l : loc) :
  adj_get2 (g_adj G) u v = Some l ->
  edge_data G u v
  = match nth_error (g_data G) l with Some d => Ok d | None => Raise KeyError end.
Proof.
  intros Hl. unfold edge_data, dict_getitem. unfold adj_get2 in Hl.
  destruct (dict_get u (g_adj G)) as [nb|]; [|discriminate]. simpl.
  now rewrite Hl.
Qed.

(** The loop of [assign_wavelengths] over any list of links of the graph:
    it never raises, touches only the store, and every location it
    visits ends with a label of [ws]. *)
Lemma assign_loop_spec (ws : list label) (es : list (Z * Z)) (G : Graph) (r : rand) :
  ws <> [] -> WF G ->
  (forall u v, In (u, v) es -> has_edge G u v = true) ->
  exists G' r',
    for_each es (assign_step ws) (G, r) = Ok (G', r')
    /\ g_node G' = g_node G
    /\ g_adj G' = g_adj G
    /\ List.length (g_data G') = List.length (g_data G)
    /\ (forall l, holds_label ws (nth_error (g_data G) l) ->
                  holds_label ws (nth_error (g_data G') l))
    /\ (forall u v l, In (u, v) es -> adj_get2 (g_adj G) u v = Some l ->
                      holds_label ws (nth_error (g_data G') l)).
Proof.
  intros Hws. revert G r. induction es as [|[u v] es IH]; intros G r HW Hes.
  - exists G, r. simpl. repeat split; auto. intros u v l [].
  - cbn [for_each assign_step].
    destruct (random_choice_spec ws r Hws) as [w [-> Hw]]. cbn [bind].
    destruct (set_wavelength_spec G u v (Some w) HW) as [l [Hl [Hlt ->]]].
    { apply Hes. now left. }
    cbn [bind].
    set (G1 := mkGraph (g_node G) (g_adj G) (store_set l (mkData (Some w)) (g_data G))).
    assert (HW1 : WF G1) by (apply WF_set_data; [assumption | apply store_set_length]).
    destruct (IH G1 (fun k => r (S k)) HW1) as [G' [r' [E [Hn [Ha [Hlen [Hmono Hvis]]]]]]].
    { intros a b Hab. rewrite has_edge_get2_eq. simpl.
      rewrite <- has_edge_get2_eq. apply Hes. now right. }
    assert (Hstep : forall l0, holds_label ws (nth_error (g_data G) l0) ->
                               holds_label ws (nth_error (g_data G1) l0)).
    { intros l0 H0. simpl. rewrite store_set_nth by assumption.
      destruct (l0 =? l)%nat; [now exists w | assumption]. }
    exists G', r'. split; [assumption|]. split; [assumption|]. split; [assumption|].
    split; [|split].
    + rewrite Hlen. simpl. apply store_set_length.
    + intros l0 H0. now apply Hmono, Hstep.
    + intros a b l0 [[= <- <-]|Hab] Hl0.
      * rewrite Hl in Hl0. inversion Hl0; subst l0. apply Hmono. simpl.
        rewrite store_set_nth by assumption. rewrite Nat.eqb_refl. now exists w.
      * eapply Hvis; eassumption.
Qed.

Lemma assign_wavelengths_spec (ws : list label) (G : Graph) (r : rand) :
  ws <> [] -> WF G ->
  exists G' r',
    assign_wavelengths G ws r = Ok (G', r')
    /\ WF G'
    /\ g_node G' = g_node G
    /\ g_adj G' = g_adj G
    /\ (forall u v, In (u, v) (edges G') -> labelled ws G' u v).
Proof.
  intros Hws HW. rewrite assign_wavelengths_unfold.
  destruct (assign_loop_spec ws (edges G) G r Hws HW)
    as [G' [r' [E [Hn [Ha [Hlen [_ Hvis]]]]]]].
  { intros u v H. now apply (edges_spec G u v HW) in H. }
  assert (HW' : WF G').
  { replace G' with (mkGraph (g_node G) (g_adj G) (g_data G')).
    - now apply WF_set_data.
    - rewrite <- Hn, <- Ha. now destruct G'. }
  exists G', r'. split; [assumption|]. split; [assumption|].
  split; [assumption|]. split; [assumption|].
  intros u v Huv. unfold edges in Huv. rewrite Ha in Huv. fold (edges G) in Huv.
  pose proof Huv as He. apply (edges_spec G u v HW) in He. destruct He as [He _].
  apply has_edge_get2 in He. destruct He as [l Hl].
  destruct (Hvis u v l Huv Hl) as [w [Hw Hd]]. exists w. split; [assumption|].
  rewrite (edge_data_get2 G' u v l), (edge_data_get2 G' v u l), Hd.
  - now split.
  - rewrite Ha. now apply (wf_sym G HW).
  - now rewrite Ha.
Qed.

(** ** [remove_node] and [simulate_node_failure] *)

Lemma keys_map_snd {A B : Type} (f : Z * A -> B) (d : dict A) :
  keys (map (fun e => (fst e, f e)) d) = keys d.
Proof.
  unfold keys. rewrite map_map. reflexivity.
Qed.

Lemma dict_get_map_snd {A B : Type} (f : Z * A -> B) (d : dict A) (k : Z) :
  dict_get k (map (fun e => (fst e, f e)) d)
  = match dict_get k d with Some a => Some (f (k, a)) | None => None end.
Proof.
  induction d as [|[k' a] d IH]; simpl; [reflexivity|].
  destruct (Z.eqb_spec k k') as [->|Hne]; [reflexivity | assumption].
Qed.

Lemma adj_strip_step (v u : Z) (nbu : dict loc) (done : list Z) (adj : dict (dict loc)) :
  NoDup (keys adj) -> dict_get u adj = Some nbu -> ~ In u done ->
  dict_set u (dict_remove v nbu) (adj_strip v done adj) = adj_strip v (done ++ [u]) adj.
Proof.
  intros Hnd Hu Hdone. unfold adj_strip.
  induction adj as [|[k d] adj IH]; simpl in *; [discriminate|].
  inversion Hnd as [|? ? Hk Hadj]; subst.
  assert (Hmem : forall x, x <> u -> memZ x (done ++ [u]) = memZ x done).
  { intros x Hx. unfold memZ. rewrite existsb_app. simpl.
    destruct (Z.eqb_spec x u); [congruence|]. now rewrite !orb_false_r. }
  destruct (Z.eqb_spec u k) as [->|Hne].
  - inversion Hu; subst d. f_equal.
    + f_equal. replace (memZ k (done ++ [k])) with true; [reflexivity|].
      symmetry. apply memZ_In, in_or_app. right. now left.
    + apply map_ext_in. intros [k' d'] Hin. simpl. rewrite Hmem; [reflexivity|].
      intros ->. apply Hk. change k with (fst (k, d')). now apply in_map.
  - f_equal.
    + now rewrite Hmem by congruence.
    + now apply IH.
Qed.

Lemma remove_loop_spec (v : Z) (adj : dict (dict loc)) (ks done : list Z) :
  NoDup (keys adj) -> NoDup ks ->
  (forall u, In u ks -> ~ In u done) ->
  (forall u, In u ks -> exists nbu, dict_get u adj = Some nbu /\ In v (keys nbu)) ->
  for_each ks
    (fun u adj =>
       nbu <- dict_getitem u adj ;;
       nbu' <- dict_del v nbu ;;
       Ok (dict_set u nbu' adj))
    (adj_strip v done adj)
  = Ok (adj_strip v (done ++ ks) adj).
Proof.
  intros Hnd. revert done. induction ks as [|u ks IH]; intros done Hks Hdone Hall.
  - simpl. now rewrite app_nil_r.
  - inversion Hks as [|? ? Hu Hks']; subst. cbn [for_each].
    destruct (Hall u (or_introl eq_refl)) as [nbu [Hget Hv]].
    assert (Hud : ~ In u done) by (apply Hdone; now left).
    unfold dict_getitem at 1. unfold adj_strip at 1.
    rewrite dict_get_map_snd, Hget. cbn [bind fst snd].
    apply memZ_not_In in Hud. rewrite Hud. apply memZ_not_In in Hud.
    unfold dict_del. apply dict_mem_In in Hv. rewrite Hv. cbn [bind].
    rewrite (adj_strip_step v u nbu done adj Hnd Hget Hud).
    rewrite IH; try assumption.
    + now rewrite <- app_assoc.
    + intros x Hx Hin. apply in_app_or in Hin. destruct Hin as [Hin|[<-|[]]].
      * apply (Hdone x); [now right | assumption].
      * contradiction.
    + intros x Hx. apply Hall. now right.
Qed.

Lemma adj_strip_all (G : Graph) (v : Z) (nb : dict loc) :
  WF G -> dict_get v (g_adj G) = Some nb ->
  adj_strip v (keys nb) (g_adj G)
  = map (fun e => (fst e, dict_remove v (snd e))) (g_adj G).
Proof.
  intros HW Hv. unfold adj_strip. apply map_ext_in. intros [u d] Hin. simpl.
  destruct (memZ u (keys nb)) eqn:Hu; [reflexivity|].
  f_equal. symmetry. apply dict_remove_absent. intros Hvd.
  apply memZ_not_In in Hu. apply Hu.
  apply In_dict_get in Hin.
  2:{ rewrite (wf_keys G HW). apply (wf_nodup G HW). }
  apply dict_mem_In in Hvd. unfold dict_mem in Hvd.
  destruct (dict_get v d) as [l|] eqn:Hl; [|discriminate].
  destruct (wf_sym G HW u v l) as [Hsym _].
  { unfold adj_get2. now rewrite Hin. }
  unfold adj_get2 in Hsym. rewrite Hv in Hsym.
  eapply dict_get_Some_key; eassumption.
Qed.

Lemma remove_node_spec (G : Graph) (v : Z) :
  WF G -> In v (g_node G) ->
  remove_node v G
  = Ok (mkGraph (filter (fun m => negb (m =? v)) (g_node G))
          (adj_without v (g_adj G)) (g_data G)).
Proof.
  intros HW Hv. unfold remove_node.
  assert (Hnd : NoDup (keys (g_adj G))).
  { rewrite (wf_keys G HW). apply (wf_nodup G HW). }
  destruct (dict_get v (g_adj G)) as [nb|] eqn:Hnb.
  2:{ apply dict_get_None in Hnb. rewrite (wf_keys G HW) in Hnb. contradiction. }
  unfold node_del. apply memZ_In in Hv. rewrite Hv.
  assert (Hstrip0 : adj_strip v [] (g_adj G) = g_adj G).
  { unfold adj_strip. rewrite <- (map_id (g_adj G)) at 2. apply map_ext.
    now intros [u d]. }
  rewrite <- Hstrip0 at 1.
  rewrite (remove_loop_spec v (g_adj G) (keys nb) []); try assumption.
  - cbn [bind app]. rewrite (adj_strip_all G v nb HW Hnb).
    unfold dict_del.
    replace (dict_mem v _) with true; [reflexivity|].
    symmetry. apply dict_mem_In. rewrite keys_map_snd.
    eapply dict_get_Some_key; eassumption.
  - apply (wf_inner G HW v nb Hnb).
  - intros u _ [].
  - intros u Hu. apply dict_mem_In in Hu. unfold dict_mem in Hu.
    destruct (dict_get u nb) as [l|] eqn:Hl; [|discriminate].
    destruct (wf_sym G HW v u l) as [Hsym _].
    { unfold adj_get2. now rewrite Hnb. }
    unfold adj_get2 in Hsym.
    destruct (dict_get u (g_adj G)) as [nbu|]; [|discriminate].
    exists nbu. split; [reflexivity|]. eapply dict_get_Some_key; eassumption.
Qed.

Lemma adj_without_keys (v : Z) (adj : dict (dict loc)) :
  NoDup (keys adj) ->
  keys (adj_without v adj) = filter (fun m => negb (m =? v)) (keys adj).
Proof.
  intros Hnd. unfold adj_without.
  rewrite keys_dict_remove by now rewrite keys_map_snd.
  now rewrite keys_map_snd.
Qed.

Lemma adj_without_get (v : Z) (adj : dict (dict loc)) (a : Z) :
  NoDup (keys adj) ->
  dict_get a (adj_without v adj)
  = if a =? v then None
    else match dict_get a adj with
         | Some nb => Some (dict_remove v nb)
         | None => None
         end.
Proof.
  intros Hnd. unfold adj_without.
  rewrite dict_get_remove by now rewrite keys_map_snd.
  now rewrite dict_get_map_snd.
Qed.

Lemma adj_without_get2 (G : Graph) (v a b : Z) :
  WF G ->
  adj_get2 (adj_without v (g_adj G)) a b
  = if (a =? v) || (b =? v) then None else adj_get2 (g_adj G) a b.
Proof.
  intros HW. unfold adj_get2. rewrite adj_without_get.
  2:{ rewrite (wf_keys G HW). apply (wf_nodup G HW). }
  destruct (a =? v); [reflexivity|]. simpl.
  destruct (dict_get a (g_adj G)) as [nb|] eqn:Ha.
  - rewrite dict_get_remove by (eapply (wf_inner G HW); eassumption).
    reflexivity.
  - now destruct (b =? v).
Qed.

Lemma remove_node_WF (G : Graph) (v : Z) :
  WF G ->
  WF (mkGraph (filter (fun m => negb (m =? v)) (g_node G))
        (adj_without v (g_adj G)) (g_data G)).
Proof.
  intros HW.
  assert (Hnd : NoDup (keys (g_adj G))).
  { rewrite (wf_keys G HW). apply (wf_nodup G HW). }
  split; simpl.
  - apply NoDup_filter, (wf_nodup G HW).
  - rewrite adj_without_keys by assumption. now rewrite (wf_keys G HW).
  - intros u nb. rewrite adj_without_get by assumption.
    destruct (u =? v); [discriminate|].
    destruct (dict_get u (g_adj G)) as [nb0|] eqn:Hu; [|discriminate].
    intros [= <-]. rewrite keys_dict_remove by (eapply (wf_inner G HW); eassumption).
    apply NoDup_filter. eapply (wf_inner G HW); eassumption.
  - intros a b l. rewrite !(adj_without_get2 G) by assumption.
    rewrite (orb_comm (b =? v)).
    destruct ((a =? v) || (b =? v)); [discriminate|]. apply (wf_sym G HW).
Qed.

Lemma filter_unseen_without (v : Z) (seen seen' ks : list Z) :
  (forall x, x <> v -> memZ x seen' = memZ x seen) ->
  filter (fun nbr => negb (memZ nbr seen')) (filter (fun m => negb (m =? v)) ks)
  = filter (fun m => negb (m =? v)) (filter (fun nbr => negb (memZ nbr seen)) ks).
Proof.
  intros Hs. induction ks as [|k ks IH]; simpl; [reflexivity|].
  destruct (Z.eqb_spec k v) as [->|Hne]; simpl.
  - destruct (memZ v seen); simpl; [assumption|].
    rewrite Z.eqb_refl. simpl. assumption.
  - rewrite (Hs k Hne). destruct (memZ k seen); simpl; [assumption|].
    destruct (Z.eqb_spec k v); [congruence|]. simpl. now f_equal.
Qed.

Lemma filter_avoids_row (v n : Z) (ks : list Z) :
  filter (avoids v) (map (pair n) ks)
  = if n =? v then [] else map (pair n) (filter (fun m => negb (m =? v)) ks).
Proof.
  unfold avoids. induction ks as [|k ks IH]; simpl.
  - now destruct (n =? v).
  - rewrite IH. destruct (n =? v); simpl; [reflexivity|].
    now destruct (k =? v).
Qed.

Lemma edges_from_without (v : Z) (seen seen' : list Z) (adj : dict (dict loc)) :
  NoDup (keys adj) ->
  (forall u nb, In (u, nb) adj -> NoDup (keys nb)) ->
  (forall x, x <> v -> memZ x seen' = memZ x seen) ->
  edges_from seen' (adj_without v adj) = filter (avoids v) (edges_from seen adj).
Proof.
  unfold adj_without. revert seen seen'.
  induction adj as [|[n nbrs] rest IH]; intros seen seen' Hnd Hin Hs;
    [reflexivity|].
  inversion Hnd as [|? ? Hn Hrest]; subst.
  assert (Hin' : forall u nb, In (u, nb) rest -> NoDup (keys nb)).
  { intros u nb H. apply (Hin u). now right. }
  cbn [map fst snd dict_remove edges_from].
  rewrite filter_app, filter_avoids_row.
  destruct (Z.eqb_spec v n) as [->|Hne].
  - rewrite Z.eqb_refl. cbn [app].
    rewrite <- (IH (n :: seen) seen' Hrest Hin').
    + f_equal. symmetry. apply dict_remove_absent. now rewrite keys_map_snd.
    + intros x Hx. rewrite (Hs x Hx). simpl.
      destruct (Z.eqb_spec x n); [congruence | reflexivity].
  - destruct (Z.eqb_spec n v); [congruence|]. cbn [edges_from].
    rewrite keys_dict_remove by (apply (Hin n); now left).
    rewrite (filter_unseen_without v seen seen') by assumption.
    f_equal. apply IH; try assumption.
    intros x Hx. simpl. now rewrite (Hs x Hx).
Qed.

Lemma remove_node_edges (G : Graph) (v : Z) :
  WF G ->
  edges (mkGraph (filter (fun m => negb (m =? v)) (g_node G))
           (adj_without v (g_adj G)) (g_data G))
  = filter (avoids v) (edges G).
Proof.
  intros HW. unfold edges. simpl. apply edges_from_without.
  - rewrite (wf_keys G HW). apply (wf_nodup G HW).
  - intros u nb H. apply (wf_inner G HW u). apply In_dict_get; [|assumption].
    rewrite (wf_keys G HW). apply (wf_nodup G HW).
  - reflexivity.
Qed.

Lemma filter_out_length (v : Z) (xs : list Z) :
  NoDup xs -> In v xs ->
  S (List.length (filter (fun m => negb (m =? v)) xs)) = List.length xs.
Proof.
  induction xs as [|x xs IH]; simpl; [tauto|].
  intros Hnd Hv. inversion Hnd as [|? ? Hx Hxs]; subst.
  destruct (Z.eqb_spec x v) as [->|Hne]; simpl.
  - f_equal. f_equal. apply forallb_filter_id, forallb_forall.
    intros y Hy. apply negb_true_iff, Z.eqb_neq. intros ->. contradiction.
  - f_equal. apply IH; [assumption|]. destruct Hv; [congruence | assumption].
Qed.

Lemma filter_out_absent (v : Z) (xs : list Z) :
  ~ In v xs -> filter (fun m => negb (m =? v)) xs = xs.
Proof.
  intros H. apply forallb_filter_id, forallb_forall.
  intros y Hy. apply negb_true_iff, Z.eqb_neq. intros ->. contradiction.
Qed.

(** What [simulate_node_failure] returns on a graph of networkx: the node
    and the links that touch it are gone, the rest is as it was, in the
    same order, and the data dicts are untouched. *)
Lemma simulate_node_failure_spec (G : Graph) (v : Z) :
  WF G ->
  exists G',
    simulate_node_failure G v = Ok G'
    /\ WF G'
    /\ nodes G' = filter (fun m => negb (m =? v)) (nodes G)
    /\ edges G' = filter (avoids v) (edges G)
    /\ g_data G' = g_data G
    /\ (forall a b, a <> v -> b <> v ->
                    adj_get2 (g_adj G') a b = adj_get2 (g_adj G) a b)
    /\ (has_node v G = false -> G' = G).
Proof.
  intros HW. unfold simulate_node_failure, has_node.
  destruct (memZ v (g_node G)) eqn:Hv.
  - apply memZ_In in Hv. rewrite (remove_node_spec G v HW Hv).
    eexists. split; [reflexivity|]. split; [now apply remove_node_WF|].
    split; [reflexivity|]. split; [now apply remove_node_edges|].
    split; [reflexivity|]. split; [|discriminate].
    intros a b Ha Hb. simpl. rewrite (adj_without_get2 G) by assumption.
    destruct (Z.eqb_spec a v), (Z.eqb_spec b v); simpl; congruence.
  - apply memZ_not_In in Hv. exists G. split; [reflexivity|].
    split; [assumption|]. unfold nodes.
    split; [symmetry; now apply filter_out_absent|]. split.
    + symmetry. apply forallb_filter_id, forallb_forall. intros [a b] Hab.
      apply (WF_links_in_nodes G HW) in Hab. unfold avoids, nodes in *. simpl.
      destruct Hab as [Ha Hb].
      destruct (Z.eqb_spec a v), (Z.eqb_spec b v); subst; simpl; tauto.
    + repeat split; auto.
Qed.

(** ** Unrecognised kinds and node counts below one *)

Lemma known_kind_In (kind : string) : known_kind kind = true <-> In kind kinds.
Proof.
  unfold known_kind. rewrite existsb_exists. split.
  - intros [s [Hs Heq]]. apply String.eqb_eq in Heq. now subst.
  - intros H. exists kind. split; [assumption | apply String.eqb_refl].
Qed.

Lemma topology_pairs_unknown (n : Z) (kind : string) :
  known_kind kind = false -> topology_pairs n kind = [].
Proof.
  intros H. unfold topology_pairs.
  repeat match goal with
         | |- context [String.eqb kind ?s] =>
             destruct (String.eqb_spec kind s) as [->|_]; [discriminate H|]
         end.
  reflexivity.
Qed.

Lemma topology_pairs_below_one (n : Z) (kind : string) :
  n < 1 -> topology_pairs n kind = [].
Proof.
  intros H.
  assert (Hr : range 1 (n + 1) = []) by (apply range_nil; lia).
  assert (Hs : range 2 (n + 1) = []) by (apply range_nil; lia).
  assert (Hw : routers n = []).
  { unfold routers. apply range_nil. Z.div_mod_to_equations. lia. }
  destruct (topology_pairs_cases n kind) as [E|[E|[E|[E|E]]]]; rewrite E.
  - unfold ring_pairs. now rewrite Hr.
  - unfold mesh_pairs. now rewrite Hr.
  - unfold star_pairs. now rewrite Hs.
  - unfold wrpon_pairs. now rewrite Hw.
  - reflexivity.
Qed.

Lemma edges_nil (G : Graph) :
  (forall u v, ~ In (u, v) (edges G)) -> edges G = [].
Proof.
  intros H. destruct (edges G) as [|[u v] es]; [reflexivity|].
  exfalso. apply (H u v). now left.
Qed.

(** ** The five wirings *)

Lemma create_topology_edges (n : Z) (kind : string) (G : Graph) :
  create_topology n kind = Ok G ->
  WF G
  /\ nodes G = range 1 (n + 1)
  /\ (forall u v, In (u, v) (edges G) <-> In (u, v) (map norm (topology_pairs n kind)))
  /\ (forall u v, In (u, v) (edges G) -> unset G u v).
Proof.
  intros E. destruct (create_topology_spec n kind) as [G' [E' H]].
  rewrite E in E'. inversion E'; subst G'. exact H.
Qed.

Lemma mesh_topology (n : Z) (G : Graph) :
  1 <= n -> create_topology n "Mesh" = Ok G ->
  List.length (edges G) = Z.to_nat (n * (n - 1) / 2)
  /\ (forall i j, In (i, j) (edges G) <-> 1 <= i /\ i < j /\ j <= n).
Proof.
  intros Hn E. destruct (create_topology_edges n "Mesh" G E) as [_ [_ [He _]]].
  change (topology_pairs n "Mesh") with (mesh_pairs n) in He.
  rewrite mesh_pairs_norm in He. split.
  - rewrite (create_topology_length n "Mesh" G E).
    + now apply mesh_pairs_length.
    + change (topology_pairs n "Mesh") with (mesh_pairs n).
      rewrite mesh_pairs_norm. apply mesh_pairs_NoDup.
  - intros i j. now rewrite He, mesh_pairs_In.
Qed.

Lemma star_topology (n : Z) (kind : string) (G : Graph) :
  topology_pairs n kind = star_pairs n ->
  create_topology n kind = Ok G ->
  List.length (edges G) = Z.to_nat (n - 1)
  /\ (forall u v, In (u, v) (edges G) <-> u = 1 /\ 2 <= v <= n).
Proof.
  intros Hk E. destruct (create_topology_edges n kind G E) as [_ [_ [He _]]].
  split.
  - rewrite (create_topology_length n kind G E); rewrite Hk.
    + apply star_pairs_length.
    + rewrite star_pairs_norm. apply star_pairs_NoDup.
  - intros u v. now rewrite He, Hk, star_pairs_norm, star_pairs_In.
Qed.

Lemma combine_range_next (lo hi x : Z) :
  lo <= hi ->
  combine (range lo (hi + 1)) (range (lo + 1) (hi + 1) ++ [x])
  = map (fun i => (i, if i =? hi then x else i + 1)) (range lo (hi + 1)).
Proof.
  intros H. remember (Z.to_nat (hi - lo)) as k eqn:Hk.
  revert lo H Hk. induction k as [|k IH]; intros lo H Hk.
  - replace hi with lo by lia. rewrite (range_cons lo (lo + 1)) by lia.
    rewrite (range_nil (lo + 1) (lo + 1)) by lia. simpl.
    now rewrite Z.eqb_refl.
  - assert (IH' := IH (lo + 1) ltac:(lia) ltac:(lia)).
    rewrite (range_cons lo (hi + 1)) by lia. cbn [map]. rewrite <- IH'.
    destruct (Z.eqb_spec lo hi); [lia|].
    rewrite (range_cons (lo + 1) (hi + 1)) by lia. reflexivity.
Qed.

Lemma cycle_links_range (n : Z) : 1 <= n -> cycle_links (range 1 (n + 1)) = ring_pairs n.
Proof.
  intros H. unfold cycle_links, ring_pairs.
  assert (Ht : tl (range 1 (n + 1)) = range (1 + 1) (n + 1))
    by (rewrite range_cons by lia; reflexivity).
  assert (Hf : firstn 1 (range 1 (n + 1)) = [1])
    by (rewrite range_cons by lia; reflexivity).
  rewrite Ht, Hf, combine_range_next by lia.
  apply map_ext_in. intros i Hi. apply range_In in Hi.
  now rewrite ring_succ by lia.
Qed.

Lemma topology_edges_perm (n : Z) (kind : string) (G : Graph) :
  create_topology n kind = Ok G ->
  NoDup (map norm (topology_pairs n kind)) ->
  map norm (edges G) = edges G
  /\ Permutation (map norm (topology_pairs n kind)) (edges G).
Proof.
  intros E Hnd. destruct (create_topology_edges n kind G E) as [HW [_ [He _]]].
  split.
  - apply map_norm_id. intros a b H. apply He, norm_In in H. tauto.
  - apply NoDup_Permutation; [assumption | now apply edges_NoDup |].
    intros [a b]. symmetry. apply He.
Qed.

Lemma ring_topology (n : Z) (G : Graph) :
  3 <= n -> create_topology n "Ring" = Ok G ->
  List.length (edges G) = Z.to_nat n
  /\ single_cycle G
  /\ (forall u v, In (u, v) (edges G)
                  <-> (1 <= u /\ v = u + 1 /\ v <= n) \/ (u = 1 /\ v = n)).
Proof.
  intros Hn E. destruct (create_topology_edges n "Ring" G E) as [HW [Hnodes [He _]]].
  change (topology_pairs n "Ring") with (ring_pairs n) in He.
  pose proof (ring_pairs_NoDup n Hn) as Hnd.
  destruct (topology_edges_perm n "Ring" G E Hnd) as [Hid Hperm].
  change (topology_pairs n "Ring") with (ring_pairs n) in Hperm.
  split; [|split].
  - rewrite (create_topology_length n "Ring" G E Hnd). apply ring_pairs_length.
  - exists (range 1 (n + 1)). rewrite Hnodes. split; [apply Permutation_refl|].
    split; [apply range_NoDup|]. split; [rewrite range_length; lia|].
    rewrite cycle_links_range by lia. now rewrite Hid.
  - intros u v. now rewrite He, ring_pairs_norm_In.
Qed.

Lemma wrpon_topology (n : Z) (G : Graph) :
  create_topology n "WRPON" = Ok G ->
  List.length (edges G)
  = (List.length (routers n) + List.length (routers n) * List.length (terminals n))%nat
  /\ (forall u v, In (u, v) (edges G)
                  <-> (u = 1 /\ In v (routers n))
                      \/ (In u (routers n) /\ In v (terminals n))).
Proof.
  intros E. destruct (create_topology_edges n "WRPON" G E) as [_ [_ [He _]]].
  change (topology_pairs n "WRPON") with (wrpon_pairs n) in He.
  rewrite wrpon_pairs_norm in He. split.
  - rewrite (create_topology_length n "WRPON" G E).
    + apply wrpon_pairs_length.
    + change (topology_pairs n "WRPON") with (wrpon_pairs n).
      rewrite wrpon_pairs_norm. apply wrpon_pairs_NoDup.
  - intros u v. now rewrite He, wrpon_pairs_In.
Qed.

Lemma known_kind_pairs (n : Z) (kind : string) :
  known_kind kind = true ->
  topology_pairs n kind = ring_pairs n \/ topology_pairs n kind = mesh_pairs n
  \/ topology_pairs n kind = star_pairs n \/ topology_pairs n kind = wrpon_pairs n.
Proof.
  rewrite known_kind_In. unfold kinds. simpl.
  intros [<-|[<-|[<-|[<-|[<-|[<-|[]]]]]]]; auto.
Qed.

(** For three nodes or more no pair is a self-loop and no two calls of
    [add_edge] name the same unordered pair. *)
Lemma topology_pairs_simple (n : Z) (kind : string) :
  3 <= n -> known_kind kind = true ->
  NoDup (map norm (topology_pairs n kind))
  /\ (forall u v, In (u, v) (map norm (topology_pairs n kind)) -> u <> v).
Proof.
  intros Hn Hk.
  destruct (known_kind_pairs n kind Hk) as [E|[E|[E|E]]]; rewrite E.
  - split; [now apply ring_pairs_NoDup|]. intros u v.
    rewrite ring_pairs_norm_In by assumption. lia.
  - rewrite mesh_pairs_norm. split; [apply mesh_pairs_NoDup|]. intros u v.
    rewrite mesh_pairs_In. lia.
  - rewrite star_pairs_norm. split; [apply star_pairs_NoDup|]. intros u v.
    rewrite star_pairs_In. lia.
  - rewrite wrpon_pairs_norm. split; [apply wrpon_pairs_NoDup|]. intros u v.
    rewrite wrpon_pairs_In, !routers_In, !terminals_In. lia.
Qed.

(** ** Data dicts of unrelated links *)

Lemma edge_data_congr (G G' : Graph) (a b : Z) :
  adj_get2 (g_adj G') a b = adj_get2 (g_adj G) a b ->
  g_data G' = g_data G ->
  edge_data G' a b = edge_data G a b.
Proof.
  intros Ha Hd. unfold edge_data, dict_getitem, adj_get2 in *. rewrite Hd.
  destruct (dict_get a (g_adj G')) as [nb'|], (dict_get a (g_adj G)) as [nb|];
    simpl; try rewrite Ha; try rewrite <- Ha; try reflexivity.
Qed.

Lemma nonempty_length {A : Type} (xs : list A) : (1 <= List.length xs)%nat -> xs <> [].
Proof. intros H ->. simpl in H. lia. Qed.

(** ** [hops * 0.5] in binary64 *)

Lemma digits2_iter_xO (p k : positive) :
  digits2_pos (Pos.iter xO p k) = (digits2_pos p + k)%positive.
Proof.
  induction k as [|k IH] using Pos.peano_ind.
  - simpl. lia.
  - rewrite Pos.iter_succ. simpl. rewrite IH. lia.
Qed.

Lemma digits2_lower (p : positive) : 2 ^ (Z.pos (digits2_pos p) - 1) <= Z.pos p.
Proof.
  induction p as [p IH|p IH|]; simpl digits2_pos; try reflexivity;
    rewrite Pos2Z.inj_succ;
    replace (Z.succ (Z.pos (digits2_pos p)) - 1)
      with (Z.succ (Z.pos (digits2_pos p) - 1)) by lia;
    rewrite Z.pow_succ_r by lia; lia.
Qed.

Lemma iter_xO_pow (p k : positive) : Z.pos (Pos.iter xO p k) = Z.pos p * 2 ^ Z.pos k.
Proof.
  induction k as [|k IH] using Pos.peano_ind.
  - simpl. lia.
  - rewrite Pos.iter_succ, Pos2Z.inj_xO, IH, Pos2Z.inj_succ, Z.pow_succ_r by lia.
    ring.
Qed.

Lemma fexp_53 (e : Z) : -1074 <= e -> fexp 53 1024 (53 + e) = e.
Proof. intros H. unfold fexp, emin. lia. Qed.

Lemma fexp_105 (e : Z) : -1074 <= e + 52 -> fexp 53 1024 (105 + e) - e = 52.
Proof. intros H. unfold fexp, emin. lia. Qed.

Lemma shr_fexp_full_mantissa (m : positive) (e : Z) :
  digits2_pos m = 53%positive -> -1074 <= e ->
  shr_fexp 53 1024 (Z.pos m) e loc_Exact
  = ({| shr_m := Z.pos m; shr_r := false; shr_s := false |}, e).
Proof.
  intros Hd He. unfold shr_fexp. cbn [Zdigits2 shr_record_of_loc].
  rewrite Hd, fexp_53, Z.sub_diag by assumption. reflexivity.
Qed.

(** A 53-bit mantissa with an exponent in range is not rounded. *)
Lemma binary_round_aux_full_mantissa (s : bool) (m : positive) (e : Z) :
  digits2_pos m = 53%positive -> -1074 <= e <= 971 ->
  binary_round_aux 53 1024 s (Z.pos m) e loc_Exact = S754_finite s m e.
Proof.
  intros Hd He. unfold binary_round_aux.
  rewrite shr_fexp_full_mantissa by (assumption || lia).
  cbn [shr_m loc_of_shr_record round_nearest_even].
  rewrite shr_fexp_full_mantissa by (assumption || lia).
  cbn [shr_m]. change (1024 - 53) with 971.
  destruct (Z.leb_spec e 971); [reflexivity | lia].
Qed.

(** The product by [0.5] lowers the exponent by one. *)
Lemma SFmul_half (s : bool) (m : positive) (e : Z) :
  digits2_pos m = 53%positive -> -1073 <= e <= 972 ->
  b64_mul (S754_finite s m e) b64_half = S754_finite s m (e - 1).
Proof.
  intros Hd He. unfold b64_mul, b64_half. cbn [SFmul]. rewrite xorb_false_r.
  rewrite Pos.mul_comm. cbn [Pos.mul].
  unfold binary_round_aux at 1. unfold shr_fexp at 1.
  cbn [Zdigits2 digits2_pos shr_record_of_loc]. rewrite Hd.
  change (Z.pos (Pos.succ _)) with 105.
  rewrite fexp_105 by lia. unfold shr. cbn [iter_pos shr_1 orb].
  cbn [shr_m loc_of_shr_record round_nearest_even].
  replace (e + -53 + 52) with (e - 1) by lia.
  rewrite shr_fexp_full_mantissa by (assumption || lia).
  cbn [shr_m]. change (1024 - 53) with 971.
  destruct (Z.leb_spec (e - 1) 971); [reflexivity | lia].
Qed.

Lemma digits2_upper (p : positive) : Z.pos p < 2 ^ Z.pos (digits2_pos p).
Proof.
  induction p as [p IH|p IH|]; simpl digits2_pos; try reflexivity;
    rewrite Pos2Z.inj_succ, Z.pow_succ_r by lia; lia.
Qed.

Lemma digits2_le (p : positive) (k : Z) :
  Z.pos p < 2 ^ k -> Z.pos (digits2_pos p) <= k.
Proof.
  intros Hp. pose proof (digits2_lower p) as Hl.
  destruct (Z.le_gt_cases (Z.pos (digits2_pos p)) k) as [H|H]; [assumption|].
  assert (2 ^ k <= 2 ^ (Z.pos (digits2_pos p) - 1)) by (apply Z.pow_le_mono_r; lia).
  lia.
Qed.

Lemma digits2_gt (p : positive) (k : Z) :
  0 <= k -> 2 ^ k <= Z.pos p -> k < Z.pos (digits2_pos p).
Proof.
  intros Hk Hp. pose proof (digits2_upper p) as Hu.
  destruct (Z.lt_ge_cases k (Z.pos (digits2_pos p))) as [H|H]; [assumption|].
  assert (2 ^ Z.pos (digits2_pos p) <= 2 ^ k) by (apply Z.pow_le_mono_r; lia).
  lia.
Qed.

(** The successor of a 53-bit mantissa has 53 bits, or is [2^53]. *)
Lemma digits2_succ_53 (q : positive) :
  digits2_pos q = 53%positive ->
  digits2_pos (Pos.succ q) = 53%positive \/ Pos.succ q = 9007199254740992%positive.
Proof.
  intros Hq. pose proof (digits2_lower q) as Hl. pose proof (digits2_upper q) as Hu.
  rewrite Hq in Hl, Hu. change (2 ^ (53 - 1)) with 4503599627370496 in Hl.
  change (2 ^ 53) with 9007199254740992 in Hu.
  destruct (Pos.eq_dec (Pos.succ q) 9007199254740992) as [E|N]; [now right|left].
  assert (H1 : Z.pos (digits2_pos (Pos.succ q)) <= 53) by (apply digits2_le; lia).
  assert (H2 : 52 < Z.pos (digits2_pos (Pos.succ q)))
    by (apply digits2_gt; [lia|]; change (2 ^ 52) with 4503599627370496; lia).
  lia.
Qed.

Lemma iter_pos_nat {A : Type} (f : A -> A) (p : positive) (x : A) :
  iter_pos f p x = Nat.iter (Pos.to_nat p) f x.
Proof.
  revert x. induction p as [p IH|p IH|]; intros x; cbn [iter_pos].
  - rewrite !IH, Pos2Nat.inj_xI, Nat.iter_succ_r.
    replace (2 * Pos.to_nat p)%nat with (Pos.to_nat p + Pos.to_nat p)%nat by lia.
    now rewrite Nat.iter_add.
  - rewrite !IH, Pos2Nat.inj_xO.
    replace (2 * Pos.to_nat p)%nat with (Pos.to_nat p + Pos.to_nat p)%nat by lia.
    now rewrite Nat.iter_add.
  - reflexivity.
Qed.

(** Shifting a mantissa right by fewer places than it has bits leaves a
    mantissa with that many bits fewer. *)
Lemma shr_iter_digits (k : nat) (p : positive) (r s : bool) :
  Z.of_nat k < Z.pos (digits2_pos p) ->
  exists q r' s',
    Nat.iter k shr_1 {| shr_m := Z.pos p; shr_r := r; shr_s := s |}
    = {| shr_m := Z.pos q; shr_r := r'; shr_s := s' |}
    /\ Z.pos (digits2_pos q) = Z.pos (digits2_pos p) - Z.of_nat k.
Proof.
  revert p r s. induction k as [|k IH]; intros p r s Hk.
  - exists p, r, s. split; [reflexivity | cbn; lia].
  - rewrite Nat.iter_succ_r.
    destruct p as [p|p|]; cbn [shr_1 digits2_pos] in *.
    + rewrite Pos2Z.inj_succ in Hk.
      destruct (IH p true (r || s)%bool) as [q [r' [s' [E Hq]]]]; [lia|].
      exists q, r', s'. split; [exact E | rewrite Pos2Z.inj_succ; lia].
    + rewrite Pos2Z.inj_succ in Hk.
      destruct (IH p false (r || s)%bool) as [q [r' [s' [E Hq]]]]; [lia|].
      exists q, r', s'. split; [exact E | rewrite Pos2Z.inj_succ; lia].
    + lia.
Qed.

Lemma round_nearest_even_pos (q : positive) (l : location) :
  exists q2,
    round_nearest_even (Z.pos q) l = Z.pos q2 /\ (q2 = q \/ q2 = Pos.succ q).
Proof.
  assert (Hs : Z.pos q + 1 = Z.pos (Pos.succ q)) by lia.
  destruct l as [|[| |]]; cbn [round_nearest_even]; try rewrite Hs.
  - exists q. now split; [|left].
  - destruct (Z.even (Z.pos q)).
    + exists q. now split; [|left].
    + exists (Pos.succ q). now split; [|right].
  - exists q. now split; [|left].
  - exists (Pos.succ q). now split; [|right].
Qed.

(** [float()] of a non-zero integer with mantissa [p]: the mantissa of the
    result has 53 bits and its exponent follows the bit length of [p]; the
    result is an infinity when that exponent is above 971.  Below [2^53]
    nothing is rounded. *)
Lemma binary_round_int (s : bool) (p : positive) :
  exists m e,
    digits2_pos m = 53%positive
    /\ Z.pos (digits2_pos p) - 53 <= e <= Z.pos (digits2_pos p) - 52
    /\ binary_round 53 1024 s p 0
       = (if e <=? 971 then S754_finite s m e else S754_infinity s)
    /\ (Z.pos p < 2 ^ 53 -> e <= 0 /\ Z.pos m = Z.pos p * 2 ^ (- e)).
Proof.
  unfold binary_round.
  replace (fexp 53 1024 (Z.pos (digits2_pos p) + 0)) with (Z.pos (digits2_pos p) - 53)
    by (unfold fexp, emin; lia).
  unfold shl_align.
  destruct (Z.pos (digits2_pos p) - 53 - 0) as [|n|k] eqn:Hk.
  - exists p, 0. rewrite binary_round_aux_full_mantissa by lia.
    split; [lia|]. split; [lia|]. split; [reflexivity|]. intros _. split; lia.
  - assert (Hbig : ~ Z.pos p < 2 ^ 53).
    { intros Hp. apply digits2_le in Hp. lia. }
    assert (E1 : exists q r' s',
               shr_fexp 53 1024 (Z.pos p) 0 loc_Exact
               = ({| shr_m := Z.pos q; shr_r := r'; shr_s := s' |}, Z.pos n)
               /\ digits2_pos q = 53%positive).
    { unfold shr_fexp. cbn [Zdigits2 shr_record_of_loc].
      replace (fexp 53 1024 (Z.pos (digits2_pos p) + 0) - 0) with (Z.pos n)
        by (unfold fexp, emin; lia).
      cbn [shr Z.add]. rewrite iter_pos_nat.
      destruct (shr_iter_digits (Pos.to_nat n) p false false) as [q [r' [s' [E Hq]]]];
        [lia|].
      exists q, r', s'. rewrite E. split; [reflexivity | lia]. }
    destruct E1 as [q [r' [s' [E1 Hq]]]].
    unfold binary_round_aux. rewrite E1. cbn [shr_m].
    destruct (round_nearest_even_pos q
                (loc_of_shr_record {| shr_m := Z.pos q; shr_r := r'; shr_s := s' |}))
      as [q2 [-> Hq2]].
    assert (Hd2 : digits2_pos q2 = 53%positive \/ q2 = 9007199254740992%positive).
    { destruct Hq2 as [->| ->]; [now left | now apply digits2_succ_53]. }
    destruct Hd2 as [Hd2| ->].
    + rewrite shr_fexp_full_mantissa by (assumption || lia).
      cbn [shr_m]. change (1024 - 53) with 971.
      exists q2, (Z.pos n). split; [assumption|]. split; [lia|].
      split; [reflexivity | intros H; contradiction].
    + unfold shr_fexp. change (Zdigits2 9007199254740992) with 54.
      replace (fexp 53 1024 (54 + Z.pos n) - Z.pos n) with 1
        by (unfold fexp, emin; lia).
      cbn [shr shr_record_of_loc iter_pos shr_1 orb shr_m].
      change (1024 - 53) with 971.
      exists 4503599627370496%positive, (Z.pos n + 1). split; [reflexivity|].
      split; [lia|]. split; [reflexivity | intros H; contradiction].
  - exists (Pos.iter xO p k), (Z.pos (digits2_pos p) - 53).
    assert (Hdig : digits2_pos (Pos.iter xO p k) = 53%positive)
      by (rewrite digits2_iter_xO; lia).
    rewrite binary_round_aux_full_mantissa by (assumption || lia).
    split; [assumption|]. split; [lia|]. split.
    + destruct (Z.leb_spec (Z.pos (digits2_pos p) - 53) 971); [reflexivity | lia].
    + intros _. split; [lia|]. rewrite iter_xO_pow. f_equal. f_equal. lia.
Qed.

(** [float(h)] of a non-zero integer. *)
Lemma b64_of_int_cases (h : Z) :
  h <> 0 ->
  exists m e,
    digits2_pos m = 53%positive
    /\ -52 <= e
    /\ b64_of_int h
       = (if e <=? 971 then Ok (S754_finite (h <? 0) m e) else Raise OverflowError)
    /\ (Z.abs h < 2 ^ 1023 -> e <= 971)
    /\ (2 ^ 1024 <= Z.abs h -> 972 <= e)
    /\ (Z.abs h < 2 ^ 53 -> e <= 0 /\ Z.pos m = Z.abs h * 2 ^ (- e)).
Proof.
  intros Hh.
  assert (H : forall s p,
             exists m e,
               digits2_pos m = 53%positive
               /\ -52 <= e
               /\ match binary_round 53 1024 s p 0 with
                  | S754_infinity _ => Raise OverflowError
                  | f => Ok f
                  end
                  = (if e <=? 971 then Ok (S754_finite s m e) else Raise OverflowError)
               /\ (Z.pos p < 2 ^ 1023 -> e <= 971)
               /\ (2 ^ 1024 <= Z.pos p -> 972 <= e)
               /\ (Z.pos p < 2 ^ 53 -> e <= 0 /\ Z.pos m = Z.pos p * 2 ^ (- e))).
  { intros s p. destruct (binary_round_int s p) as [m [e [Hd [He [E Hx]]]]].
    exists m, e. split; [assumption|]. split; [lia|]. split; [|split; [|split]].
    - rewrite E. now destruct (e <=? 971).
    - intros Hp. apply digits2_le in Hp. lia.
    - intros Hp. apply digits2_gt in Hp; lia.
    - exact Hx. }
  destruct h as [|p|p]; [congruence | apply (H false p) | apply (H true p)].
Qed.

(** Lowering the exponent by one halves the value. *)
Lemma b64_value_half (s : bool) (m : positive) (e : Z) :
  exists q q',
    b64_value (S754_finite s m (e - 1)) = Some q
    /\ b64_value (S754_finite s m e) = Some q'
    /\ (q * 2 == q')%Q.
Proof.
  cbn [b64_value]. set (sm := if s then Z.neg m else Z.pos m).
  destruct e as [|k|k].
  - do 2 eexists. split; [reflexivity|]. split; [reflexivity|].
    unfold Qeq. cbn. lia.
  - destruct (Z.pos k - 1) as [|j|j] eqn:Hj; try lia.
    + do 2 eexists. split; [reflexivity|]. split; [reflexivity|].
      replace (Z.pos k) with 1 by lia. unfold Qeq. cbn. lia.
    + do 2 eexists. split; [reflexivity|]. split; [reflexivity|].
      replace (Z.pos k) with (Z.succ (Z.pos j)) by lia.
      rewrite Z.pow_succ_r by lia.
      unfold Qeq, Qmult, inject_Z. cbn [Qnum Qden Pos.mul]. ring.
  - change (Z.neg k - 1) with (Z.neg (k + 1)).
    do 2 eexists. split; [reflexivity|]. split; [reflexivity|].
    unfold Qeq, Qmult. cbn [Qnum Qden].
    rewrite Pos.add_1_r, Pos.pow_succ_r, Pos.mul_1_r, Pos2Z.inj_mul. ring.
Qed.

(** A mantissa that is the integer shifted left denotes the integer. *)
Lemma b64_value_exact (s : bool) (m : positive) (e a : Z) :
  e <= 0 -> Z.pos m = a * 2 ^ (- e) ->
  exists q,
    b64_value (S754_finite s m e) = Some q
    /\ (q == inject_Z (if s then - a else a))%Q.
Proof.
  intros He Hm. cbn [b64_value].
  assert (Hsm : (if s then Z.neg m else Z.pos m)
                = (if s then - a else a) * 2 ^ (- e)).
  { destruct s; [|exact Hm]. rewrite Z.mul_opp_l, <- Hm. reflexivity. }
  rewrite Hsm. destruct e as [|k|k]; try lia.
  - eexists. split; [reflexivity|]. cbn. now rewrite Z.mul_1_r, Z.mul_1_r.
  - eexists. split; [reflexivity|].
    unfold Qeq, inject_Z. cbn [Qnum Qden Z.opp].
    rewrite Pos2Z.inj_pow. ring.
Qed.

(** [hops * 0.5] for every integer: [float(hops)] raises or the product
    is exactly half of it; up to [2^53] on either side of zero
    [float(hops)] is the integer itself. *)
Lemma qos_metrics_conversion_cases (traffic_load hops : Z) :
  (qos_metrics traffic_load hops true = Raise OverflowError
   /\ b64_of_int hops = Raise OverflowError
   /\ 2 ^ 1023 <= Z.abs hops)
  \/ (exists f g qf qg,
         b64_of_int hops = Ok f
         /\ qos_metrics traffic_load hops true
            = Ok (PyFloat g, Z.max 0 (100 - traffic_load * 2))
         /\ b64_value f = Some qf
         /\ b64_value g = Some qg
         /\ (qg * 2 == qf)%Q
         /\ Z.abs hops < 2 ^ 1024
         /\ (Z.abs hops <= 2 ^ 53 -> (qf == inject_Z hops)%Q)).
Proof.
  destruct (Z.eq_dec hops 0) as [->|H0].
  { right. exists (S754_zero false), (S754_zero false), 0%Q, 0%Q.
    repeat split; try reflexivity. }
  destruct (Z.eq_dec hops (2 ^ 53)) as [->|Hp].
  { right. exists (S754_finite false 4503599627370496 1),
      (S754_finite false 4503599627370496 0),
      (inject_Z 9007199254740992), (inject_Z 4503599627370496).
    repeat split; try reflexivity. }
  destruct (Z.eq_dec hops (- 2 ^ 53)) as [->|Hn].
  { right. exists (S754_finite true 4503599627370496 1),
      (S754_finite true 4503599627370496 0),
      (inject_Z (- 9007199254740992)), (inject_Z (- 4503599627370496)).
    repeat split; try reflexivity. }
  destruct (b64_of_int_cases hops H0) as [m [e [Hd [He [E [Hlo [Hhi Hx]]]]]]].
  destruct (Z.leb_spec e 971) as [Hle|Hgt].
  - right.
    destruct (b64_value_half (hops <? 0) m e) as [qg [qf [Hg [Hf Hq]]]].
    exists (S754_finite (hops <? 0) m e), (S754_finite (hops <? 0) m (e - 1)), qf, qg.
    split; [exact E|]. split.
    { unfold qos_metrics. cbn [num_mul]. rewrite E. cbn [bind].
      now rewrite SFmul_half by (assumption || lia). }
    split; [exact Hf|]. split; [exact Hg|]. split; [exact Hq|]. split.
    + destruct (Z.lt_ge_cases (Z.abs hops) (2 ^ 1024)) as [H|H]; [exact H|].
      apply Hhi in H. lia.
    + intros Hb. destruct Hx as [He0 Hm]; [change (2 ^ 53) with 9007199254740992 in *; lia|].
      destruct (b64_value_exact (hops <? 0) m e (Z.abs hops) He0 Hm) as [q [Hq1 Hq2]].
      rewrite Hf in Hq1. inversion Hq1; subst q. rewrite Hq2.
      replace (if hops <? 0 then - Z.abs hops else Z.abs hops) with hops;
        [reflexivity|].
      destruct (Z.ltb_spec hops 0); lia.
  - left. split; [|split; [exact E|]].
    + unfold qos_metrics. cbn [num_mul]. now rewrite E.
    + destruct (Z.lt_ge_cases (Z.abs hops) (2 ^ 1023)) as [H|H]; [|exact H].
      apply Hlo in H. lia.
Qed.

(** Without conversion the product is the integer [hops * 1]. *)
Lemma qos_metrics_no_conversion (traffic_load hops : Z) :
  qos_metrics traffic_load hops false
  = Ok (PyInt hops, Z.max 0 (100 - traffic_load * 2)).
Proof. unfold qos_metrics. cbn [num_mul bind]. now rewrite Z.mul_1_r. Qed.

(** For every hop count from 1 to [2^53], binary64 computes [hops * 0.5]
    exactly: neither the conversion nor the product rounds. *)
Lemma qos_metrics_conversion (traffic_load hops : Z) :
  1 <= hops <= 2 ^ 53 ->
  exists f q,
    qos_metrics traffic_load hops true
    = Ok (PyFloat f, Z.max 0 (100 - traffic_load * 2))
    /\ b64_value f = Some q
    /\ (q == inject_Z hops * (1 # 2))%Q.
Proof.
  intros Hh.
  destruct (qos_metrics_conversion_cases traffic_load hops)
    as [[_ [_ H]]|[f [g [qf [qg [_ [E [_ [Hg [Hq [_ Hx]]]]]]]]]]].
  - exfalso. assert (2 ^ 53 < 2 ^ 1023) by (apply Z.pow_lt_mono_r; lia). lia.
  - exists g, qg. split; [exact E|]. split; [exact Hg|].
    rewrite <- Hx by lia. rewrite <- Hq. ring.
Qed.

(** * The properties of the specification *)

(** C1: for every N in [3,15], Mesh has exactly N*(N-1)/2 links, one for
    every pair i < j; Star, PON and Broadcast Select PON have exactly N-1
    links, all of them at node 1; Ring has exactly N links, which form a
    single cycle through all N nodes. *)
Theorem topology_link_counts (N : Z) :
  3 <= N <= 15 ->
  (exists G,
      create_topology N "Mesh" = Ok G
      /\ List.length (edges G) = Z.to_nat (N * (N - 1) / 2)
      /\ (forall i j, In (i, j) (edges G) <-> 1 <= i /\ i < j /\ j <= N))
  /\ (forall kind, In kind ["Star"; "PON"; "Broadcast Select PON"]%string ->
      exists G,
        create_topology N kind = Ok G
        /\ List.length (edges G) = Z.to_nat (N - 1)
        /\ (forall u v, In (u, v) (edges G) <-> u = 1 /\ 2 <= v <= N))
  /\ (exists G,
         create_topology N "Ring" = Ok G
         /\ List.length (edges G) = Z.to_nat N
         /\ single_cycle G
         /\ (forall u v, In (u, v) (edges G)
                         <-> (1 <= u /\ v = u + 1 /\ v <= N) \/ (u = 1 /\ v = N))).
Proof.
  intros [H3 H15]. split; [|split].
  - destruct (create_topology_spec N "Mesh") as [G [E _]]. exists G.
    split; [assumption|]. apply mesh_topology; [lia | assumption].
  - intros kind Hk. destruct (create_topology_spec N kind) as [G [E _]].
    exists G. split; [assumption|]. apply (star_topology N kind); [|assumption].
    simpl in Hk. destruct Hk as [<-|[<-|[<-|[]]]]; reflexivity.
  - destruct (create_topology_spec N "Ring") as [G [E _]]. exists G.
    split; [assumption|].
    apply ring_topology; [lia | assumption].
Qed.

Lemma topology_link_counts_witness :
  exists G, create_topology 6 "Ring" = Ok G /\ List.length (edges G) = 6%nat.
Proof.
  destruct (topology_link_counts 6 ltac:(lia)) as [_ [_ [G [E [L _]]]]].
  exists G. split; [exact E | exact L].
Defined.

(** C2: for every N >= 1, WRPON joins node 1 to every router and every
    router to every terminal, and nothing else; the routers are the nodes
    2..floor(N/2)+1 and the terminals the remaining nodes floor(N/2)+2..N.
    For N = 10 the routers are 2..6, the terminals 7..10, and there are 25
    links: 5 at the hub and 20 between routers and terminals.  An empty
    half raises nothing: its loop is not entered. *)
Theorem wrpon_wiring (N : Z) :
  1 <= N ->
  (forall x, In x (routers N) <-> 2 <= x <= N / 2 + 1)
  /\ (forall x, In x (terminals N) <-> N / 2 + 2 <= x <= N)
  /\ routers N ++ terminals N = range 2 (N + 1)
  /\ (exists G,
         create_topology N "WRPON" = Ok G
         /\ (forall u v, In (u, v) (edges G)
                         <-> (u = 1 /\ In v (routers N))
                             \/ (In u (routers N) /\ In v (terminals N)))
         /\ List.length (edges G)
            = (List.length (routers N)
               + List.length (routers N) * List.length (terminals N))%nat
         /\ (routers N = [] -> edges G = [])
         /\ (terminals N = [] -> forall u v, In (u, v) (edges G) -> u = 1))
  /\ (N = 10 ->
      routers N = [2; 3; 4; 5; 6]
      /\ terminals N = [7; 8; 9; 10]
      /\ exists G,
          create_topology N "WRPON" = Ok G
          /\ List.length (edges G) = 25%nat
          /\ List.length (filter (fun p => fst p =? 1) (edges G)) = 5%nat
          /\ List.length (filter (fun p => negb (fst p =? 1)) (edges G)) = 20%nat).
Proof.
  intros HN. split; [apply routers_In|]. split; [apply terminals_In|].
  split; [|split].
  - unfold routers, terminals. symmetry. apply range_app.
    Z.div_mod_to_equations. lia.
  - destruct (create_topology_spec N "WRPON") as [G [E _]]. exists G.
    destruct (wrpon_topology N G E) as [Hl He].
    split; [assumption|]. split; [assumption|]. split; [assumption|]. split.
    + intros Hr. apply edges_nil. intros u v Huv. apply He in Huv.
      rewrite Hr in Huv. simpl in Huv. tauto.
    + intros Ht u v Huv. apply He in Huv. rewrite Ht in Huv. simpl in Huv. tauto.
  - intros ->. split; [reflexivity|]. split; [reflexivity|].
    eexists. split; [vm_compute; reflexivity|]. now vm_compute.
Qed.

Lemma wrpon_wiring_witness :
  exists G, create_topology 10 "WRPON" = Ok G /\ List.length (edges G) = 25%nat.
Proof.
  destruct (wrpon_wiring 10 ltac:(lia)) as [_ [_ [_ [_ H]]]].
  destruct (H eq_refl) as [_ [_ [G [E [L _]]]]].
  exists G. split; [exact E | exact L].
Defined.

(** C3, as the code has it: for every traffic load in [0,100], both
    values of the conversion flag and every hop count >= 1 (with
    conversion: up to [2^53]) the call returns; the latency is the float
    of value hops * 0.5 with conversion and the integer hops (hops * 1.0
    in value) without, and the throughput is max(0, 100 - 2 * load); the
    four sample calls of the specification give (2.0, 40), (4.0, 40),
    (2.0, 0) and (1.0, 100). *)
Theorem qos_metrics_values (traffic_load hops : Z) (conversion : bool) :
  0 <= traffic_load <= 100 -> 1 <= hops ->
  (conversion = true -> hops <= 2 ^ 53) ->
  (exists latency q,
      qos_metrics traffic_load hops conversion
      = Ok (latency, Z.max 0 (100 - traffic_load * 2))
      /\ num_value latency = Some q
      /\ (q == inject_Z hops * (if conversion then 1 # 2 else 1))%Q
      /\ (0 < q)%Q
      /\ (if conversion then exists f, latency = PyFloat f else latency = PyInt hops))
  /\ (traffic_load <= 50 ->
      exists latency,
        qos_metrics traffic_load hops conversion = Ok (latency, 100 - 2 * traffic_load))
  /\ (50 <= traffic_load ->
      exists latency, qos_metrics traffic_load hops conversion = Ok (latency, 0))
  /\ qos_returns (qos_metrics 30 4 true) 2 40
  /\ qos_returns (qos_metrics 30 4 false) 4 40
  /\ qos_returns (qos_metrics 100 4 true) 2 0
  /\ qos_returns (qos_metrics 0 1 false) 1 100.
Proof.
  intros Ht Hh Hc.
  assert (H : exists latency q,
             qos_metrics traffic_load hops conversion
             = Ok (latency, Z.max 0 (100 - traffic_load * 2))
             /\ num_value latency = Some q
             /\ (q == inject_Z hops * (if conversion then 1 # 2 else 1))%Q
             /\ (0 < q)%Q
             /\ (if conversion then exists f, latency = PyFloat f
                 else latency = PyInt hops)).
  { destruct conversion.
    - destruct (qos_metrics_conversion traffic_load hops) as [f [q [E [Hv Hq]]]];
        [split; [assumption | now apply Hc]|].
      exists (PyFloat f), q. split; [exact E|]. split; [exact Hv|].
      split; [exact Hq|]. split; [|now exists f].
      rewrite Hq. unfold Qlt. simpl. lia.
    - exists (PyInt hops), (inject_Z hops).
      split; [apply qos_metrics_no_conversion|]. split; [reflexivity|].
      split; [now rewrite Qmult_1_r|]. split; [|reflexivity].
      unfold Qlt. simpl. lia. }
  split; [exact H|]. destruct H as [latency [_ [E _]]].
  split; [|split].
  - intros H50. exists latency. rewrite E. do 2 f_equal. lia.
  - intros H50. exists latency. rewrite E. do 2 f_equal. lia.
  - repeat split; eexists; eexists;
      (split; [vm_compute; reflexivity | split; [reflexivity | reflexivity]]).
Qed.

Lemma qos_metrics_values_witness : qos_returns (qos_metrics 30 4 true) 2 40.
Proof.
  destruct (qos_metrics_values 30 4 true ltac:(lia) ltac:(lia) ltac:(intros _; lia))
    as [_ [_ [_ [H _]]]].
  exact H.
Defined.

(** C3 as stated fails beyond [2^53] hops with conversion: [2^53 + 1] is
    rounded by [float()] before the product, so the latency returned,
    4503599627370496.0, is not half the hop count; and at [2^1024] hops
    [float()] raises [OverflowError], so nothing is returned at all. *)
Lemma qos_metrics_large_hops :
  qos_metrics 30 (2 ^ 53 + 1) true
  = Ok (PyFloat (S754_finite false 4503599627370496 0), 40)
  /\ num_value (PyFloat (S754_finite false 4503599627370496 0))
     = Some (inject_Z 4503599627370496)
  /\ ~ (inject_Z 4503599627370496 == inject_Z (2 ^ 53 + 1) * (1 # 2))%Q
  /\ qos_metrics 30 (2 ^ 1024) true = Raise OverflowError
  /\ ~ (forall traffic_load hops conversion,
          0 <= traffic_load <= 100 -> 1 <= hops ->
          qos_returns (qos_metrics traffic_load hops conversion)
            (inject_Z hops * (if conversion then 1 # 2 else 1))
            (Z.max 0 (100 - traffic_load * 2))).
Proof.
  assert (E : qos_metrics 30 (2 ^ 1024) true = Raise OverflowError)
    by (vm_compute; reflexivity).
  split; [vm_compute; reflexivity|]. split; [reflexivity|].
  split; [intros H; vm_compute in H; discriminate H|]. split; [exact E|].
  intros H. destruct (H 30 (2 ^ 1024) true) as [a [q [Ha _]]]; try lia.
  rewrite E in Ha. discriminate Ha.
Qed.

(** C4: on a graph of networkx, failing a present node removes that node
    (one node fewer) and exactly the links that touch it, and leaves every
    other node and link, with its data, as it was; failing an absent node
    returns the graph unchanged; the sentinel 0 is never a node of a graph
    built by [create_topology]; failing the same node twice is the same
    as failing it once. *)
Theorem node_failure (G : Graph) (v : Z) :
  wf_graph G = true ->
  (has_node v G = true ->
   exists G',
     simulate_node_failure G v = Ok G'
     /\ S (List.length (nodes G')) = List.length (nodes G)
     /\ nodes G' = filter (fun m => negb (m =? v)) (nodes G)
     /\ edges G' = filter (avoids v) (edges G)
     /\ (forall a b, a <> v -> b <> v -> edge_data G' a b = edge_data G a b)
     /\ has_node v G' = false
     /\ wf_graph G' = true)
  /\ (has_node v G = false -> simulate_node_failure G v = Ok G)
  /\ (G1 <- simulate_node_failure G v ;; simulate_node_failure G1 v)
     = simulate_node_failure G v
  /\ (forall n kind G0,
         create_topology n kind = Ok G0 ->
         has_node 0 G0 = false /\ simulate_node_failure G0 0 = Ok G0).
Proof.
  intros Hwf. apply wf_graph_WF in Hwf.
  destruct (simulate_node_failure_spec G v Hwf)
    as [G' [E [HW' [Hn [He [Hd [Hg Habs]]]]]]].
  assert (Hgone : has_node v G' = false).
  { unfold has_node. apply memZ_not_In. unfold nodes in Hn. rewrite Hn.
    intros H. apply filter_In in H. destruct H as [_ H].
    now rewrite Z.eqb_refl in H. }
  split; [|split; [|split]].
  - intros Hv. exists G'. split; [assumption|]. split.
    + rewrite Hn. apply filter_out_length; [apply (wf_nodup G Hwf)|].
      now apply memZ_In.
    + split; [assumption|]. split; [assumption|]. split.
      * intros a b Ha Hb. apply edge_data_congr; auto.
      * split; [assumption | now apply wf_graph_WF].
  - intros Hv. unfold simulate_node_failure. now rewrite Hv.
  - rewrite E. cbn [bind]. unfold simulate_node_failure at 1. now rewrite Hgone.
  - intros n kind G0 E0. destruct (create_topology_edges n kind G0 E0) as [_ [Hn0 _]].
    assert (H0 : has_node 0 G0 = false).
    { unfold has_node. apply memZ_not_In. unfold nodes in Hn0. rewrite Hn0.
      rewrite range_In. lia. }
    split; [assumption|]. unfold simulate_node_failure. now rewrite H0.
Qed.

Lemma node_failure_witness :
  let G := mkGraph [1; 2; 3] [(1, [(2, O)]); (2, [(1, O); (3, 1%nat)]); (3, [(2, 1%nat)])]
             [mkData None; mkData (Some "red"%string)] in
  simulate_node_failure G 2 = Ok (mkGraph [1; 3] [(1, []); (3, [])] (g_data G))
  /\ (G1 <- simulate_node_failure G 2 ;; simulate_node_failure G1 2)
     = simulate_node_failure G 2.
Proof.
  intros G. split; [reflexivity|].
  destruct (node_failure G 2 eq_refl) as [_ [_ [H _]]]. exact H.
Defined.

(** C5: on a graph of networkx with L links and a list of K >= 1 labels,
    whatever the random source draws, [assign_wavelengths] raises nothing;
    afterwards every one of the L links carries a label of the list (read
    from either endpoint), and the nodes and the links are those of
    before: only the data dicts of the links have changed. *)
Theorem wavelengths_assigned (G : Graph) (wavelengths : list label) (r : rand) :
  wf_graph G = true -> (1 <= List.length wavelengths)%nat ->
  exists G' r',
    assign_wavelengths G wavelengths r = Ok (G', r')
    /\ nodes G' = nodes G
    /\ edges G' = edges G
    /\ List.length (edges G') = List.length (edges G)
    /\ g_adj G' = g_adj G
    /\ (forall u v, In (u, v) (edges G) -> labelled wavelengths G' u v)
    /\ wf_graph G' = true.
Proof.
  intros Hwf Hws. apply wf_graph_WF in Hwf. apply nonempty_length in Hws.
  destruct (assign_wavelengths_spec wavelengths G r Hws Hwf)
    as [G' [r' [E [HW' [Hn [Ha Hl]]]]]].
  assert (He : edges G' = edges G) by (unfold edges; now rewrite Ha).
  exists G', r'. split; [assumption|]. split; [assumption|].
  split; [assumption|]. split; [now rewrite He|]. split; [assumption|].
  split; [|now apply wf_graph_WF].
  intros u v Huv. apply Hl. now rewrite He.
Qed.

Lemma wavelengths_assigned_witness :
  let G := mkGraph [1; 2; 3] [(1, [(2, O)]); (2, [(1, O); (3, 1%nat)]); (3, [(2, 1%nat)])]
             [mkData None; mkData None] in
  exists G' r',
    assign_wavelengths G ["red"; "green"]%string (fun k => k) = Ok (G', r')
    /\ edges G' = [(1, 2); (2, 3)]
    /\ labelled ["red"; "green"]%string G' 2 3.
Proof.
  intros G.
  destruct (wavelengths_assigned G ["red"; "green"]%string (fun k => k) eq_refl)
    as [G' [r' [E [_ [He [_ [_ [Hl _]]]]]]]].
  - simpl. lia.
  - exists G', r'. split; [exact E|]. split; [exact He|].
    apply Hl. simpl. right. left. reflexivity.
Defined.

(** C6: for each of the six kinds and every N in [3,15], [create_topology]
    returns a graph whose nodes are exactly 1..N, whose links join two
    different nodes of the graph, no two of them the same unordered pair,
    and whose wavelengths are all unset.  That every link references
    present nodes only holds of every graph of networkx, and of the graph
    [assign_wavelengths] returns from it, and of the graph
    [simulate_node_failure] returns from it. *)
Theorem topology_invariants (N : Z) (kind : string) (G : Graph)
    (wavelengths : list label) (r : rand) (v : Z) :
  3 <= N <= 15 -> known_kind kind = true ->
  wf_graph G = true -> (1 <= List.length wavelengths)%nat ->
  (exists T,
      create_topology N kind = Ok T
      /\ nodes T = range 1 (N + 1)
      /\ (forall x, In x (nodes T) <-> 1 <= x <= N)
      /\ List.length (nodes T) = Z.to_nat N
      /\ links_in_nodes T
      /\ (forall a b, In (a, b) (edges T) -> a <> b)
      /\ no_parallel_links T
      /\ (forall a b, In (a, b) (edges T) -> unset T a b)
      /\ wf_graph T = true)
  /\ links_in_nodes G
  /\ (exists G' r',
         assign_wavelengths G wavelengths r = Ok (G', r')
         /\ links_in_nodes G' /\ wf_graph G' = true)
  /\ (exists G',
         simulate_node_failure G v = Ok G'
         /\ links_in_nodes G' /\ wf_graph G' = true).
Proof.
  intros HN Hk Hwf Hws. apply wf_graph_WF in Hwf. apply nonempty_length in Hws.
  split; [|split; [|split]].
  - destruct (create_topology_spec N kind) as [T [E [HW [Hn [He Hu]]]]].
    destruct (topology_pairs_simple N kind) as [Hnd Hloop]; [lia | assumption |].
    exists T. split; [assumption|]. split; [assumption|]. split.
    { intros x. rewrite Hn, range_In. lia. }
    split. { rewrite Hn, range_length. f_equal. lia. }
    split; [now apply WF_links_in_nodes|]. split.
    { intros a b Hab. apply Hloop. now apply He. }
    split; [now apply WF_no_parallel_links|]. split; [assumption|].
    now apply wf_graph_WF.
  - now apply WF_links_in_nodes.
  - destruct (assign_wavelengths_spec wavelengths G r Hws Hwf)
      as [G' [r' [E [HW' _]]]].
    exists G', r'. split; [assumption|].
    split; [now apply WF_links_in_nodes | now apply wf_graph_WF].
  - destruct (simulate_node_failure_spec G v Hwf) as [G' [E [HW' _]]].
    exists G'. split; [assumption|].
    split; [now apply WF_links_in_nodes | now apply wf_graph_WF].
Qed.

Lemma topology_invariants_witness :
  exists T, create_topology 5 "WRPON" = Ok T /\ nodes T = [1; 2; 3; 4; 5]
            /\ no_parallel_links T.
Proof.
  destruct (topology_invariants 5 "WRPON"
              (mkGraph [1; 2] [(1, [(2, O)]); (2, [(1, O)])] [mkData None])
              ["blue"%string] (fun _ => O) 1
              ltac:(lia) eq_refl eq_refl ltac:(simpl; lia))
    as [[T [E [Hn [_ [_ [_ [_ [Hp _]]]]]]]] _].
  exists T. split; [exact E|]. split; [exact Hn | exact Hp].
Defined.

(** C7, as the code has it: with an empty list of labels the first link
    visited raises [IndexError] (from [random.choice]); a graph without
    links is returned unchanged, no exception raised. *)
Theorem empty_wavelengths (G : Graph) (r : rand) :
  assign_wavelengths G [] r
  = match edges G with
    | [] => Ok (G, r)
    | _ :: _ => Raise IndexError
    end.
Proof.
  rewrite assign_wavelengths_unfold. destruct (edges G) as [|[u v] es]; reflexivity.
Qed.

(** C7 as stated fails: the star on one node has no link, and labelling
    it from the empty list returns it. *)
Lemma empty_wavelengths_no_error :
  let G := mkGraph [1] [(1, [])] [] in
  create_topology 1 "Star" = Ok G
  /\ wf_graph G = true
  /\ assign_wavelengths G [] (fun _ => O) = Ok (G, fun _ => O)
  /\ ~ (forall G r, wf_graph G = true -> exists e, assign_wavelengths G [] r = Raise e).
Proof.
  intros G. split; [reflexivity|]. split; [reflexivity|]. split; [reflexivity|].
  intros H. destruct (H G (fun _ => O) eq_refl) as [e He]. discriminate He.
Qed.

(** C8, as the code has it: for every kind and every N < 1 no exception is
    raised; [create_topology] returns the graph with no node and no link. *)
Theorem node_count_below_one (N : Z) (kind : string) :
  N < 1 -> create_topology N kind = Ok empty_graph.
Proof.
  intros H. rewrite create_topology_pairs, topology_pairs_below_one by assumption.
  now rewrite range_nil by lia.
Qed.

Lemma node_count_below_one_witness : create_topology (-3) "WRPON" = Ok empty_graph.
Proof. apply (node_count_below_one (-3) "WRPON"). lia. Defined.

(** C8 as stated fails: with N = 0 every kind returns a graph. *)
Lemma node_count_zero_returns :
  create_topology 0 "Ring" = Ok empty_graph
  /\ ~ (forall N kind, N < 1 -> exists e, create_topology N kind = Raise e).
Proof.
  split; [reflexivity|]. intros H.
  destruct (H 0 "Ring"%string ltac:(lia)) as [e He]. discriminate He.
Qed.

(** C9, as the code has it: Ring on 6 nodes, labelled from red and green
    whatever the draws, then node 3 failed, is the graph on the 5 nodes
    1, 2, 4, 5, 6 with the 4 links 1-2, 1-6, 4-5 and 5-6: the links 2-3
    and 3-4 of the ring are gone, every remaining link carries red or
    green, and the remaining links form ONE path, 2-1-6-5-4, through the
    five nodes. *)
Theorem ring_six_fail_three (r : rand) :
  exists G,
    run_simulation 6 "Ring" ["red"; "green"]%string 3 r = Ok G
    /\ nodes G = [1; 2; 4; 5; 6]
    /\ edges G = [(1, 2); (1, 6); (4, 5); (5, 6)]
    /\ List.length (edges G) = 4%nat
    /\ (exists R, create_topology 6 "Ring" = Ok R
                  /\ In (2, 3) (edges R) /\ In (3, 4) (edges R)
                  /\ edges G = filter (avoids 3) (edges R))
    /\ (forall u v, In (u, v) (edges G) -> labelled ["red"; "green"]%string G u v)
    /\ single_path G.
Proof.
  unfold run_simulation.
  assert (ER : exists R,
             create_topology 6 "Ring" = Ok R /\ WF R
             /\ g_node R = [1; 2; 3; 4; 5; 6]
             /\ edges R = [(1, 2); (1, 6); (2, 3); (3, 4); (4, 5); (5, 6)]).
  { eexists. split; [vm_compute; reflexivity|].
    split; [now apply wf_graph_WF|]. now split. }
  destruct ER as [R [ER [HWR [HnR HeR]]]]. rewrite ER. cbn [bind].
  destruct (assign_wavelengths_spec ["red"; "green"]%string R r)
    as [G1 [r1 [E1 [HW1 [Hn1 [Ha1 Hl1]]]]]]; [discriminate | assumption |].
  rewrite E1. cbn [bind]. change (negb (3 =? 0)) with true. cbv iota.
  destruct (simulate_node_failure_spec G1 3 HW1)
    as [G [E [HW [Hn [He [Hd [Hg _]]]]]]].
  assert (He1 : edges G1 = edges R) by (unfold edges; now rewrite Ha1).
  assert (Hedges : edges G = [(1, 2); (1, 6); (4, 5); (5, 6)]).
  { now rewrite He, He1, HeR. }
  assert (Hnodes : nodes G = [1; 2; 4; 5; 6]).
  { rewrite Hn. unfold nodes. now rewrite Hn1, HnR. }
  exists G. split; [assumption|]. split; [assumption|]. split; [assumption|].
  split; [now rewrite Hedges|]. split; [|split].
  - exists R. split; [reflexivity|]. rewrite He, He1, HeR. simpl. tauto.
  - intros u v Huv.
    assert (Hu : u <> 3 /\ v <> 3).
    { rewrite Hedges in Huv. simpl in Huv.
      destruct Huv as [H|[H|[H|[H|[]]]]]; inversion H; lia. }
    destruct (Hl1 u v) as [w [Hw [Huv1 Hvu1]]].
    { rewrite He in Huv. apply filter_In in Huv. exact (proj1 Huv). }
    exists w. split; [assumption|].
    rewrite (edge_data_congr G1 G u v), (edge_data_congr G1 G v u);
      try assumption; try (apply Hg; tauto).
    now split.
  - exists [2; 1; 6; 5; 4]. rewrite Hnodes, Hedges. split; [|split].
    + apply (Permutation_cons_app [1] [4; 5; 6]). apply perm_skip.
      apply (Permutation_cons_app [4; 5] []). apply perm_swap.
    + repeat constructor; simpl; intuition lia.
    + vm_compute. apply perm_skip. apply perm_skip. apply perm_swap.
Qed.

(** C9 as stated fails: the four links left do not fall into two disjoint
    paths; each of them shares a node with the next one of 1-2, 1-6, 5-6, 4-5. *)
Lemma ring_six_fail_three_connected :
  exists G,
    run_simulation 6 "Ring" ["red"; "green"]%string 3 (fun _ => O) = Ok G
    /\ edges G = [(1, 2); (1, 6); (4, 5); (5, 6)]
    /\ ~ two_disjoint_groups G.
Proof.
  eexists. split; [vm_compute; reflexivity|]. split; [reflexivity|].
  intros [g1 [g2 [H1 [H2 [Hp Hd]]]]].
  match type of Hp with
  | Permutation _ ?e => change e with [(1, 2); (1, 6); (4, 5); (5, 6)] in Hp
  end.
  assert (Hin : forall x, In x [(1, 2); (1, 6); (4, 5); (5, 6)] -> In x g1 \/ In x g2).
  { intros x Hx. apply in_app_or.
    eapply Permutation_in; [apply Permutation_sym; exact Hp | exact Hx]. }
  assert (Hsub : forall x, In x g1 \/ In x g2 -> In x [(1, 2); (1, 6); (4, 5); (5, 6)]).
  { intros x Hx. eapply Permutation_in; [exact Hp | apply in_or_app; exact Hx]. }
  assert (Hclash : forall p q, In p g1 -> In q g2 -> touches p q = true -> False).
  { intros p q Hp1 Hq2 Ht. rewrite (Hd p q Hp1 Hq2) in Ht. discriminate Ht. }
  destruct (Hin (1, 2)) as [A|A]; [simpl; tauto | |];
    (destruct (Hin (1, 6)) as [B|B]; [simpl; tauto | |]);
    (destruct (Hin (5, 6)) as [C|C]; [simpl; tauto | |]);
    (destruct (Hin (4, 5)) as [D|D]; [simpl; tauto | |]);
    try (now apply (Hclash (1, 2) (1, 6)));
    try (now apply (Hclash (1, 6) (1, 2)));
    try (now apply (Hclash (1, 6) (5, 6)));
    try (now apply (Hclash (5, 6) (1, 6)));
    try (now apply (Hclash (5, 6) (4, 5)));
    try (now apply (Hclash (4, 5) (5, 6))).
  - destruct g2 as [|q g2]; [congruence|].
    assert (Hq : In q [(1, 2); (1, 6); (4, 5); (5, 6)])
      by (apply Hsub; right; now left).
    simpl in Hq. destruct Hq as [<-|[<-|[<-|[<-|[]]]]];
      match goal with
      | H : In ?q g1 |- _ => apply (Hclash q q); [exact H | now left | reflexivity]
      end.
  - destruct g1 as [|q g1]; [congruence|].
    assert (Hq : In q [(1, 2); (1, 6); (4, 5); (5, 6)])
      by (apply Hsub; left; now left).
    simpl in Hq. destruct Hq as [<-|[<-|[<-|[<-|[]]]]];
      match goal with
      | H : In ?q g2 |- _ => apply (Hclash q q); [now left | exact H | reflexivity]
      end.
Qed.

(** C10: for every N >= 1 and every string that is none of the six kinds,
    [create_topology] raises nothing and returns the nodes 1..N with no
    link. *)
Theorem unknown_kind_no_links (N : Z) (kind : string) :
  1 <= N -> known_kind kind = false ->
  exists G,
    create_topology N kind = Ok G
    /\ nodes G = range 1 (N + 1)
    /\ (forall x, In x (nodes G) <-> 1 <= x <= N)
    /\ edges G = [].
Proof.
  intros HN Hk. destruct (create_topology_spec N kind) as [G [E [_ [Hn [He _]]]]].
  exists G. split; [assumption|]. split; [assumption|]. split.
  - intros x. rewrite Hn, range_In. lia.
  - apply edges_nil. intros u v Huv. apply He in Huv.
    now rewrite topology_pairs_unknown in Huv.
Qed.

Lemma unknown_kind_no_links_witness :
  exists G, create_topology 4 "Bus" = Ok G /\ nodes G = [1; 2; 3; 4] /\ edges G = [].
Proof.
  destruct (unknown_kind_no_links 4 "Bus" ltac:(lia) eq_refl) as [G [E [Hn [_ He]]]].
  exists G. split; [exact E|]. split; [exact Hn | exact He].
Defined.

(** * Further properties of the code *)

(** ** [create_topology] on every input *)

(** X1: [create_topology] raises nothing, whatever the integer and the
    string: not [ZeroDivisionError] from [i % nodes], not [KeyError] from
    networkx.  The graph returned satisfies the invariant of networkx, its
    nodes are 1..N in order, and [G.edges()] lists every link once, between
    two of these nodes, smaller endpoint first, wavelength unset. *)
Theorem create_topology_never_raises (N : Z) (kind : string) :
  exists G,
    create_topology N kind = Ok G
    /\ wf_graph G = true
    /\ nodes G = range 1 (N + 1)
    /\ no_parallel_links G
    /\ (forall u v, In (u, v) (edges G) -> 1 <= u <= v /\ v <= N /\ unset G u v).
Proof.
  destruct (create_topology_spec N kind) as [G [E [HW [Hn [He Hu]]]]].
  exists G. split; [assumption|]. split; [now apply wf_graph_WF|].
  split; [assumption|]. split; [now apply WF_no_parallel_links|].
  intros u v Huv. pose proof Huv as Hin. apply He, norm_In in Hin.
  destruct Hin as [Hle Hp].
  assert (Hr : 1 <= u <= N /\ 1 <= v <= N).
  { destruct Hp as [Hp|Hp]; apply topology_pairs_in_range in Hp; tauto. }
  split; [lia|]. split; [lia | now apply Hu].
Qed.

(** X2: Ring on every N >= 1.  From three nodes on it has N links and no
    self-loop.  On two nodes the second call, [add_edge(2, 1)], meets the
    link of the first: one link.  On one node the only call is
    [add_edge(1, 1)]: one link, a self-loop. *)
Theorem ring_every_size (N : Z) :
  1 <= N ->
  exists G,
    create_topology N "Ring" = Ok G
    /\ List.length (edges G) = Z.to_nat (if N <=? 2 then 1 else N)
    /\ (In (1, 1) (edges G) <-> N = 1)
    /\ (forall u, In (u, u) (edges G) -> N = 1)
    /\ (N = 2 -> edges G = [(1, 2)]).
Proof.
  intros HN. assert (Hc : N = 1 \/ N = 2 \/ 3 <= N) by lia.
  destruct Hc as [->|[->|H3]].
  - eexists. split; [vm_compute; reflexivity|]. split; [reflexivity|].
    split; [simpl; tauto|]. split; [reflexivity | discriminate].
  - eexists. split; [vm_compute; reflexivity|]. split; [reflexivity|].
    split; [|split; [|reflexivity]].
    + simpl. split; [intros [H|[]]; discriminate H | discriminate].
    + intros u [H|[]]. inversion H. lia.
  - destruct (create_topology_spec N "Ring") as [G [E _]]. exists G.
    destruct (ring_topology N G H3 E) as [Hl [_ He]].
    split; [assumption|]. split.
    { rewrite Hl. destruct (Z.leb_spec N 2); [lia | reflexivity]. }
    split; [|split].
    + rewrite He. lia.
    + intros u Hu. apply He in Hu. lia.
    + lia.
Qed.

Lemma ring_every_size_witness :
  exists G, create_topology 2 "Ring" = Ok G /\ edges G = [(1, 2)].
Proof.
  destruct (ring_every_size 2 ltac:(lia)) as [G [E [_ [_ [_ H]]]]].
  exists G. split; [exact E | exact (H eq_refl)].
Defined.

(** X3: the link counts on every N >= 1, the sizes below and above the
    slider's 3..15 included: Mesh has N(N-1)/2 links, Star, PON and
    Broadcast Select PON have N-1, and WRPON has
    floor(N/2) * (N - floor(N/2)). *)
Theorem link_counts_every_size (N : Z) :
  1 <= N ->
  (exists G, create_topology N "Mesh" = Ok G
             /\ Z.of_nat (List.length (edges G)) = N * (N - 1) / 2)
  /\ (forall kind, In kind ["Star"; "PON"; "Broadcast Select PON"]%string ->
      exists G, create_topology N kind = Ok G
                /\ Z.of_nat (List.length (edges G)) = N - 1)
  /\ (exists G, create_topology N "WRPON" = Ok G
                /\ Z.of_nat (List.length (edges G)) = (N / 2) * (N - N / 2)).
Proof.
  intros HN. split; [|split].
  - destruct (create_topology_spec N "Mesh") as [G [E _]]. exists G.
    split; [assumption|]. destruct (mesh_topology N G HN E) as [Hl _].
    rewrite Hl. apply Z2Nat.id. apply Z.div_pos; nia.
  - intros kind Hk. destruct (create_topology_spec N kind) as [G [E _]].
    exists G. split; [assumption|].
    destruct (star_topology N kind G) as [Hl _]; [|assumption|rewrite Hl; lia].
    simpl in Hk. destruct Hk as [<-|[<-|[<-|[]]]]; reflexivity.
  - destruct (create_topology_spec N "WRPON") as [G [E _]]. exists G.
    split; [assumption|]. destruct (wrpon_topology N G E) as [Hl _].
    rewrite Hl. unfold routers, terminals. rewrite !range_length.
    assert (0 <= N / 2 /\ N / 2 + 1 <= N) by (Z.div_mod_to_equations; lia).
    rewrite Nat2Z.inj_add, Nat2Z.inj_mul, !Z2Nat.id by lia. ring.
Qed.

Lemma link_counts_every_size_witness :
  exists G, create_topology 20 "WRPON" = Ok G
            /\ Z.of_nat (List.length (edges G)) = 100.
Proof.
  destruct (link_counts_every_size 20 ltac:(lia)) as [_ [_ [G [E L]]]].
  exists G. split; [exact E | exact L].
Defined.

(** ** The whole script *)

Lemma failure_keeps_labels (ws : list label) (G G' : Graph) (f a b : Z) :
  WF G -> simulate_node_failure G f = Ok G' ->
  In (a, b) (edges G') -> labelled ws G a b -> labelled ws G' a b.
Proof.
  intros HW E Hab [w [Hw [H1 H2]]].
  destruct (simulate_node_failure_spec G f HW) as [G2 [E2 [_ [_ [He [Hd [Hg _]]]]]]].
  rewrite E in E2. inversion E2; subst G2.
  rewrite He in Hab. apply filter_In in Hab. destruct Hab as [_ Hav].
  unfold avoids in Hav. simpl in Hav. apply andb_true_iff in Hav.
  rewrite !negb_true_iff, !Z.eqb_neq in Hav. destruct Hav as [Ha Hb].
  exists w. split; [assumption|].
  rewrite (edge_data_congr G G' a b), (edge_data_congr G G' b a); auto.
Qed.

Lemma run_simulation_unfold (N : Z) (kind : string) (ws : list label) (f : Z)
    (r : rand) (T G1 : Graph) (r1 : rand) :
  create_topology N kind = Ok T ->
  assign_wavelengths T ws r = Ok (G1, r1) ->
  g_node G1 = range 1 (N + 1) ->
  run_simulation N kind ws f r = simulate_node_failure G1 f.
Proof.
  intros ET E1 Hn. unfold run_simulation. rewrite ET. cbn [bind]. rewrite E1.
  cbn [bind]. destruct (Z.eqb_spec f 0) as [->|Hf]; [|reflexivity].
  cbn [negb]. unfold simulate_node_failure, has_node.
  replace (memZ 0 (g_node G1)) with false; [reflexivity|].
  symmetry. apply memZ_not_In. rewrite Hn, range_In. lia.
Qed.

(** X4: with at least one wavelength selected the script raises nothing,
    whatever the node count, the kind string, the failed-node input and
    the draws.  The graph it hands to the plot has the nodes 1..N but the
    failed one, the links of the topology that do not touch the failed
    node, each carrying one of the selected wavelengths; a failed-node
    input outside 1..N (the sentinel 0 among them) removes nothing. *)
Theorem run_simulation_never_raises (N : Z) (kind : string) (ws : list label)
    (f : Z) (r : rand) :
  (1 <= List.length ws)%nat ->
  exists T G,
    create_topology N kind = Ok T
    /\ run_simulation N kind ws f r = Ok G
    /\ wf_graph G = true
    /\ nodes G = filter (fun m => negb (m =? f)) (range 1 (N + 1))
    /\ edges G = filter (avoids f) (edges T)
    /\ (forall u v, In (u, v) (edges G) -> labelled ws G u v)
    /\ (f < 1 \/ N < f -> nodes G = nodes T /\ edges G = edges T).
Proof.
  intros Hws. apply nonempty_length in Hws.
  destruct (create_topology_spec N kind) as [T [ET [HWT [HnT _]]]].
  destruct (assign_wavelengths_spec ws T r Hws HWT)
    as [G1 [r1 [E1 [HW1 [Hn1 [Ha1 Hl1]]]]]].
  assert (He1 : edges G1 = edges T) by (unfold edges; now rewrite Ha1).
  unfold nodes in HnT.
  rewrite (run_simulation_unfold N kind ws f r T G1 r1 ET E1) by congruence.
  destruct (simulate_node_failure_spec G1 f HW1)
    as [G [E [HW [Hn [He [_ [_ Habs]]]]]]].
  exists T, G. split; [exact ET|]. split; [assumption|].
  split; [now apply wf_graph_WF|]. split.
  { rewrite Hn. unfold nodes. now rewrite Hn1, HnT. }
  split; [now rewrite He, He1|]. split.
  - intros u v Huv. apply (failure_keeps_labels ws G1 G f); try assumption.
    apply Hl1. rewrite He in Huv. apply filter_In in Huv. exact (proj1 Huv).
  - intros Hf. rewrite Habs.
    + split; [unfold nodes; congruence | assumption].
    + unfold has_node. apply memZ_not_In. rewrite Hn1, HnT, range_In. lia.
Qed.

Lemma run_simulation_never_raises_witness :
  exists G,
    run_simulation 4 "Mesh" ["red"]%string 2 (fun k => k) = Ok G
    /\ nodes G = [1; 3; 4].
Proof.
  destruct (run_simulation_never_raises 4 "Mesh" ["red"]%string 2 (fun k => k)
              ltac:(simpl; lia)) as [T [G [_ [E [_ [Hn _]]]]]].
  exists G. split; [exact E | exact Hn].
Defined.

Lemma known_kind_links_1_2 (N : Z) (kind : string) :
  2 <= N -> known_kind kind = true ->
  In (1, 2) (map norm (topology_pairs N kind)).
Proof.
  intros HN Hk. apply norm_In. split; [lia|]. left.
  destruct (known_kind_pairs N kind Hk) as [E|[E|[E|E]]]; rewrite E.
  - apply ring_pairs_In. split; [lia|]. rewrite Z.mod_small by lia. reflexivity.
  - apply mesh_pairs_In. lia.
  - apply star_pairs_In. lia.
  - apply wrpon_pairs_In. left. split; [reflexivity|]. apply routers_In.
    Z.div_mod_to_equations. lia.
Qed.

(** X5: with no wavelength selected (the multiselect emptied) and two
    nodes or more, the script raises [IndexError] for each of the six
    kinds: every one of them links node 1 to node 2, and the first link
    visited draws from the empty list.  No graph reaches the plot. *)
Theorem run_simulation_no_wavelength (N : Z) (kind : string) (f : Z) (r : rand) :
  2 <= N -> known_kind kind = true ->
  (exists T, create_topology N kind = Ok T /\ In (1, 2) (edges T))
  /\ run_simulation N kind [] f r = Raise IndexError.
Proof.
  intros HN Hk. destruct (create_topology_spec N kind) as [T [ET [_ [_ [He _]]]]].
  assert (H12 : In (1, 2) (edges T)) by (apply He; now apply known_kind_links_1_2).
  split; [now exists T|].
  unfold run_simulation. rewrite ET. cbn [bind].
  rewrite assign_wavelengths_unfold.
  destruct (edges T) as [|[u v] es]; [destruct H12 | reflexivity].
Qed.

Lemma run_simulation_no_wavelength_witness :
  run_simulation 6 "Ring" [] 0 (fun _ => O) = Raise IndexError.
Proof.
  destruct (run_simulation_no_wavelength 6 "Ring" 0 (fun _ => O) ltac:(lia) eq_refl)
    as [_ H].
  exact H.
Defined.

(** ** The label of a link comes from its own round *)

Lemma same_pair_iff (a b u v : Z) :
  same_pair a b u v = true <-> (a = u /\ b = v) \/ (a = v /\ b = u).
Proof.
  unfold same_pair. rewrite orb_true_iff, !andb_true_iff, !Z.eqb_eq. reflexivity.
Qed.

Lemma add_edge_locs (u v : Z) (w : option label) (G : Graph) :
  WF G ->
  exists G' l,
    add_edge u v w G = Ok G'
    /\ (forall a b, adj_get2 (g_adj G') a b
                    = if same_pair a b u v then Some l else adj_get2 (g_adj G) a b)
    /\ (adj_get2 (g_adj G) u v = Some l
        \/ (adj_get2 (g_adj G) u v = None /\ l = List.length (g_data G))).
Proof.
  intros HW0. unfold add_edge.
  assert (Hget0 : forall a b, adj_get2 (g_adj (add_node v (add_node u G))) a b
                              = adj_get2 (g_adj G) a b).
  { intros a b. rewrite add_node_get2 by now apply add_node_WF.
    now apply add_node_get2. }
  assert (Hdata0 : g_data (add_node v (add_node u G)) = g_data G)
    by now rewrite !add_node_data.
  assert (HW : WF (add_node v (add_node u G))) by now do 2 apply add_node_WF.
  assert (Hu : In u (g_node (add_node v (add_node u G)))).
  { apply add_node_In. right. apply add_node_In. now left. }
  assert (Hv : In v (g_node (add_node v (add_node u G)))).
  { apply add_node_In. now left. }
  set (G1 := add_node v (add_node u G)) in *.
  rewrite <- (wf_keys G1 HW) in Hu, Hv.
  pose proof (Hget0 u v) as Huv. unfold adj_get2 at 1 in Huv.
  unfold dict_getitem.
  destruct (dict_get u (g_adj G1)) as [nb|] eqn:Hnb.
  2:{ apply dict_get_None in Hnb. contradiction. }
  cbn [bind].
  assert (Hl : exists l data,
             match dict_get v nb with
             | Some l => (l, store_set l (mkData w) (g_data G1))
             | None => (List.length (g_data G1), g_data G1 ++ [mkData w])
             end = (l, data)
             /\ (adj_get2 (g_adj G) u v = Some l
                 \/ (adj_get2 (g_adj G) u v = None /\ l = List.length (g_data G)))).
  { destruct (dict_get v nb) as [l|].
    - exists l, (store_set l (mkData w) (g_data G1)). split; [reflexivity|].
      left. now symmetry.
    - exists (List.length (g_data G1)), (g_data G1 ++ [mkData w]).
      split; [reflexivity|]. right. split; [now symmetry | now rewrite Hdata0]. }
  destruct Hl as [l [data [-> Hl]]].
  destruct (adj_setitem_spec u v l (g_adj G1) Hu) as [adj1 [-> [Hk1 [Hg1 _]]]].
  cbn [bind]. rewrite <- Hk1 in Hv.
  destruct (adj_setitem_spec v u l adj1 Hv) as [adj2 [-> [_ [Hg2 _]]]].
  cbn [bind]. eexists. exists l. split; [reflexivity|]. split; [|assumption].
  intros a b. cbn [g_adj]. rewrite Hg2, Hg1, Hget0. unfold same_pair.
  destruct (a =? v), (b =? u), (a =? u), (b =? v); reflexivity.
Qed.

Lemma add_edge_LocInj (u v : Z) (w : option label) (G G' : Graph) :
  WF G -> LocInj G -> add_edge u v w G = Ok G' -> LocInj G'.
Proof.
  intros HW HI E. destruct (add_edge_locs u v w G HW) as [G2 [l [E2 [Hg Hl]]]].
  rewrite E in E2. inversion E2; subst G2. clear E2.
  assert (Hfresh : forall c d, adj_get2 (g_adj G) c d = Some l ->
                               same_pair c d u v = true).
  { intros c d Hcd. destruct Hl as [Hl|[_ Hl]].
    - apply (HI c d u v l); assumption.
    - apply (wf_sym G HW) in Hcd. lia. }
  intros a b c d l0. rewrite !Hg.
  destruct (same_pair a b u v) eqn:Hab, (same_pair c d u v) eqn:Hcd.
  - intros _ _. apply same_pair_iff in Hab, Hcd. apply same_pair_iff.
    destruct Hab as [[-> ->]|[-> ->]], Hcd as [[-> ->]|[-> ->]]; auto.
  - intros [= <-] H. apply Hfresh in H. congruence.
  - intros H [= <-]. apply Hfresh in H. congruence.
  - apply HI.
Qed.

Lemma add_edges_LocInj (ps : list (Z * Z)) (G G' : Graph) :
  WF G -> LocInj G -> add_edges ps G = Ok G' -> LocInj G'.
Proof.
  revert G. induction ps as [|[u v] ps IH]; intros G HW HI E.
  - inversion E. now subst.
  - unfold add_edges in E. cbn [for_each fst snd] in E.
    destruct (add_edge_spec u v None G HW) as [G1 [E1 [HW1 _]]].
    rewrite E1 in E. cbn [bind] in E.
    apply (IH G1); [assumption | | exact E].
    now apply (add_edge_LocInj u v None G G1).
Qed.

Lemma create_topology_LocInj (N : Z) (kind : string) (G : Graph) :
  create_topology N kind = Ok G -> LocInj G.
Proof.
  rewrite create_topology_pairs, add_nodes_from_range.
  apply add_edges_LocInj.
  - apply isolated_nodes_WF, range_NoDup.
  - intros a b c d l H. apply (f_equal (fun o => match o with Some _ => true | None => false end)) in H.
    rewrite <- has_edge_get2_eq, isolated_nodes_has_edge in H. discriminate H.
Qed.

Lemma edges_both_orientations (G : Graph) (a b : Z) :
  WF G -> In (a, b) (edges G) -> In (b, a) (edges G) -> a = b.
Proof.
  intros HW H1 H2. apply (edges_spec G) in H1, H2; try assumption.
  destruct H1 as [He H1], H2 as [_ H2].
  apply (idx_inj a b (g_node G)); [|lia].
  now apply (has_edge_nodes G a b HW).
Qed.

Lemma edges_locs_NoDup (G : Graph) :
  WF G -> LocInj G ->
  NoDup (map (fun p => adj_get2 (g_adj G) (fst p) (snd p)) (edges G)).
Proof.
  intros HW HI. apply Injective_map_NoDup_in; [|now apply edges_NoDup].
  intros [a b] [c d] Hx Hy. cbn [fst snd]. intros Heq.
  pose proof Hx as Hx'. apply (edges_spec G a b HW) in Hx'. destruct Hx' as [Hx' _].
  apply has_edge_get2 in Hx'. destruct Hx' as [l Hl]. rewrite Hl in Heq.
  symmetry in Heq. apply (HI a b c d l Hl), same_pair_iff in Heq.
  destruct Heq as [[-> ->]|[-> ->]]; [reflexivity|].
  assert (c = d) by (apply (edges_both_orientations G); assumption).
  now subst.
Qed.

Lemma random_choice_drawn (ws : list label) (r : rand) :
  ws <> [] -> random_choice ws r = Ok (drawn ws r O, fun k => r (S k)).
Proof.
  intros H. destruct ws as [|w0 ws]; [congruence|]. unfold random_choice, drawn.
  do 2 f_equal. apply nth_indep. apply Nat.mod_upper_bound. simpl. lia.
Qed.

(** The loop of [assign_wavelengths] over links with different data
    dicts: link [k] ends with the label of call [k], the other data dicts
    are as before, and the random source has moved by one call per link. *)
Lemma assign_loop_draws (ws : list label) (es : list (Z * Z)) (G : Graph) (r : rand) :
  ws <> [] -> WF G ->
  (forall u v, In (u, v) es -> has_edge G u v = true) ->
  NoDup (map (fun p => adj_get2 (g_adj G) (fst p) (snd p)) es) ->
  exists G',
    for_each es (assign_step ws) (G, r)
    = Ok (G', fun k => r (List.length es + k)%nat)
    /\ g_adj G' = g_adj G
    /\ (forall k u v l, nth_error es k = Some (u, v) ->
                        adj_get2 (g_adj G) u v = Some l ->
                        nth_error (g_data G') l = Some (mkData (Some (drawn ws r k))))
    /\ (forall l, ~ In (Some l) (map (fun p => adj_get2 (g_adj G) (fst p) (snd p)) es) ->
                  nth_error (g_data G') l = nth_error (g_data G) l).
Proof.
  intros Hws. revert G r. induction es as [|[u v] es IH]; intros G r HW Hes Hnd.
  - exists G. split; [reflexivity|]. split; [reflexivity|]. split; [|reflexivity].
    intros [|k] a b l H; discriminate H.
  - cbn [for_each assign_step]. rewrite (random_choice_drawn ws r Hws). cbn [bind].
    destruct (set_wavelength_spec G u v (Some (drawn ws r O)) HW) as [l0 [Hl0 [Hlt ->]]].
    { apply Hes. now left. }
    cbn [bind].
    set (G1 := mkGraph (g_node G) (g_adj G)
                 (store_set l0 (mkData (Some (drawn ws r O))) (g_data G))).
    assert (HW1 : WF G1) by (apply WF_set_data; [assumption | apply store_set_length]).
    cbn [map fst snd] in Hnd. inversion Hnd as [|? ? Hhead Htail]; subst.
    destruct (IH G1 (fun k => r (S k)) HW1) as [G' [E [Ha [Hk Hother]]]].
    { intros a b Hab. rewrite has_edge_get2_eq. cbn [g_adj G1].
      rewrite <- has_edge_get2_eq. apply Hes. now right. }
    { exact Htail. }
    exists G'. split; [exact E|]. split; [exact Ha|]. split.
    + intros [|k] a b l Hnth Hl.
      * cbn [nth_error] in Hnth. inversion Hnth; subst a b.
        rewrite Hl0 in Hl. inversion Hl; subst l.
        rewrite Hother by (rewrite <- Hl0; exact Hhead).
        cbn [g_data G1]. rewrite store_set_nth by assumption.
        now rewrite Nat.eqb_refl.
      * cbn [nth_error] in Hnth. apply (Hk k a b l Hnth Hl).
    + intros l Hl. cbn [map fst snd] in Hl.
      rewrite Hother by (intros H; apply Hl; now right).
      cbn [g_data G1]. rewrite store_set_nth by assumption.
      destruct (Nat.eqb_spec l l0) as [->|Hne]; [|reflexivity].
      exfalso. apply Hl. left. exact Hl0.
Qed.

Lemma drawn_In (ws : list label) (r : rand) (k : nat) : ws <> [] -> In (drawn ws r k) ws.
Proof.
  intros H. unfold drawn. apply nth_In. apply Nat.mod_upper_bound.
  destruct ws; [congruence | simpl; lia].
Qed.

(** X6: on a graph built by [create_topology], every link ends with the
    label that [random.choice] returned in the link's own round of the
    loop of [assign_wavelengths], read from either endpoint: each round
    writes the data dict of its own link only, so no later round changes
    the label of an earlier link. *)
Theorem label_from_own_round (N : Z) (kind : string) (ws : list label) (r : rand) :
  (1 <= List.length ws)%nat ->
  exists T G' r',
    create_topology N kind = Ok T
    /\ assign_wavelengths T ws r = Ok (G', r')
    /\ (forall es1 u v es2,
           edges T = es1 ++ (u, v) :: es2 ->
           exists G1 r1 w r2,
             for_each es1 (assign_step ws) (T, r) = Ok (G1, r1)
             /\ random_choice ws r1 = Ok (w, r2)
             /\ In w ws
             /\ edge_data G' u v = Ok (mkData (Some w))
             /\ edge_data G' v u = Ok (mkData (Some w))).
Proof.
  intros Hws. apply nonempty_length in Hws.
  destruct (create_topology_spec N kind) as [T [ET [HWT _]]].
  pose proof (create_topology_LocInj N kind T ET) as HI.
  pose proof (edges_locs_NoDup T HWT HI) as Hnd.
  assert (Hedge : forall u v, In (u, v) (edges T) -> has_edge T u v = true).
  { intros u v H. now apply (edges_spec T u v HWT) in H. }
  destruct (assign_loop_draws ws (edges T) T r Hws HWT Hedge Hnd)
    as [G' [E [Ha [Hk _]]]].
  exists T, G'. eexists. split; [exact ET|]. split.
  { rewrite assign_wavelengths_unfold. exact E. }
  intros es1 u v es2 Hsplit.
  destruct (assign_loop_draws ws es1 T r Hws HWT) as [G1 [E1 _]].
  { intros a b H. apply Hedge. rewrite Hsplit. apply in_or_app. now left. }
  { rewrite Hsplit, map_app in Hnd. now apply NoDup_app_remove_r in Hnd. }
  exists G1. do 3 eexists. split; [exact E1|].
  split; [now apply random_choice_drawn|]. split; [now apply drawn_In|].
  assert (Hnth : nth_error (edges T) (List.length es1) = Some (u, v)).
  { rewrite Hsplit, nth_error_app2, Nat.sub_diag by lia. reflexivity. }
  assert (Hin : In (u, v) (edges T)) by (eapply nth_error_In; eassumption).
  apply Hedge, has_edge_get2 in Hin. destruct Hin as [l Hl].
  replace (drawn ws (fun k => r (List.length es1 + k)%nat) O)
    with (drawn ws r (List.length es1))
    by (unfold drawn; now rewrite Nat.add_0_r).
  rewrite (edge_data_get2 G' u v l), (edge_data_get2 G' v u l).
  - rewrite (Hk (List.length es1) u v l Hnth Hl). now split.
  - rewrite Ha. now apply (wf_sym T HWT).
  - now rewrite Ha.
Qed.

Lemma label_from_own_round_witness :
  exists T G' r',
    create_topology 3 "Ring" = Ok T
    /\ assign_wavelengths T ["red"; "green"]%string (fun k => k) = Ok (G', r')
    /\ edge_data G' 1 3 = Ok (mkData (Some "green"%string)).
Proof.
  destruct (label_from_own_round 3 "Ring" ["red"; "green"]%string (fun k => k)
              ltac:(simpl; lia)) as [T [G' [r' [ET [E H]]]]].
  exists T, G', r'. split; [exact ET|]. split; [exact E|].
  assert (He : edges T = [(1, 2)] ++ (1, 3) :: [(2, 3)]).
  { vm_compute in ET. inversion ET. reflexivity. }
  destruct (H _ _ _ _ He) as [G1 [r1 [w [r2 [E1 [Hc [_ [Hd _]]]]]]]].
  rewrite Hd. vm_compute in ET. inversion ET; subst T.
  vm_compute in E1. inversion E1; subst G1 r1.
  vm_compute in Hc. inversion Hc. reflexivity.
Defined.

(** ** Node failure: what is removed, and in which order *)

Lemma without_node_absent (G : Graph) (v : Z) :
  WF G -> ~ In v (g_node G) -> without_node v G = G.
Proof.
  intros HW Hv. unfold without_node. rewrite filter_out_absent by assumption.
  assert (Hadj : adj_without v (g_adj G) = g_adj G).
  { unfold adj_without.
    assert (Hmap : map (fun e => (fst e, dict_remove v (snd e))) (g_adj G) = g_adj G).
    { rewrite <- (map_id (g_adj G)) at 2. apply map_ext_in. intros [u nb] Hin.
      cbn [fst snd]. f_equal. apply dict_remove_absent. intros Hvn.
      apply dict_mem_In in Hvn. unfold dict_mem in Hvn.
      destruct (dict_get v nb) as [l|] eqn:Hl; [|discriminate].
      apply In_dict_get in Hin.
      2:{ rewrite (wf_keys G HW). apply (wf_nodup G HW). }
      destruct (WF_get2_nodes G u v l HW) as [_ H]; [|contradiction].
      unfold adj_get2. now rewrite Hin. }
    rewrite Hmap. apply dict_remove_absent. now rewrite (wf_keys G HW). }
  rewrite Hadj. now destruct G.
Qed.

Lemma simulate_node_failure_without (G : Graph) (v : Z) :
  WF G -> simulate_node_failure G v = Ok (without_node v G).
Proof.
  intros HW. unfold simulate_node_failure, has_node.
  destruct (memZ v (g_node G)) eqn:Hv.
  - apply memZ_In in Hv. now apply remove_node_spec.
  - apply memZ_not_In in Hv. now rewrite without_node_absent.
Qed.

Lemma without_node_WF (G : Graph) (v : Z) : WF G -> WF (without_node v G).
Proof. apply remove_node_WF. Qed.

Lemma NoDup_map_filter {A B : Type} (g : A -> B) (f : A -> bool) (l : list A) :
  NoDup (map g l) -> NoDup (map g (filter f l)).
Proof.
  induction l as [|x l IH]; simpl; intros H; [constructor|].
  inversion H as [|? ? Hx Hl]; subst. destruct (f x); simpl.
  - constructor; [|now apply IH]. intros Hin. apply Hx.
    apply in_map_iff in Hin. destruct Hin as [y [Hy Hin]].
    apply filter_In in Hin. rewrite <- Hy. apply in_map. tauto.
  - now apply IH.
Qed.

Lemma neighbors_In (G : Graph) (v w : Z) :
  In w (neighbors G v) <-> has_edge G v w = true.
Proof.
  unfold neighbors, has_edge. destruct (dict_get v (g_adj G)) as [nb|].
  - symmetry. apply dict_mem_In.
  - simpl. split; [tauto | discriminate].
Qed.

Lemma neighbors_NoDup (G : Graph) (v : Z) : WF G -> NoDup (neighbors G v).
Proof.
  intros HW. unfold neighbors. destruct (dict_get v (g_adj G)) as [nb|] eqn:H.
  - eapply (wf_inner G HW); eassumption.
  - constructor.
Qed.

(** The links that touch [v] are as many as the neighbours of [v]. *)
Lemma incident_links_length (G : Graph) (v : Z) :
  WF G ->
  List.length (filter (fun p => negb (avoids v p)) (edges G))
  = List.length (neighbors G v).
Proof.
  intros HW.
  rewrite <- (length_map norm), <- (length_map (fun w => norm (v, w)) (neighbors G v)).
  apply Permutation_length, NoDup_Permutation.
  - apply NoDup_map_filter. now apply WF_no_parallel_links.
  - apply Injective_map_NoDup_in; [|now apply neighbors_NoDup].
    intros x y _ _ H. apply norm_eq in H. destruct H as [H|H]; inversion H; congruence.
  - intros [a b]. rewrite norm_In, in_map_iff.
    assert (Hinc : forall x y,
               In (x, y) (filter (fun p => negb (avoids v p)) (edges G))
               <-> In (x, y) (edges G) /\ (x = v \/ y = v)).
    { intros x y. rewrite filter_In. unfold avoids. cbn [fst snd].
      destruct (Z.eqb_spec x v), (Z.eqb_spec y v); simpl; intuition congruence. }
    rewrite !Hinc. split.
    + intros [Hle Hl].
      assert (Hlk : linked G a b /\ (a = v \/ b = v)) by (unfold linked; tauto).
      destruct Hlk as [Hlk Hv]. apply (linked_has_edge G a b HW) in Hlk.
      destruct Hv as [->| ->].
      * exists b. split; [|now apply neighbors_In].
        unfold norm. cbn [fst snd]. destruct (Z.leb_spec v b); [reflexivity | lia].
      * exists a. split; [|apply neighbors_In; now apply has_edge_sym].
        unfold norm. cbn [fst snd]. destruct (Z.leb_spec v a); [|reflexivity].
        replace a with v by lia. reflexivity.
    + intros [w [Hn Hw]]. apply neighbors_In in Hw.
      apply (linked_has_edge G v w HW) in Hw. unfold linked in Hw.
      unfold norm in Hn. cbn [fst snd] in Hn.
      destruct (Z.leb_spec v w); inversion Hn; subst; split; try lia; tauto.
Qed.

(** X7: failing a present node removes as many links as the node has
    neighbours (a self-loop counts once), and one node. *)
Theorem failure_removes_degree (G : Graph) (v : Z) :
  wf_graph G = true -> has_node v G = true ->
  exists G',
    simulate_node_failure G v = Ok G'
    /\ (List.length (edges G') + List.length (neighbors G v))%nat
       = List.length (edges G)
    /\ S (List.length (nodes G')) = List.length (nodes G).
Proof.
  intros Hwf Hv. apply wf_graph_WF in Hwf.
  rewrite (simulate_node_failure_without G v Hwf). eexists. split; [reflexivity|].
  unfold without_node at 1. rewrite (remove_node_edges G v Hwf).
  rewrite <- (incident_links_length G v Hwf). split.
  - apply filter_length.
  - unfold nodes, without_node. cbn [g_node].
    apply filter_out_length; [apply (wf_nodup G Hwf) | now apply memZ_In].
Qed.

Lemma failure_removes_degree_witness :
  let G := mkGraph [1; 2; 3] [(1, [(2, O)]); (2, [(1, O); (3, 1%nat)]); (3, [(2, 1%nat)])]
             [mkData None; mkData None] in
  exists G', simulate_node_failure G 2 = Ok G'
             /\ (List.length (edges G') + 2)%nat = 2%nat.
Proof.
  intros G. destruct (failure_removes_degree G 2 eq_refl eq_refl) as [G' [E [H _]]].
  exists G'. split; [exact E | exact H].
Defined.

Lemma dict_remove_filter {V : Type} (k : Z) (d : dict V) :
  NoDup (keys d) -> dict_remove k d = filter (fun e => negb (fst e =? k)) d.
Proof.
  induction d as [|[k0 v0] d IH]; simpl; [reflexivity|].
  intros Hnd. inversion Hnd as [|? ? Hk0 Hd]; subst.
  destruct (Z.eqb_spec k k0) as [->|Hne].
  - rewrite Z.eqb_refl. simpl. symmetry. apply forallb_filter_id, forallb_forall.
    intros [k1 v1] Hin. cbn [fst]. apply negb_true_iff, Z.eqb_neq. intros ->.
    apply Hk0. change k0 with (fst (k0, v1)). now apply in_map.
  - destruct (Z.eqb_spec k0 k); [congruence|]. simpl. f_equal. now apply IH.
Qed.

Lemma filter_comm {A : Type} (f g : A -> bool) (l : list A) :
  filter f (filter g l) = filter g (filter f l).
Proof.
  induction l as [|x l IH]; simpl; [reflexivity|].
  destruct (g x) eqn:Hg, (f x) eqn:Hf; simpl; rewrite ?Hg, ?Hf, IH; reflexivity.
Qed.

Lemma adj_without_filter (v : Z) (adj : dict (dict loc)) :
  NoDup (keys adj) ->
  (forall u nb, In (u, nb) adj -> NoDup (keys nb)) ->
  adj_without v adj
  = filter (fun e => negb (fst e =? v))
      (map (fun e => (fst e, filter (fun e' => negb (fst e' =? v)) (snd e))) adj).
Proof.
  intros Hnd Hin. unfold adj_without.
  rewrite dict_remove_filter by now rewrite keys_map_snd.
  f_equal. apply map_ext_in. intros [u nb] Hu. cbn [fst snd]. f_equal.
  apply dict_remove_filter. eapply Hin; eassumption.
Qed.

Lemma adj_filter_comm (u v : Z) (adj : dict (dict loc)) :
  filter (fun e => negb (fst e =? v))
    (map (fun e => (fst e, filter (fun e' => negb (fst e' =? v)) (snd e)))
       (filter (fun e => negb (fst e =? u))
          (map (fun e => (fst e, filter (fun e' => negb (fst e' =? u)) (snd e))) adj)))
  = filter (fun e => negb (fst e =? u))
      (map (fun e => (fst e, filter (fun e' => negb (fst e' =? u)) (snd e)))
         (filter (fun e => negb (fst e =? v))
            (map (fun e => (fst e, filter (fun e' => negb (fst e' =? v)) (snd e))) adj))).
Proof.
  induction adj as [|[k nb] adj IH]; [reflexivity|].
  cbn [map filter fst snd].
  destruct (k =? u) eqn:Hu, (k =? v) eqn:Hv; cbn [negb map filter fst snd];
    rewrite ?Hu, ?Hv; cbn [negb]; rewrite IH; try reflexivity.
  f_equal. f_equal. apply filter_comm.
Qed.

Lemma WF_adj_NoDup (G : Graph) :
  WF G ->
  NoDup (keys (g_adj G))
  /\ (forall u nb, In (u, nb) (g_adj G) -> NoDup (keys nb)).
Proof.
  intros HW.
  assert (Hnd : NoDup (keys (g_adj G))).
  { rewrite (wf_keys G HW). apply (wf_nodup G HW). }
  split; [assumption|]. intros u nb H. apply (wf_inner G HW u).
  now apply In_dict_get.
Qed.

Lemma without_node_comm (G : Graph) (u v : Z) :
  WF G -> without_node v (without_node u G) = without_node u (without_node v G).
Proof.
  intros HW. unfold without_node at 1 3. cbn [g_node g_adj g_data without_node].
  f_equal.
  - apply filter_comm.
  - destruct (WF_adj_NoDup G HW) as [H1 H2].
    destruct (WF_adj_NoDup _ (without_node_WF G u HW)) as [H3 H4].
    destruct (WF_adj_NoDup _ (without_node_WF G v HW)) as [H5 H6].
    cbn [without_node g_adj] in H3, H4, H5, H6.
    rewrite (adj_without_filter v (adj_without u (g_adj G)) H3 H4).
    rewrite (adj_without_filter u (adj_without v (g_adj G)) H5 H6).
    rewrite (adj_without_filter u (g_adj G) H1 H2).
    rewrite (adj_without_filter v (g_adj G) H1 H2).
    apply adj_filter_comm.
Qed.

(** X8: two failures commute: failing [u] and then [v] returns the very
    graph that failing [v] and then [u] returns, whether or not the nodes
    are present, linked or the same. *)
Theorem failures_commute (G : Graph) (u v : Z) :
  wf_graph G = true ->
  (G1 <- simulate_node_failure G u ;; simulate_node_failure G1 v)
  = (G1 <- simulate_node_failure G v ;; simulate_node_failure G1 u)
  /\ exists G2, (G1 <- simulate_node_failure G u ;; simulate_node_failure G1 v) = Ok G2.
Proof.
  intros Hwf. apply wf_graph_WF in Hwf.
  rewrite (simulate_node_failure_without G u Hwf),
    (simulate_node_failure_without G v Hwf). cbn [bind].
  rewrite (simulate_node_failure_without _ v (without_node_WF G u Hwf)),
    (simulate_node_failure_without _ u (without_node_WF G v Hwf)).
  split; [now rewrite without_node_comm | eexists; reflexivity].
Qed.

Lemma failures_commute_witness :
  let G := mkGraph [1; 2; 3] [(1, [(2, O)]); (2, [(1, O); (3, 1%nat)]); (3, [(2, 1%nat)])]
             [mkData None; mkData None] in
  (G1 <- simulate_node_failure G 1 ;; simulate_node_failure G1 2)
  = (G1 <- simulate_node_failure G 2 ;; simulate_node_failure G1 1).
Proof.
  intros G. destruct (failures_commute G 1 2 eq_refl) as [H _]. exact H.
Defined.

(** ** A failed node in each wiring *)

Lemma topology_neighbors (N : Z) (kind : string) (T : Graph) (v w : Z) :
  create_topology N kind = Ok T ->
  In w (neighbors T v) <-> In (v, w) (edges T) \/ In (w, v) (edges T).
Proof.
  intros E. destruct (create_topology_edges N kind T E) as [HW _].
  rewrite neighbors_In. symmetry. apply (linked_has_edge T v w HW).
Qed.

(** The links left by a failure in a built topology. *)
Lemma topology_failure (N : Z) (kind : string) (T : Graph) (v : Z) :
  create_topology N kind = Ok T -> 1 <= v <= N ->
  simulate_node_failure T v = Ok (without_node v T)
  /\ WF (without_node v T)
  /\ nodes (without_node v T) = filter (fun m => negb (m =? v)) (range 1 (N + 1))
  /\ Z.of_nat (List.length (nodes (without_node v T))) = N - 1
  /\ edges (without_node v T) = filter (avoids v) (edges T)
  /\ (List.length (edges (without_node v T)) + List.length (neighbors T v))%nat
     = List.length (edges T).
Proof.
  intros E Hv. destruct (create_topology_edges N kind T E) as [HW [Hn _]].
  unfold nodes in Hn.
  split; [now apply simulate_node_failure_without|].
  split; [now apply without_node_WF|].
  split; [unfold nodes, without_node; cbn [g_node]; now rewrite Hn|].
  split.
  { unfold nodes, without_node. cbn [g_node].
    pose proof (filter_out_length v (g_node T) (wf_nodup T HW)) as Hl.
    rewrite Hn in Hl at 1. rewrite Hn, range_length in Hl.
    rewrite Hn. specialize (Hl ltac:(apply range_In; lia)). lia. }
  split; [now apply remove_node_edges|].
  unfold without_node at 1. rewrite (remove_node_edges T v HW).
  rewrite <- (incident_links_length T v HW). apply filter_length.
Qed.

Lemma path_links_adjacent (l1 l2 : list Z) (a b : Z) :
  In (a, b) (path_links (l1 ++ a :: b :: l2)).
Proof.
  unfold path_links. induction l1 as [|x l1 IH]; [simpl; now left|].
  destruct l1 as [|y l1]; simpl in IH |- *; right; exact IH.
Qed.

Lemma path_links_length (p : list Z) :
  List.length (path_links p) = Nat.pred (List.length p).
Proof.
  unfold path_links. rewrite length_combine. destruct p as [|x p]; [reflexivity|].
  cbn [tl List.length Nat.pred]. apply Nat.min_r. lia.
Qed.

Lemma range_adjacent (lo hi i : Z) :
  lo <= i -> i + 1 < hi ->
  range lo hi = range lo i ++ i :: (i + 1) :: range (i + 2) hi.
Proof.
  intros H1 H2. rewrite (range_app lo i hi) by lia. f_equal.
  rewrite (range_cons i hi), (range_cons (i + 1) hi) by lia.
  now replace (i + 1 + 1) with (i + 2) by lia.
Qed.

Lemma ring_neighbors_length (N : Z) (T : Graph) (v : Z) :
  3 <= N -> 1 <= v <= N -> create_topology N "Ring" = Ok T ->
  List.length (neighbors T v) = 2%nat.
Proof.
  intros HN Hv E. destruct (create_topology_edges N "Ring" T E) as [HW _].
  destruct (ring_topology N T HN E) as [_ [_ He]].
  change 2%nat
    with (List.length [(if v =? 1 then N else v - 1); (if v =? N then 1 else v + 1)]).
  apply Permutation_length, NoDup_Permutation.
  - now apply neighbors_NoDup.
  - destruct (Z.eqb_spec v 1), (Z.eqb_spec v N);
      repeat constructor; simpl; intuition lia.
  - intros w. rewrite (topology_neighbors N "Ring" T v w E), !He. simpl.
    destruct (Z.eqb_spec v 1), (Z.eqb_spec v N); lia.
Qed.

(** X9: Ring on N >= 3 nodes with any one node failed is one path through
    the N-1 other nodes: N-2 links, those of the path that starts after
    the failed node and goes round to the node before it. *)
Theorem ring_failure_leaves_path (N v : Z) :
  3 <= N -> 1 <= v <= N ->
  exists T G,
    create_topology N "Ring" = Ok T
    /\ simulate_node_failure T v = Ok G
    /\ Z.of_nat (List.length (nodes G)) = N - 1
    /\ Z.of_nat (List.length (edges G)) = N - 2
    /\ single_path G
    /\ Permutation (map norm (path_links (range (v + 1) (N + 1) ++ range 1 v)))
         (edges G).
Proof.
  intros HN Hv. destruct (create_topology_spec N "Ring") as [T [E _]].
  destruct (create_topology_edges N "Ring" T E) as [HW _].
  destruct (ring_topology N T HN E) as [HlT [_ He]].
  destruct (topology_failure N "Ring" T v E Hv) as [Es [HWG [Hn [Hnl [Hed Hdeg]]]]].
  rewrite (ring_neighbors_length N T v HN Hv E) in Hdeg.
  set (G := without_node v T) in *.
  set (p := range (v + 1) (N + 1) ++ range 1 v).
  assert (Hlen : Z.of_nat (List.length (edges G)) = N - 2) by lia.
  assert (Hperm : Permutation (map norm (path_links p)) (edges G)).
  { apply Permutation_sym, NoDup_Permutation_bis.
    - now apply edges_NoDup.
    - rewrite length_map, path_links_length. unfold p.
      rewrite length_app, !range_length. lia.
    - intros [a b] Hab. rewrite Hed in Hab. apply filter_In in Hab.
      destruct Hab as [Hab Hav]. apply He in Hab.
      unfold avoids in Hav. cbn [fst snd] in Hav. apply andb_true_iff in Hav.
      rewrite !negb_true_iff, !Z.eqb_neq in Hav. destruct Hav as [Ha Hb].
      apply norm_In. unfold p.
      destruct Hab as [[H1 [-> H2]]|[-> ->]].
      + split; [lia|]. left.
        destruct (Z.lt_ge_cases v a) as [Hlt|Hge].
        * rewrite (range_adjacent (v + 1) (N + 1) a) by lia.
          rewrite <- app_assoc. cbn [app]. apply path_links_adjacent.
        * rewrite (range_adjacent 1 v a) by lia.
          rewrite app_assoc. apply path_links_adjacent.
      + split; [lia|]. right.
        rewrite (range_app (v + 1) N (N + 1)) by lia.
        rewrite (range_cons N (N + 1)), (range_nil (N + 1) (N + 1)) by lia.
        rewrite (range_cons 1 v) by lia.
        rewrite <- app_assoc. cbn [app]. apply path_links_adjacent. }
  exists T, G. split; [exact E|]. split; [exact Es|]. split; [exact Hnl|].
  split; [exact Hlen|]. split; [|exact Hperm].
  exists p. split; [|split].
  - rewrite Hn. apply NoDup_Permutation.
    + unfold p. apply NoDup_app; try apply range_NoDup.
      intros x. rewrite !range_In. lia.
    + apply NoDup_filter, range_NoDup.
    + intros x. unfold p. rewrite in_app_iff, filter_In, !range_In.
      destruct (Z.eqb_spec x v); simpl; intuition lia.
  - unfold p. apply NoDup_app; try apply range_NoDup.
    intros x. rewrite !range_In. lia.
  - replace (map norm (edges G)) with (edges G); [exact Hperm|].
    symmetry. apply map_norm_id. intros a b Hab. rewrite Hed in Hab.
    apply filter_In in Hab. destruct Hab as [Hab _]. apply He in Hab. lia.
Qed.

Lemma ring_failure_leaves_path_witness :
  exists T G,
    create_topology 6 "Ring" = Ok T /\ simulate_node_failure T 3 = Ok G
    /\ Z.of_nat (List.length (edges G)) = 4.
Proof.
  destruct (ring_failure_leaves_path 6 3 ltac:(lia) ltac:(lia))
    as [T [G [E [Es [_ [Hl _]]]]]].
  exists T, G. split; [exact E|]. split; [exact Es | exact Hl].
Defined.

(** X10: Mesh with any one node failed is the Mesh on the N-1 other
    nodes: every pair of remaining nodes is still linked, (N-1)(N-2)/2
    links in all. *)
Theorem mesh_failure_leaves_mesh (N v : Z) :
  1 <= v <= N ->
  exists T G,
    create_topology N "Mesh" = Ok T
    /\ simulate_node_failure T v = Ok G
    /\ Z.of_nat (List.length (nodes G)) = N - 1
    /\ (forall i j, In (i, j) (edges G)
                    <-> 1 <= i /\ i < j /\ j <= N /\ i <> v /\ j <> v)
    /\ Z.of_nat (List.length (edges G)) = (N - 1) * (N - 2) / 2.
Proof.
  intros Hv. destruct (create_topology_spec N "Mesh") as [T [E _]].
  destruct (create_topology_edges N "Mesh" T E) as [HW _].
  destruct (mesh_topology N T ltac:(lia) E) as [HlT He].
  destruct (topology_failure N "Mesh" T v E Hv) as [Es [HWG [Hn [Hnl [Hed Hdeg]]]]].
  exists T, (without_node v T). split; [exact E|]. split; [exact Es|].
  split; [exact Hnl|]. split.
  - intros i j. rewrite Hed, filter_In, He. unfold avoids. cbn [fst snd].
    destruct (Z.eqb_spec i v), (Z.eqb_spec j v); simpl; intuition lia.
  - assert (Hnb : Z.of_nat (List.length (neighbors T v)) = N - 1).
    { rewrite <- Hnl, Hn. f_equal. apply Permutation_length, NoDup_Permutation.
      - now apply neighbors_NoDup.
      - apply NoDup_filter, range_NoDup.
      - intros w. rewrite (topology_neighbors N "Mesh" T v w E), !He.
        rewrite filter_In, range_In.
        destruct (Z.eqb_spec w v); simpl; intuition lia. }
    assert (HT : Z.of_nat (List.length (edges T)) = N * (N - 1) / 2).
    { rewrite HlT. apply Z2Nat.id. apply Z.div_pos; nia. }
    assert (Hring : (N - 1) * (N - 2) = N * (N - 1) - 2 * (N - 1)) by ring.
    rewrite Hring. Z.div_mod_to_equations. lia.
Qed.

Lemma mesh_failure_leaves_mesh_witness :
  exists T G,
    create_topology 5 "Mesh" = Ok T /\ simulate_node_failure T 2 = Ok G
    /\ Z.of_nat (List.length (edges G)) = 6.
Proof.
  destruct (mesh_failure_leaves_mesh 5 2 ltac:(lia)) as [T [G [E [Es [_ [_ Hl]]]]]].
  exists T, G. split; [exact E|]. split; [exact Es | exact Hl].
Defined.

(** X11: in Star, PON and Broadcast Select PON the failure of node 1 (the
    hub, the OLT) removes every link: the nodes 2..N are left with no
    link.  The failure of any other node removes its one link and leaves
    the star on the rest, N-2 links at node 1. *)
Theorem star_failure (N v : Z) (kind : string) :
  In kind ["Star"; "PON"; "Broadcast Select PON"]%string -> 1 <= v <= N ->
  exists T G,
    create_topology N kind = Ok T
    /\ simulate_node_failure T v = Ok G
    /\ (v = 1 -> nodes G = range 2 (N + 1) /\ edges G = [])
    /\ (v <> 1 ->
        (forall a b, In (a, b) (edges G) <-> a = 1 /\ 2 <= b <= N /\ b <> v)
        /\ Z.of_nat (List.length (edges G)) = N - 2).
Proof.
  intros Hk Hv. destruct (create_topology_spec N kind) as [T [E _]].
  destruct (create_topology_edges N kind T E) as [HW _].
  destruct (star_topology N kind T) as [HlT He]; [|assumption|].
  { simpl in Hk. destruct Hk as [<-|[<-|[<-|[]]]]; reflexivity. }
  destruct (topology_failure N kind T v E Hv) as [Es [HWG [Hn [Hnl [Hed Hdeg]]]]].
  exists T, (without_node v T). split; [exact E|]. split; [exact Es|]. split.
  - intros ->. split.
    + rewrite Hn, (range_cons 1 (N + 1)) by lia. cbn [filter]. rewrite Z.eqb_refl.
      cbn [negb]. replace (1 + 1) with 2 by lia. apply filter_out_absent.
      rewrite range_In. lia.
    + apply edges_nil. intros a b Hab. rewrite Hed in Hab.
      apply filter_In in Hab. destruct Hab as [Hab Hav]. apply He in Hab.
      destruct Hab as [-> _]. discriminate Hav.
  - intros Hne. split.
    + intros a b. rewrite Hed, filter_In, He. unfold avoids. cbn [fst snd].
      destruct (Z.eqb_spec a v), (Z.eqb_spec b v); simpl; intuition lia.
    + assert (Hnb : List.length (neighbors T v) = 1%nat).
      { change 1%nat with (List.length [1]).
        apply Permutation_length, NoDup_Permutation.
        - now apply neighbors_NoDup.
        - repeat constructor. simpl. tauto.
        - intros w. rewrite (topology_neighbors N kind T v w E), !He. simpl. lia. }
      rewrite Hnb in Hdeg. rewrite HlT in Hdeg. lia.
Qed.

Lemma star_failure_witness :
  exists T G,
    create_topology 5 "PON" = Ok T /\ simulate_node_failure T 1 = Ok G
    /\ nodes G = [2; 3; 4; 5] /\ edges G = [].
Proof.
  destruct (star_failure 5 1 "PON" ltac:(simpl; tauto) ltac:(lia))
    as [T [G [E [Es [H _]]]]].
  destruct (H eq_refl) as [Hn He].
  exists T, G. split; [exact E|]. split; [exact Es|]. split; [exact Hn | exact He].
Defined.

(** ** The colours of the drawn links *)

Lemma map_result_total {A B : Type} (f : A -> result B) (g : A -> B) (xs : list A) :
  (forall x, In x xs -> f x = Ok (g x)) -> map_result f xs = Ok (map g xs).
Proof.
  induction xs as [|x xs IH]; intros H; simpl; [reflexivity|].
  rewrite (H x) by now left. cbn [bind]. rewrite IH; [reflexivity|].
  intros y Hy. apply H. now right.
Qed.

(** When every element gives a value or raises [e], and one raises, the
    comprehension raises [e]. *)
Lemma map_result_raise {A B : Type} (f : A -> result B) (e : exn) (xs : list A) :
  (forall x, In x xs -> (exists y, f x = Ok y) \/ f x = Raise e) ->
  (exists x, In x xs /\ f x = Raise e) ->
  map_result f xs = Raise e.
Proof.
  induction xs as [|x xs IH]; intros Hall [x0 [Hin Hx0]]; [contradiction|].
  cbn [map_result]. destruct (Hall x (or_introl eq_refl)) as [[y Hy]|Hr].
  - rewrite Hy. cbn [bind]. rewrite IH; [reflexivity | |].
    + intros z Hz. apply Hall. now right.
    + destruct Hin as [->|Hin]; [congruence|]. now exists x0.
  - now rewrite Hr.
Qed.

Lemma combine_map_r {A B : Type} (g : A -> B) (xs : list A) :
  combine xs (map g xs) = map (fun x => (x, g x)) xs.
Proof. induction xs as [|x xs IH]; simpl; [reflexivity | now rewrite IH]. Qed.

Lemma map_result_map {A B C : Type} (g : A -> B) (f : B -> result C) (xs : list A) :
  map_result f (map g xs) = map_result (fun x => f (g x)) xs.
Proof. induction xs as [|x xs IH]; simpl; [reflexivity | now rewrite IH]. Qed.

Lemma link_wavelength_data (G : Graph) (u v : Z) :
  WF G -> In (u, v) (edges G) ->
  exists w, edge_data G u v = Ok (mkData w) /\ link_wavelength G (u, v) = w.
Proof.
  intros HW Huv. apply (edges_spec G u v HW) in Huv. destruct Huv as [Huv _].
  destruct (edge_data_Forall (fun _ => True) G u v HW) as [[w] [Hd _]];
    [apply Forall_forall; trivial | assumption |].
  exists w. split; [exact Hd|]. unfold link_wavelength. cbn [fst snd]. now rewrite Hd.
Qed.

(** On a graph of networkx [edge_colors] raises nothing, and the loop
    makes one call of [go.Scatter] per link. *)
Lemma edge_traces_spec (valid_color : label -> bool) (G : Graph) :
  WF G ->
  edge_traces valid_color G
  = map_result
      (fun e => scatter_line valid_color e (line_color (link_wavelength G e)))
      (edges G).
Proof.
  intros HW. unfold edge_traces, edge_colors.
  rewrite (map_result_total _ (link_wavelength G)).
  - cbn [bind]. rewrite combine_map_r, map_result_map. reflexivity.
  - intros [u v] Huv. destruct (link_wavelength_data G u v HW Huv) as [w [Hd Hw]].
    cbn [fst snd]. rewrite Hd. cbn [bind wavelength]. now rewrite Hw.
Qed.

Lemma built_WF (G : Graph) : built G -> WF G.
Proof.
  induction 1 as [N kind G E|G G' ws r r' _ IH E|G G' v _ IH E].
  - now destruct (create_topology_edges N kind G E).
  - destruct ws as [|w ws].
    + rewrite assign_wavelengths_unfold in E.
      destruct (edges G) as [|[a b] es]; [|discriminate E].
      inversion E. now subst.
    + destruct (assign_wavelengths_spec (w :: ws) G r) as [G2 [r2 [E2 [HW _]]]];
        [discriminate | assumption |].
      rewrite E in E2. inversion E2. now subst.
  - destruct (simulate_node_failure_spec G v IH) as [G2 [E2 [HW _]]].
    rewrite E in E2. inversion E2. now subst.
Qed.

(** X12: the edge loop of [plot_network] on a graph the program has
    built.  When plotly takes the line colour of every link for a colour,
    the loop raises nothing and draws one trace per link, in the order of
    [G.edges()] ([zip] drops none): a link whose wavelength is [None] is
    drawn blue, any other in its own wavelength.  When the line colour of
    some link is not a colour, [go.Scatter] raises [ValueError].  On a
    topology just built every trace is blue. *)
Theorem edge_traces_one_per_link (valid_color : label -> bool) (G : Graph) :
  built G ->
  ((forall u v w, In (u, v) (edges G) -> edge_data G u v = Ok (mkData w) ->
                  valid_color (line_color w) = true) ->
   exists ts,
     edge_traces valid_color G = Ok ts
     /\ map fst ts = edges G
     /\ (forall u v c, In ((u, v), c) ts ->
                       edge_data G u v = Ok (mkData (Some c))
                       \/ (unset G u v /\ c = "blue"%string)))
  /\ ((exists u v w, In (u, v) (edges G) /\ edge_data G u v = Ok (mkData w)
                     /\ valid_color (line_color w) = false) ->
      edge_traces valid_color G = Raise ValueError)
  /\ (forall N kind, create_topology N kind = Ok G ->
                     valid_color "blue"%string = true ->
                     edge_traces valid_color G
                     = Ok (map (fun e => (e, "blue"%string)) (edges G))).
Proof.
  intros HB. pose proof (built_WF G HB) as HW.
  rewrite (edge_traces_spec valid_color G HW). split; [|split].
  - intros Hv.
    rewrite (map_result_total _ (fun e => (e, line_color (link_wavelength G e)))).
    + eexists. split; [reflexivity|]. split; [rewrite map_map; apply map_id|].
      intros u v c Hin. apply in_map_iff in Hin.
      destruct Hin as [[a b] [Heq Hab]]. inversion Heq; subst a b c.
      destruct (link_wavelength_data G u v HW Hab) as [w [Hd ->]].
      unfold unset. destruct w as [w|]; [now left | now right].
    + intros [u v] Huv. destruct (link_wavelength_data G u v HW Huv) as [w [Hd Hw]].
      unfold scatter_line. rewrite Hw. now rewrite (Hv u v w Huv Hd).
  - intros [u [v [w [Huv [Hd Hw]]]]]. apply map_result_raise.
    + intros e _. unfold scatter_line.
      destruct (valid_color (line_color (link_wavelength G e))); [left; eauto | now right].
    + exists (u, v). split; [exact Huv|].
      destruct (link_wavelength_data G u v HW Huv) as [w' [Hd' Hw']].
      unfold scatter_line. rewrite Hw'. replace w' with w by congruence.
      now rewrite Hw.
  - intros N kind E Hblue. destruct (create_topology_edges N kind G E) as [_ [_ [_ Hu]]].
    apply map_result_total. intros [u v] Huv.
    unfold scatter_line, link_wavelength. cbn [fst snd].
    apply Hu in Huv. unfold unset in Huv. rewrite Huv. cbn [wavelength line_color].
    now rewrite Hblue.
Qed.

Lemma edge_traces_one_per_link_witness :
  exists T ts,
    create_topology 3 "Star" = Ok T
    /\ edge_traces options_only T = Ok ts
    /\ map fst ts = [(1, 2); (1, 3)].
Proof.
  assert (E : exists T, create_topology 3 "Star" = Ok T
                        /\ edges T = [(1, 2); (1, 3)]
                        /\ g_data T = [mkData None; mkData None]).
  { eexists. split; [vm_compute; reflexivity|]. now split. }
  destruct E as [T [E [He Hd]]].
  destruct (edge_traces_one_per_link options_only T (built_create 3 "Star" T E))
    as [H _].
  destruct H as [ts [Et [Hm _]]].
  - intros u v w Huv Hw.
    destruct (create_topology_edges 3 "Star" T E) as [_ [_ [_ Hu]]].
    apply Hu in Huv. unfold unset in Huv. rewrite Huv in Hw.
    inversion Hw. reflexivity.
  - exists T, ts. split; [exact E|]. split; [exact Et|]. now rewrite Hm, He.
Defined.

(** X13: the links the script hands to the plot.  When every wavelength
    of the list is a colour for plotly (the four options of the
    multiselect are), the edge loop raises nothing and draws one trace
    per remaining link, each in a colour of the list: the default blue
    shows only if blue is in the list.  When no wavelength of the list is
    a colour, [go.Scatter] raises [ValueError] as soon as a link
    remains. *)
Theorem plotted_colours_selected (valid_color : label -> bool) (N : Z)
    (kind : string) (ws : list label) (f : Z) (r : rand) :
  (1 <= List.length ws)%nat ->
  exists G,
    run_simulation N kind ws f r = Ok G
    /\ ((forall w, In w ws -> valid_color w = true) ->
        exists ts,
          edge_traces valid_color G = Ok ts
          /\ map fst ts = edges G
          /\ (forall e c, In (e, c) ts -> In c ws)
          /\ (~ In "blue"%string ws -> forall e, ~ In (e, "blue"%string) ts))
    /\ ((forall w, In w ws -> valid_color w = false) ->
        edges G <> [] -> edge_traces valid_color G = Raise ValueError).
Proof.
  intros Hws. apply nonempty_length in Hws.
  destruct (create_topology_spec N kind) as [T [ET [HWT [HnT _]]]].
  destruct (assign_wavelengths_spec ws T r Hws HWT)
    as [G1 [r1 [E1 [HW1 [Hn1 [Ha1 Hl1]]]]]].
  unfold nodes in HnT.
  rewrite (run_simulation_unfold N kind ws f r T G1 r1 ET E1) by congruence.
  destruct (simulate_node_failure_spec G1 f HW1) as [G [E [HW [_ [He _]]]]].
  assert (Hlab : forall u v, In (u, v) (edges G) ->
                             exists w, In w ws /\ link_wavelength G (u, v) = Some w).
  { intros u v Huv.
    destruct (failure_keeps_labels ws G1 G f u v HW1 E Huv) as [w [Hw [Hd _]]].
    - apply Hl1. rewrite He in Huv. apply filter_In in Huv. exact (proj1 Huv).
    - exists w. split; [exact Hw|]. unfold link_wavelength. cbn [fst snd].
      now rewrite Hd. }
  exists G. split; [exact E|]. rewrite (edge_traces_spec valid_color G HW).
  split.
  - intros Hv.
    rewrite (map_result_total _ (fun e => (e, line_color (link_wavelength G e)))).
    + assert (Hcol : forall e c,
                 In (e, c) (map (fun e => (e, line_color (link_wavelength G e)))
                              (edges G)) -> In c ws).
      { intros e c Hin. apply in_map_iff in Hin. destruct Hin as [[u v] [Heq Huv]].
        inversion Heq; subst e c. destruct (Hlab u v Huv) as [w [Hw ->]]. exact Hw. }
      eexists. split; [reflexivity|]. split; [rewrite map_map; apply map_id|].
      split; [exact Hcol|]. intros Hb e Hin. apply Hb. eapply Hcol; eassumption.
    + intros [u v] Huv. destruct (Hlab u v Huv) as [w [Hw Hl]].
      unfold scatter_line. rewrite Hl. cbn [line_color]. now rewrite (Hv w Hw).
  - intros Hv Hne. apply map_result_raise.
    + intros e _. unfold scatter_line.
      destruct (valid_color (line_color (link_wavelength G e))); [left; eauto | now right].
    + destruct (edges G) as [|[u v] es] eqn:Hes; [congruence|].
      exists (u, v). split; [now left|].
      destruct (Hlab u v) as [w [Hw Hl]]; [now left|].
      unfold scatter_line. rewrite Hl. cbn [line_color]. now rewrite (Hv w Hw).
Qed.

Lemma plotted_colours_selected_witness :
  exists G ts,
    run_simulation 3 "Star" ["green"]%string 0 (fun _ => O) = Ok G
    /\ edge_traces options_only G = Ok ts
    /\ forall e c, In (e, c) ts -> In c ["green"]%string.
Proof.
  destruct (plotted_colours_selected options_only 3 "Star" ["green"]%string 0
              (fun _ => O) ltac:(simpl; lia)) as [G [E [H _]]].
  destruct H as [ts [Et [_ [Hc _]]]].
  - intros w [<-|[]]. reflexivity.
  - exists G, ts. split; [exact E|]. split; [exact Et | exact Hc].
Defined.

(** ** QoS metrics *)





(** X15: the latency, for every integer hop count.  Without conversion it
    is the hop count itself, an [int], whatever its size.  With
    conversion the call raises [OverflowError] when [float(hops)] does,
    and otherwise returns a float that is exactly half of [float(hops)]:
    the product by 0.5 never rounds.  It returns below [2^1023] and
    raises from [2^1024] on.  Up to [2^53] on either side of zero
    [float(hops)] is the hop count, so conversion halves the latency
    exactly and the latency is additive in the hops.  The latency does
    not depend on the traffic load. *)
Theorem conversion_halves_latency (t t' h h' : Z) :
  qos_metrics t h false = Ok (PyInt h, Z.max 0 (100 - t * 2))
  /\ ((qos_metrics t h true = Raise OverflowError
       /\ b64_of_int h = Raise OverflowError)
      \/ (exists f g qf qg,
             b64_of_int h = Ok f
             /\ qos_metrics t h true = Ok (PyFloat g, Z.max 0 (100 - t * 2))
             /\ b64_value f = Some qf
             /\ b64_value g = Some qg
             /\ (qg * 2 == qf)%Q))
  /\ (Z.abs h < 2 ^ 1023 ->
      exists g, qos_metrics t h true = Ok (PyFloat g, Z.max 0 (100 - t * 2)))
  /\ (2 ^ 1024 <= Z.abs h -> qos_metrics t h true = Raise OverflowError)
  /\ (Z.abs h <= 2 ^ 53 ->
      exists g qg,
        qos_metrics t h true = Ok (PyFloat g, Z.max 0 (100 - t * 2))
        /\ b64_value g = Some qg
        /\ (qg * 2 == inject_Z h)%Q)
  /\ (Z.abs h <= 2 ^ 53 -> Z.abs h' <= 2 ^ 53 -> Z.abs (h + h') <= 2 ^ 53 ->
      exists g g' gs q q' qs,
        qos_metrics t h true = Ok (PyFloat g, Z.max 0 (100 - t * 2))
        /\ qos_metrics t h' true = Ok (PyFloat g', Z.max 0 (100 - t * 2))
        /\ qos_metrics t (h + h') true = Ok (PyFloat gs, Z.max 0 (100 - t * 2))
        /\ b64_value g = Some q /\ b64_value g' = Some q' /\ b64_value gs = Some qs
        /\ (qs == q + q')%Q)
  /\ (forall c,
         match qos_metrics t h c, qos_metrics t' h c with
         | Ok (a, _), Ok (a', _) => a = a'
         | Raise e, Raise e' => e = e'
         | _, _ => False
         end).
Proof.
  assert (Hexact : forall x,
             Z.abs x <= 2 ^ 53 ->
             exists g qg,
               qos_metrics t x true = Ok (PyFloat g, Z.max 0 (100 - t * 2))
               /\ b64_value g = Some qg
               /\ (qg * 2 == inject_Z x)%Q).
  { intros x Hx.
    destruct (qos_metrics_conversion_cases t x)
      as [[_ [_ Hb]]|[f [g [qf [qg [_ [E [_ [Hg [Hq [_ Hv]]]]]]]]]]].
    - exfalso. assert (2 ^ 53 < 2 ^ 1023) by (apply Z.pow_lt_mono_r; lia). lia.
    - exists g, qg. split; [exact E|]. split; [exact Hg|].
      now rewrite Hq, Hv. }
  split; [apply qos_metrics_no_conversion|]. split; [|split; [|split; [|split; [|split]]]].
  - destruct (qos_metrics_conversion_cases t h)
      as [[E [Eb _]]|[f [g [qf [qg [Ef [E [Hf [Hg [Hq _]]]]]]]]]].
    + left. now split.
    + right. exists f, g, qf, qg. repeat (split; [assumption|]). exact Hq.
  - intros Hb.
    destruct (qos_metrics_conversion_cases t h)
      as [[_ [_ Hge]]|[f [g [qf [qg [_ [E _]]]]]]]; [lia|].
    now exists g.
  - intros Hb.
    destruct (qos_metrics_conversion_cases t h)
      as [[E _]|[f [g [qf [qg [_ [_ [_ [_ [_ [Hlt _]]]]]]]]]]]; [exact E | lia].
  - apply Hexact.
  - intros H1 H2 H3.
    destruct (Hexact h H1) as [g [q [E [Hg Hq]]]].
    destruct (Hexact h' H2) as [g' [q' [E' [Hg' Hq']]]].
    destruct (Hexact (h + h') H3) as [gs [qs [Es [Hgs Hqs]]]].
    exists g, g', gs, q, q', qs. repeat (split; [assumption|]).
    rewrite inject_Z_plus, <- Hq, <- Hq' in Hqs.
    apply (Qmult_inj_r _ _ 2); [discriminate|]. rewrite Hqs. ring.
  - intros c. unfold qos_metrics.
    destruct (num_mul (PyInt h) (if c then PyFloat b64_half else PyInt 1));
      cbn [bind]; reflexivity.
Qed.

Lemma conversion_halves_latency_witness :
  exists g qg,
    qos_metrics 30 4 true = Ok (PyFloat g, 40)
    /\ b64_value g = Some qg
    /\ (qg * 2 == 4)%Q.
Proof.
  destruct (conversion_halves_latency 30 30 4 4) as [_ [_ [_ [_ [H _]]]]].
  apply H. vm_compute. discriminate.
Defined.
